(** * KnowledgeGraphManager: a shallow embedding of [src/dist/index.js]

    The development follows the two layers of the program:

    - the persistence layer ([loadGraph], [saveGraph]) over a text file of
      newline-delimited JSON records, together with the parts of the
      JavaScript platform it calls ([String.prototype.split], [trim],
      [JSON.stringify], [JSON.parse]);
    - the graph operations ([createEntities] ... [openNodes]), written in a
      small state-and-exception monad over the file.

    JavaScript strings are sequences of UTF-16 code units; a code unit is a
    number of type [N].  Entities, relations and graphs are the records of
    the TypeScript declarations ([Entity], [Relation], [KnowledgeGraph]); a
    relation also carries the order of its members, which the file keeps. *)

From Stdlib Require Import String Ascii List NArith Bool Arith Lia.
Import ListNotations.

Set Warnings "-register-all".

Local Open Scope N_scope.
Local Open Scope list_scope.

(* ================================================================== *)
(** * JavaScript strings *)
(* ================================================================== *)

Module JsString.

(** A string value: its UTF-16 code units, in order. *)
Definition jstring := list N.

(** A literal of the source text (ASCII), as code units. *)
Definition lit (s : string) : jstring :=
  map N_of_ascii (list_ascii_of_string s).
Arguments lit s%_string.

(** [a === b] on strings. *)
Fixpoint str_eqb (a b : jstring) : bool :=
  match a, b with
  | [], [] => true
  | x :: a', y :: b' => (x =? y) && str_eqb a' b'
  | _, _ => false
  end.

(** [arr.includes(s)] for an array of strings. *)
Definition arr_includes (arr : list jstring) (s : jstring) : bool :=
  existsb (fun x => str_eqb x s) arr.

(** [s.startsWith(k)]. *)
Fixpoint starts_with (k s : jstring) : bool :=
  match k, s with
  | [], _ => true
  | x :: k', y :: s' => (x =? y) && starts_with k' s'
  | _ :: _, [] => false
  end.

(** [s.includes(k)]: [k] occurs in [s] at some position. *)
Fixpoint includes (s k : jstring) : bool :=
  starts_with k s ||
  match s with
  | [] => false
  | _ :: s' => includes s' k
  end.

(** The characters matched by the regular expression class [\s], which are
    also the ones [trim()] strips: WhiteSpace and LineTerminator of
    ECMA-262. *)
Definition is_js_space (c : N) : bool :=
  ((9 <=? c) && (c <=? 13)) || (c =? 32) || (c =? 160) || (c =? 5760)
  || ((8192 <=? c) && (c <=? 8202)) || (c =? 8232) || (c =? 8233)
  || (c =? 8239) || (c =? 8287) || (c =? 12288) || (c =? 65279).

Fixpoint drop_while (p : N -> bool) (s : jstring) : jstring :=
  match s with
  | [] => []
  | c :: s' => if p c then drop_while p s' else s
  end.

(** [s.trim()]. *)
Definition trim (s : jstring) : jstring :=
  rev (drop_while is_js_space (rev (drop_while is_js_space s))).

(** [s.split(sep)] for a one-character separator string: the pieces between
    consecutive separators; the empty string gives one empty piece. *)
Fixpoint split_char_from (sep : N) (cur : jstring) (s : jstring)
  : list jstring :=
  match s with
  | [] => [rev cur]
  | c :: s' =>
      if c =? sep then rev cur :: split_char_from sep [] s'
      else split_char_from sep (c :: cur) s'
  end.

Definition split_char (sep : N) (s : jstring) : list jstring :=
  split_char_from sep [] s.

(** [lines.join(sep)] for a one-character separator. *)
Fixpoint join_char (sep : N) (l : list jstring) : jstring :=
  match l with
  | [] => []
  | [x] => x
  | x :: l' => x ++ sep :: join_char sep l'
  end.

(** [s.split(/[C]+/)] for a character class [C] that is given by [p]: the
    pieces between maximal runs of characters of the class.  A run at the
    start or at the end of [s] leaves an empty piece there, and the empty
    string gives one empty piece.  [in_run] says that the previous character
    belonged to the class. *)
Fixpoint split_runs_from (p : N -> bool) (in_run : bool) (cur : jstring)
  (s : jstring) : list jstring :=
  match s with
  | [] => [rev cur]
  | c :: s' =>
      if p c then
        if in_run then split_runs_from p true [] s'
        else rev cur :: split_runs_from p true [] s'
      else split_runs_from p false (c :: cur) s'
  end.

Definition split_runs (p : N -> bool) (s : jstring) : list jstring :=
  split_runs_from p false [] s.

(** The two halves of a surrogate pair. *)
Definition is_lead_surrogate (c : N) : bool := (55296 <=? c) && (c <=? 56319).
Definition is_trail_surrogate (c : N) : bool := (56320 <=? c) && (c <=? 57343).

(** The string that is read back (as UTF-8) from a file to which [s] was
    written (as UTF-8): a surrogate outside a pair has no encoding and
    comes back as U+FFFD. *)
Fixpoint utf8_text (s : jstring) : jstring :=
  match s with
  | [] => []
  | c :: s' =>
      if is_lead_surrogate c then
        match s' with
        | d :: s'' =>
            if is_trail_surrogate d then c :: d :: utf8_text s''
            else 65533 :: utf8_text s'
        | [] => [65533]
        end
      else if is_trail_surrogate c then 65533 :: utf8_text s'
      else c :: utf8_text s'
  end.

(** ASCII lower-casing: what [toLowerCase] does on strings whose code units
    are all below 128.  It is used to run examples; the operations take
    [toLowerCase] as a parameter. *)
Definition ascii_lower_unit (c : N) : N :=
  if (65 <=? c) && (c <=? 90) then c + 32 else c.

Definition ascii_toLowerCase (s : jstring) : jstring :=
  map ascii_lower_unit s.

End JsString.
Export JsString.


(* ================================================================== *)
(** * JSON text: [JSON.stringify] and [JSON.parse] *)
(* ================================================================== *)

Module Json.

(** JavaScript values as far as the persistence layer builds and reads
    them.  A number is carried as the lexeme it was read from: the program
    never computes with one. *)
Inductive jsval : Type :=
| VUndefined
| VNull
| VBool (b : bool)
| VNum (lexeme : jstring)
| VStr (s : jstring)
| VArr (elems : list jsval)
| VObj (members : list (jstring * jsval)).

(** ** Printing *)

(** The lower-case hexadecimal digit of [d < 16]. *)
Definition hex_digit (d : N) : N :=
  if d <? 10 then 48 + d else 87 + d.

(** [\uXXXX] for a code unit. *)
Definition unicode_escape (c : N) : jstring :=
  [92; 117; hex_digit (c / 4096 mod 16); hex_digit (c / 256 mod 16);
   hex_digit (c / 16 mod 16); hex_digit (c mod 16)].

(** One code unit that is not part of a surrogate pair, as QuoteJSONString
    writes it: the short escapes, [\uXXXX] for the other control characters
    and for a lone surrogate, and the unit itself otherwise. *)
Definition quote_unit (c : N) : jstring :=
  if c =? 8 then [92; 98]
  else if c =? 9 then [92; 116]
  else if c =? 10 then [92; 110]
  else if c =? 12 then [92; 102]
  else if c =? 13 then [92; 114]
  else if c =? 34 then [92; 34]
  else if c =? 92 then [92; 92]
  else if (c <? 32) || is_lead_surrogate c || is_trail_surrogate c
       then unicode_escape c
  else [c].

(** The characters of a string between the quotes: a leading surrogate
    followed by a trailing one is a code point of its own and is written as
    it is. *)
Fixpoint quote_units (s : jstring) : jstring :=
  match s with
  | [] => []
  | c :: s' =>
      if is_lead_surrogate c then
        match s' with
        | d :: s'' =>
            if is_trail_surrogate d then c :: d :: quote_units s''
            else quote_unit c ++ quote_units s'
        | [] => quote_unit c
        end
      else quote_unit c ++ quote_units s'
  end.

Definition quote (s : jstring) : jstring := 34 :: quote_units s ++ [34].

(** Comma-separated pieces. *)
Fixpoint commas (l : list jstring) : jstring :=
  match l with
  | [] => []
  | [x] => x
  | x :: l' => x ++ 44 :: commas l'
  end.

(** SerializeJSONProperty without indentation: [None] is the [undefined]
    that [JSON.stringify] returns for a value with no JSON text.  A member
    whose value is [undefined] is left out of its object; an array element
    that is [undefined] is written [null]. *)
Fixpoint stringify (v : jsval) : option jstring :=
  match v with
  | VUndefined => None
  | VNull => Some (lit "null")
  | VBool true => Some (lit "true")
  | VBool false => Some (lit "false")
  | VNum lexeme => Some lexeme
  | VStr s => Some (quote s)
  | VArr elems =>
      Some (91 :: commas (map (fun e => match stringify e with
                                        | Some t => t
                                        | None => lit "null"
                                        end) elems) ++ [93])
  | VObj members =>
      Some (123 :: commas
              (flat_map (fun m => match stringify (snd m) with
                                  | Some t => [quote (fst m) ++ 58 :: t]
                                  | None => []
                                  end) members) ++ [125])
  end.

(** [JSON.stringify(v)] where the result is used as a string: the program
    only passes objects, for which there always is a text. *)
Definition JSON_stringify (v : jsval) : jstring :=
  match stringify v with
  | Some t => t
  | None => lit "undefined"
  end.

(** ** Parsing *)

(** JSON white space: tab, line feed, carriage return, space. *)
Definition is_json_ws (c : N) : bool :=
  (c =? 9) || (c =? 10) || (c =? 13) || (c =? 32).

Definition skip_ws (s : jstring) : jstring := drop_while is_json_ws s.

Definition is_digit (c : N) : bool := (48 <=? c) && (c <=? 57).

Definition hex_value (c : N) : option N :=
  if is_digit c then Some (c - 48)
  else if (97 <=? c) && (c <=? 102) then Some (c - 87)
  else if (65 <=? c) && (c <=? 70) then Some (c - 55)
  else None.

Definition hex4 (a b c d : N) : option N :=
  match hex_value a, hex_value b, hex_value c, hex_value d with
  | Some x, Some y, Some z, Some w => Some (x * 4096 + y * 256 + z * 16 + w)
  | _, _, _, _ => None
  end.

(** The character a one-letter escape stands for. *)
Definition unescape (e : N) : option N :=
  if e =? 34 then Some 34
  else if e =? 92 then Some 92
  else if e =? 47 then Some 47
  else if e =? 98 then Some 8
  else if e =? 102 then Some 12
  else if e =? 110 then Some 10
  else if e =? 114 then Some 13
  else if e =? 116 then Some 9
  else None.

(** The characters of a string after its opening quote, up to the closing
    one: the string and the text that follows it. *)
Fixpoint parse_units (s : jstring) : option (jstring * jstring) :=
  match s with
  | [] => None
  | c :: s' =>
      if c =? 34 then Some ([], s')
      else if c =? 92 then
        match s' with
        | [] => None
        | e :: s'' =>
            if e =? 117 then
              match s'' with
              | h1 :: h2 :: h3 :: h4 :: s3 =>
                  match hex4 h1 h2 h3 h4, parse_units s3 with
                  | Some u, Some (t, r) => Some (u :: t, r)
                  | _, _ => None
                  end
              | _ => None
              end
            else
              match unescape e, parse_units s'' with
              | Some u, Some (t, r) => Some (u :: t, r)
              | _, _ => None
              end
        end
      else if c <? 32 then None
      else
        match parse_units s' with
        | Some (t, r) => Some (c :: t, r)
        | None => None
        end
  end.

(** The longest prefix of digits, and the rest. *)
Fixpoint span_digits (s : jstring) : jstring * jstring :=
  match s with
  | c :: s' =>
      if is_digit c then let (d, r) := span_digits s' in (c :: d, r)
      else ([], s)
  | [] => ([], [])
  end.

(** A number: an optional minus sign, an integer part (a single zero, or a
    non-zero digit and more digits), an optional fraction (a point and at
    least one digit) and an optional exponent (e or E, an optional sign and
    at least one digit). *)
Definition parse_int (s : jstring) : option (jstring * jstring) :=
  match s with
  | c :: s' =>
      if c =? 48 then Some ([48], s')
      else if is_digit c then let (d, r) := span_digits s' in Some (c :: d, r)
      else None
  | [] => None
  end.

Definition parse_frac (s : jstring) : option (jstring * jstring) :=
  match s with
  | c :: s' =>
      if c =? 46 then
        match span_digits s' with
        | ([], _) => None
        | (d, r) => Some (46 :: d, r)
        end
      else Some ([], s)
  | [] => Some ([], s)
  end.

Definition parse_exp (s : jstring) : option (jstring * jstring) :=
  let digits (pre s' : jstring) :=
    match span_digits s' with
    | ([], _) => None
    | (d, r) => Some (pre ++ d, r)
    end in
  match s with
  | e :: s' =>
      if (e =? 101) || (e =? 69) then
        match s' with
        | sg :: s'' =>
            if (sg =? 43) || (sg =? 45) then digits [e; sg] s''
            else digits [e] s'
        | [] => None
        end
      else Some ([], s)
  | [] => Some ([], s)
  end.

Definition parse_number (s : jstring) : option (jstring * jstring) :=
  let (sign, s1) := match s with
                    | c :: s' => if c =? 45 then ([45], s') else ([], s)
                    | [] => ([], s)
                    end in
  match parse_int s1 with
  | None => None
  | Some (i, s2) =>
      match parse_frac s2 with
      | None => None
      | Some (f, s3) =>
          match parse_exp s3 with
          | None => None
          | Some (e, s4) => Some (sign ++ i ++ f ++ e, s4)
          end
      end
  end.

(** [word] at the start of [s]: the rest of [s]. *)
Fixpoint strip_prefix (word s : jstring) : option jstring :=
  match word, s with
  | [], _ => Some s
  | x :: w', y :: s' => if x =? y then strip_prefix w' s' else None
  | _ :: _, [] => None
  end.

(** Whether [s] starts with the character [c], after white space. *)
Definition next_is (c : N) (s : jstring) : bool :=
  match skip_ws s with
  | d :: _ => d =? c
  | [] => false
  end.

(** The text after the next character that is no white space. *)
Definition after_next (s : jstring) : jstring := tl (skip_ws s).

(** A JSON value at the start of [s] (after white space), the elements of
    an array after a first position, and the members of an object.  [fuel]
    bounds the number of nested calls. *)
Fixpoint parse_value (fuel : nat) (s : jstring) {struct fuel}
  : option (jsval * jstring) :=
  match fuel with
  | O => None
  | S fuel' =>
      match skip_ws s with
      | [] => None
      | c :: s' =>
          if c =? 34 then
            match parse_units s' with
            | Some (t, r) => Some (VStr t, r)
            | None => None
            end
          else if c =? 91 then
            if next_is 93 s' then Some (VArr [], after_next s')
            else
              match parse_elems fuel' s' with
              | Some (l, r) => Some (VArr l, r)
              | None => None
              end
          else if c =? 123 then
            if next_is 125 s' then Some (VObj [], after_next s')
            else
              match parse_members fuel' s' with
              | Some (l, r) => Some (VObj l, r)
              | None => None
              end
          else if c =? 116 then
            match strip_prefix (lit "rue") s' with
            | Some r => Some (VBool true, r)
            | None => None
            end
          else if c =? 102 then
            match strip_prefix (lit "alse") s' with
            | Some r => Some (VBool false, r)
            | None => None
            end
          else if c =? 110 then
            match strip_prefix (lit "ull") s' with
            | Some r => Some (VNull, r)
            | None => None
            end
          else
            match parse_number (c :: s') with
            | Some (l, r) => Some (VNum l, r)
            | None => None
            end
      end
  end

with parse_elems (fuel : nat) (s : jstring) {struct fuel}
  : option (list jsval * jstring) :=
  match fuel with
  | O => None
  | S fuel' =>
      match parse_value fuel' s with
      | None => None
      | Some (v, r) =>
          if next_is 44 r then
            match parse_elems fuel' (after_next r) with
            | Some (l, r') => Some (v :: l, r')
            | None => None
            end
          else if next_is 93 r then Some ([v], after_next r)
          else None
      end
  end

with parse_members (fuel : nat) (s : jstring) {struct fuel}
  : option (list (jstring * jsval) * jstring) :=
  match fuel with
  | O => None
  | S fuel' =>
      if next_is 34 s then
        match parse_units (after_next s) with
        | None => None
        | Some (k, r) =>
            if next_is 58 r then
              match parse_value fuel' (after_next r) with
              | None => None
              | Some (v, r2) =>
                  if next_is 44 r2 then
                    match parse_members fuel' (after_next r2) with
                    | Some (l, r3) => Some ((k, v) :: l, r3)
                    | None => None
                    end
                  else if next_is 125 r2 then
                    Some ([(k, v)], after_next r2)
                  else None
              end
            else None
        end
      else None
  end.

(** [JSON.parse(text)]: [None] is the [SyntaxError].  No chain of nested
    calls is longer than twice the length of the text. *)
Definition JSON_parse (text : jstring) : option jsval :=
  match parse_value (2 * length text + 2) text with
  | Some (v, r) =>
      match skip_ws r with
      | [] => Some v
      | _ :: _ => None
      end
  | None => None
  end.

(** [item.key] for a parsed value: the last member of that name of an
    object, [undefined] when there is none or the value is no object. *)
Fixpoint member (key : jstring) (members : list (jstring * jsval)) : jsval :=
  match members with
  | [] => VUndefined
  | (k, v) :: rest =>
      match member key rest with
      | VUndefined => if str_eqb k key then v else VUndefined
      | later => later
      end
  end.

End Json.
Export Json.

(* ================================================================== *)
(** * The knowledge graph and its store *)
(* ================================================================== *)

Module Graph.

(** ** Data model (the interfaces of the TypeScript declarations) *)

Record Entity : Type := {
  name : jstring;
  entityType : jstring;
  observations : list jstring;
  subdomain : option jstring  (* [subdomain?: string] *)
}.

(** The order of the three members within a relation object.  A JavaScript
    object keeps its properties in the order of their creation, and the rest
    pattern of [loadGraph] and the spread of [saveGraph] copy them in that
    order: a relation is written the way the caller's object, or its line of
    the file, had it. *)
Inductive member_order : Type :=
| from_to_relationType
| from_relationType_to
| to_from_relationType
| to_relationType_from
| relationType_from_to
| relationType_to_from.

Record Relation : Type := {
  from : jstring;
  to : jstring;
  relationType : jstring;
  order : member_order
}.

Record KnowledgeGraph : Type := {
  entities : list Entity;
  relations : list Relation
}.

Definition empty_graph : KnowledgeGraph :=
  {| entities := []; relations := [] |}.

(** The argument and result items of [addObservations] and the argument
    items of [deleteObservations].  The members [entityName] of the result
    and [entityName], [observations] of a deletion carry a prefix here, as
    a field name belongs to one record. *)
Record ObservationInput : Type := {
  entityName : jstring;
  contents : list jstring
}.

Record ObservationResult : Type := {
  res_entityName : jstring;
  addedObservations : list jstring
}.

Record ObservationDeletion : Type := {
  del_entityName : jstring;
  del_observations : list jstring
}.

(** ** The file and the monad of the manager's methods *)

(** What a method did to the file: [loadGraph] creating it empty, or
    [saveGraph] writing a text. *)
Inductive event : Type :=
| CreatedEmpty
| Saved (text : jstring).

(** The file at [memoryFilePath], as the text that [fs.readFile] returns
    ([None]: the file does not exist), and the writes made so far, oldest
    first.  Reads and writes of the file system always succeed. *)
Record world : Type := {
  file : option jstring;
  log : list event
}.

(** The exceptions of the model.  [IllTyped] is not raised by the program:
    it marks a store with a record whose members do not have the declared
    types, where the behaviour of the program is not modelled. *)
Inductive exn : Type :=
| EntityNotFound (missing : jstring)
| IllTyped.

Inductive outcome (A : Type) : Type :=
| Returned (a : A)
| Thrown (e : exn).
Arguments Returned {A} a.
Arguments Thrown {A} e.

Definition M (A : Type) : Type := world -> outcome A * world.

Definition ret {A} (a : A) : M A := fun w => (Returned a, w).

Definition bind {A B} (m : M A) (k : A -> M B) : M B :=
  fun w =>
    match m w with
    | (Returned a, w') => k a w'
    | (Thrown e, w') => (Thrown e, w')
    end.

Definition throw {A} (e : exn) : M A := fun w => (Thrown e, w).

(** A computation without effect on the file that returns or throws. *)
Definition lift {A} (o : outcome A) : M A := fun w => (o, w).

Notation "x <- m ;; k" := (bind m (fun x => k))
  (at level 61, m at next level, right associativity).
Notation "m ;;; k" := (bind m (fun _ => k))
  (at level 61, right associativity).

(** ** Persistence layer *)

(** The value of [item.key]; a value that is no object has none of the
    members the program reads.  (For [null] the member access throws inside
    the [try] of the loop, and the line is skipped like one with another
    [type].) *)
Definition prop (key : jstring) (item : jsval) : jsval :=
  match item with
  | VObj members => member key members
  | _ => VUndefined
  end.

(** An array of strings. *)
Fixpoint as_strings (l : list jsval) : option (list jstring) :=
  match l with
  | [] => Some []
  | VStr s :: l' =>
      match as_strings l' with
      | Some t => Some (s :: t)
      | None => None
      end
  | _ :: _ => None
  end.

(** The entity object that [loadGraph] builds from the four members of
    [item], when they have the types of [Entity]. *)
Definition as_entity (item : jsval) : option Entity :=
  match prop (lit "name") item, prop (lit "entityType") item,
        prop (lit "observations") item with
  | VStr n, VStr t, VArr o =>
      match as_strings o, prop (lit "subdomain") item with
      | Some obs, VUndefined =>
          Some {| name := n; entityType := t; observations := obs;
                  subdomain := None |}
      | Some obs, VStr sd =>
          Some {| name := n; entityType := t; observations := obs;
                  subdomain := Some sd |}
      | _, _ => None
      end
  | _, _, _ => None
  end.

(** The names of the properties of the object that [JSON.parse] builds
    from these members, in the order of their creation: a name that is
    repeated in the text keeps the place of its first occurrence (and, as
    [member] has it, the value of its last). *)
Fixpoint own_keys (members : list (jstring * jsval)) : list jstring :=
  match members with
  | [] => []
  | (k, _) :: rest =>
      k :: filter (fun later => negb (str_eqb later k)) (own_keys rest)
  end.

(** The order that three names are, when they are the names of the members
    of [Relation]. *)
Definition order_of (keys : list jstring) : option member_order :=
  match keys with
  | [k1; k2; k3] =>
      let f := lit "from" in
      let t := lit "to" in
      let r := lit "relationType" in
      if str_eqb k1 f && str_eqb k2 t && str_eqb k3 r
      then Some from_to_relationType
      else if str_eqb k1 f && str_eqb k2 r && str_eqb k3 t
      then Some from_relationType_to
      else if str_eqb k1 t && str_eqb k2 f && str_eqb k3 r
      then Some to_from_relationType
      else if str_eqb k1 t && str_eqb k2 r && str_eqb k3 f
      then Some to_relationType_from
      else if str_eqb k1 r && str_eqb k2 f && str_eqb k3 t
      then Some relationType_from_to
      else if str_eqb k1 r && str_eqb k2 t && str_eqb k3 f
      then Some relationType_to_from
      else None
  | _ => None
  end.

(** [const { type, ...relation } = item]: the properties of [item] other
    than [type], in the order that [item] has them, when they are the three
    strings of [Relation]. *)
Definition as_relation (item : jsval) : option Relation :=
  match item with
  | VObj members =>
      let rest :=
        filter (fun m => negb (str_eqb (fst m) (lit "type"))) members in
      match prop (lit "from") item, prop (lit "to") item,
            prop (lit "relationType") item, order_of (own_keys rest) with
      | VStr f, VStr t, VStr r, Some o =>
          Some {| from := f; to := t; relationType := r; order := o |}
      | _, _, _, _ => None
      end
  | _ => None
  end.

(** One pass of the loop over the lines: the graph with the record of
    [line] pushed.  A line that does not parse is skipped, and so is a value
    whose [type] is neither of the two. *)
Definition load_line (graph : KnowledgeGraph) (line : jstring)
  : outcome KnowledgeGraph :=
  match JSON_parse line with
  | None => Returned graph
  | Some item =>
      match prop (lit "type") item with
      | VStr ty =>
          if str_eqb ty (lit "entity") then
            match as_entity item with
            | Some entity =>
                Returned {| entities := entities graph ++ [entity];
                            relations := relations graph |}
            | None => Thrown IllTyped
            end
          else if str_eqb ty (lit "relation") then
            match as_relation item with
            | Some relation =>
                Returned {| entities := entities graph;
                            relations := relations graph ++ [relation] |}
            | None => Thrown IllTyped
            end
          else Returned graph
      | _ => Returned graph
      end
  end.

Fixpoint load_lines (graph : KnowledgeGraph) (lines : list jstring)
  : outcome KnowledgeGraph :=
  match lines with
  | [] => Returned graph
  | line :: rest =>
      match load_line graph line with
      | Returned graph' => load_lines graph' rest
      | Thrown e => Thrown e
      end
  end.

(** The graph that the contents [data] of the file hold. *)
Definition load_text (data : jstring) : outcome KnowledgeGraph :=
  let lines :=
    filter (fun line => negb (str_eqb (trim line) []))
           (split_char 10 data) in
  load_lines empty_graph lines.

Definition loadGraph : M KnowledgeGraph :=
  fun w =>
    match file w with
    | None =>
        (Returned empty_graph,
         {| file := Some []; log := log w ++ [CreatedEmpty] |})
    | Some data => (load_text data, w)
    end.

Definition opt_str (o : option jstring) : jsval :=
  match o with
  | Some s => VStr s
  | None => VUndefined
  end.

(** The object [entityWithType] of [saveGraph]. *)
Definition entityWithType (e : Entity) : jsval :=
  VObj [(lit "type", VStr (lit "entity"));
        (lit "name", VStr (name e));
        (lit "entityType", VStr (entityType e));
        (lit "observations", VArr (map VStr (observations e)));
        (lit "subdomain", opt_str (subdomain e))].

(** The properties of the relation object [r], in its order. *)
Definition own_members (r : Relation) : list (jstring * jsval) :=
  let f := (lit "from", VStr (from r)) in
  let t := (lit "to", VStr (to r)) in
  let y := (lit "relationType", VStr (relationType r)) in
  match order r with
  | from_to_relationType => [f; t; y]
  | from_relationType_to => [f; y; t]
  | to_from_relationType => [t; f; y]
  | to_relationType_from => [t; y; f]
  | relationType_from_to => [y; f; t]
  | relationType_to_from => [y; t; f]
  end.

(** [{ type: "relation", ...r }]: [type] first, then the properties of [r]
    as it has them. *)
Definition relationWithType (r : Relation) : jsval :=
  VObj ((lit "type", VStr (lit "relation")) :: own_members r).

Definition graph_lines (graph : KnowledgeGraph) : list jstring :=
  map (fun e => JSON_stringify (entityWithType e)) (entities graph)
  ++ map (fun r => JSON_stringify (relationWithType r)) (relations graph).

(** The text that [saveGraph] writes. *)
Definition graph_text (graph : KnowledgeGraph) : jstring :=
  join_char 10 (graph_lines graph) ++ [10].

Definition saveGraph (graph : KnowledgeGraph) : M unit :=
  fun w =>
    (Returned tt,
     {| file := Some (utf8_text (graph_text graph));
        log := log w ++ [Saved (graph_text graph)] |}).

End Graph.
Export Graph.

(* ================================================================== *)
(** * The operations of [KnowledgeGraphManager] *)
(* ================================================================== *)

Module Manager.

(** [graph.entities.some(existingEntity => existingEntity.name === n)]. *)
Definition has_name (es : list Entity) (n : jstring) : bool :=
  existsb (fun existingEntity => str_eqb (name existingEntity) n) es.

(** The copy of an entity that [createEntities] pushes. *)
Definition copy_entity (e : Entity) : Entity :=
  {| name := name e; entityType := entityType e;
     observations := observations e; subdomain := subdomain e |}.

Definition createEntities (ents : list Entity) : M (list Entity) :=
  graph <- loadGraph ;;
  let newEntities :=
    filter (fun e => negb (has_name (entities graph) (name e))) ents in
  if (0 <? length newEntities)%nat then
    saveGraph {| entities := entities graph ++ map copy_entity newEntities;
                 relations := relations graph |} ;;;
    ret newEntities
  else ret newEntities.

Definition same_relation (a b : Relation) : bool :=
  str_eqb (from a) (from b) && str_eqb (to a) (to b)
  && str_eqb (relationType a) (relationType b).

Definition createRelations (rels : list Relation) : M (list Relation) :=
  graph <- loadGraph ;;
  let newRelations :=
    filter (fun r => negb (existsb (fun existingRelation =>
                                      same_relation existingRelation r)
                                   (relations graph))) rels in
  saveGraph {| entities := entities graph;
               relations := relations graph ++ newRelations |} ;;;
  ret newRelations.

(** [graph.entities.find(e => e.name === n)]. *)
Definition find_entity (es : list Entity) (n : jstring) : option Entity :=
  find (fun e => str_eqb (name e) n) es.

(** An assignment to the object that [find_entity] returned: the entities
    with the first one of that name replaced by its image under [f]. *)
Fixpoint update_found (n : jstring) (f : Entity -> Entity)
  (es : list Entity) : list Entity :=
  match es with
  | [] => []
  | e :: es' =>
      if str_eqb (name e) n then f e :: es'
      else e :: update_found n f es'
  end.

Definition set_observations (obs : list jstring) (e : Entity) : Entity :=
  {| name := name e; entityType := entityType e;
     observations := obs; subdomain := subdomain e |}.

(** The callback of [observations.map] run over the items in order, on the
    entities of the loaded graph: the results and the entities as the pushes
    left them, or the exception of the first item whose entity is missing. *)
Fixpoint add_pass (items : list ObservationInput) (es : list Entity)
  : outcome (list ObservationResult * list Entity) :=
  match items with
  | [] => Returned ([], es)
  | o :: items' =>
      match find_entity es (entityName o) with
      | None => Thrown (EntityNotFound (entityName o))
      | Some entity =>
          let newObservations :=
            filter (fun content =>
                      negb (arr_includes (observations entity) content))
                   (contents o) in
          let es' :=
            update_found (entityName o)
              (fun e => set_observations (observations e ++ newObservations) e)
              es in
          match add_pass items' es' with
          | Returned (results, es'') =>
              Returned ({| res_entityName := entityName o;
                           addedObservations := newObservations |}
                        :: results, es'')
          | Thrown e => Thrown e
          end
      end
  end.

Definition addObservations (items : list ObservationInput)
  : M (list ObservationResult) :=
  graph <- loadGraph ;;
  r <- lift (add_pass items (entities graph)) ;;
  saveGraph {| entities := snd r; relations := relations graph |} ;;;
  ret (fst r).

Definition deleteEntities (entityNames : list jstring) : M unit :=
  graph <- loadGraph ;;
  saveGraph
    {| entities :=
         filter (fun e => negb (arr_includes entityNames (name e)))
                (entities graph);
       relations :=
         filter (fun r => negb (arr_includes entityNames (from r))
                          && negb (arr_includes entityNames (to r)))
                (relations graph) |}.

(** The callback of [deletions.forEach] run over the items in order. *)
Fixpoint delete_pass (deletions : list ObservationDeletion)
  (es : list Entity) : list Entity :=
  match deletions with
  | [] => es
  | d :: deletions' =>
      delete_pass deletions'
        (update_found (del_entityName d)
           (fun e =>
              set_observations
                (filter (fun o => negb (arr_includes (del_observations d) o))
                        (observations e)) e)
           es)
  end.

Definition deleteObservations (deletions : list ObservationDeletion)
  : M unit :=
  graph <- loadGraph ;;
  saveGraph {| entities := delete_pass deletions (entities graph);
               relations := relations graph |}.

Definition deleteRelations (rels : list Relation) : M unit :=
  graph <- loadGraph ;;
  saveGraph
    {| entities := entities graph;
       relations :=
         filter (fun r => negb (existsb (fun delRelation =>
                                           same_relation r delRelation) rels))
                (relations graph) |}.

Definition readGraph : M KnowledgeGraph := loadGraph.

(** The relations of [graph] with both ends among the names of
    [filteredEntities] (the [Set] of [searchNodes] and [openNodes]). *)
Definition induced_relations (filteredEntities : list Entity)
  (graph : KnowledgeGraph) : list Relation :=
  let filteredEntityNames := map name filteredEntities in
  filter (fun r => arr_includes filteredEntityNames (from r)
                   && arr_includes filteredEntityNames (to r))
         (relations graph).

Definition openNodes (names : list jstring) : M KnowledgeGraph :=
  graph <- loadGraph ;;
  let filteredEntities :=
    filter (fun e => arr_includes names (name e)) (entities graph) in
  ret {| entities := filteredEntities;
         relations := induced_relations filteredEntities graph |}.

Section Search.

(** [String.prototype.toLowerCase], a function of the platform. *)
Variable toLowerCase : jstring -> jstring.

(** The class [[\s,&+]] of the regular expression. *)
Definition is_separator (c : N) : bool :=
  is_js_space c || (c =? 44) || (c =? 38) || (c =? 43).

Definition keywords_of (query : jstring) : list jstring :=
  let normalizedQuery := toLowerCase query in
  filter (fun k => (0 <? length k)%nat)
         (split_runs is_separator normalizedQuery).

(** [a || ''] for a string or [undefined]. *)
Definition or_empty (a : option jstring) : jstring :=
  match a with
  | Some (c :: s) => c :: s
  | Some [] => []
  | None => []
  end.

(** [anyMatch] for one keyword. *)
Definition keyword_matches (e : Entity) (keyword : jstring) : bool :=
  let s_name := toLowerCase (name e) in
  let s_type := toLowerCase (entityType e) in
  let s_subdomain := or_empty (option_map toLowerCase (subdomain e)) in
  let s_observations := map toLowerCase (observations e) in
  let nameMatch := includes s_name keyword in
  let typeMatch := includes s_type keyword in
  let subdomainMatch := includes s_subdomain keyword in
  let observationMatch :=
    existsb (fun o => includes o keyword) s_observations in
  nameMatch || typeMatch || subdomainMatch || observationMatch.

(** [hasMatch]. *)
Definition entity_matches (keywords : list jstring) (e : Entity) : bool :=
  let keywordMatches := map (keyword_matches e) keywords in
  existsb (fun matched => matched) keywordMatches.

Definition searchNodes (query : jstring) : M KnowledgeGraph :=
  graph <- loadGraph ;;
  let keywords := keywords_of query in
  if (length keywords =? 0)%nat then
    ret {| entities := []; relations := [] |}
  else
    let filteredEntities :=
      filter (entity_matches keywords) (entities graph) in
    ret {| entities := filteredEntities;
           relations := induced_relations filteredEntities graph |}.

End Search.

(** ** Sequences of calls *)

Inductive call : Type :=
| CreateEntities (ents : list Entity)
| CreateRelations (rels : list Relation)
| AddObservations (items : list ObservationInput)
| DeleteEntities (entityNames : list jstring)
| DeleteObservations (deletions : list ObservationDeletion)
| DeleteRelations (rels : list Relation)
| ReadGraph
| SearchNodes (query : jstring)
| OpenNodes (names : list jstring).

(** The world after a call, whatever it returned or threw. *)
Definition world_after (toLowerCase : jstring -> jstring) (c : call)
  (w : world) : world :=
  match c with
  | CreateEntities ents => snd (createEntities ents w)
  | CreateRelations rels => snd (createRelations rels w)
  | AddObservations items => snd (addObservations items w)
  | DeleteEntities entityNames => snd (deleteEntities entityNames w)
  | DeleteObservations deletions => snd (deleteObservations deletions w)
  | DeleteRelations rels => snd (deleteRelations rels w)
  | ReadGraph => snd (readGraph w)
  | SearchNodes query => snd (searchNodes toLowerCase query w)
  | OpenNodes names => snd (openNodes names w)
  end.

(** The store before the first call: no file, nothing written. *)
Definition initial_world : world := {| file := None; log := [] |}.

Definition run_calls (toLowerCase : jstring -> jstring) (calls : list call)
  (w : world) : world :=
  fold_left (fun w c => world_after toLowerCase c w) calls w.

(** The graph that a later call would load. *)
Definition stored_graph (w : world) : outcome KnowledgeGraph :=
  fst (loadGraph w).

End Manager.
Export Manager.

(* ================================================================== *)
(** * Vocabulary of the statements *)
(* ================================================================== *)

Module Records.

(** The values of the members of a stored record: a string, or an array of
    strings. *)
Inductive flat : jsval -> Prop :=
| flat_str (s : jstring) : flat (VStr s)
| flat_arr (l : list jstring) : flat (VArr (map VStr l)).

(** The text of such a value. *)
Definition flat_text (v : jsval) : jstring :=
  match v with
  | VArr elems =>
      91 :: commas (map (fun e => match e with
                                  | VStr s => quote s
                                  | _ => []
                                  end) elems) ++ [93]
  | VStr s => quote s
  | _ => []
  end.

(** The text of a member: its quoted name, a colon and its value. *)
Definition member_text (m : jstring * jsval) : jstring :=
  quote (fst m) ++ 58 :: flat_text (snd m).

(** The text of an object with these members. *)
Definition object_text (ms : list (jstring * jsval)) : jstring :=
  123 :: commas (map member_text ms) ++ [125].

(** The members that have a value. *)
Definition defined (m : jstring * jsval) : bool :=
  match snd m with
  | VUndefined => false
  | _ => true
  end.

(** The members of the stored record of an entity, as they are written:
    [subdomain] only when the entity has one. *)
Definition entity_members (e : Entity) : list (jstring * jsval) :=
  [(lit "type", VStr (lit "entity"));
   (lit "name", VStr (name e));
   (lit "entityType", VStr (entityType e));
   (lit "observations", VArr (map VStr (observations e)))]
  ++ match subdomain e with
     | Some sd => [(lit "subdomain", VStr sd)]
     | None => []
     end.

(** The members of the stored record of a relation. *)
Definition relation_members (r : Relation) : list (jstring * jsval) :=
  (lit "type", VStr (lit "relation")) :: own_members r.

(** No control character (in particular no line feed) is written. *)
Definition visible (t : jstring) : Prop := Forall (fun c => 32 <= c) t.

(** Texts that UTF-8 carries unchanged, whatever follows them. *)
Definition utf8_stable (a : jstring) : Prop :=
  forall t, utf8_text (a ++ t) = a ++ utf8_text t.

(** The members of the record that a line of the file holds. *)
Definition written_members (line : jstring) : list (jstring * jsval) :=
  match JSON_parse line with
  | Some (VObj members) => members
  | _ => []
  end.

(** The line that [saveGraph] writes for an entity. *)
Definition entity_line (e : Entity) : jstring :=
  JSON_stringify (entityWithType e).

End Records.
Export Records.

Module Stored.

(** The world once [loadGraph] has run: the same, or with the missing file
    created empty. *)
Definition loaded (w : world) : world := snd (loadGraph w).

(** [newEntities] of [createEntities]. *)
Definition new_entities (graph : KnowledgeGraph) (ents : list Entity)
  : list Entity :=
  filter (fun e => negb (has_name (entities graph) (name e))) ents.

(** [newRelations] of [createRelations]. *)
Definition new_relations (graph : KnowledgeGraph) (rels : list Relation)
  : list Relation :=
  filter (fun r => negb (existsb (fun existingRelation =>
                                    same_relation existingRelation r)
                                 (relations graph))) rels.

(** The graph that [deleteEntities] saves. *)
Definition without_entities (entityNames : list jstring)
  (graph : KnowledgeGraph) : KnowledgeGraph :=
  {| entities :=
       filter (fun e => negb (arr_includes entityNames (name e)))
              (entities graph);
     relations :=
       filter (fun r => negb (arr_includes entityNames (from r))
                        && negb (arr_includes entityNames (to r)))
              (relations graph) |}.

(** [n] is the name of one of the entities. *)
Definition names_entity (es : list Entity) (n : jstring) : Prop :=
  exists e, In e es /\ name e = n.

(** No entity holds an observation twice. *)
Definition observations_distinct (es : list Entity) : Prop :=
  Forall (fun e => NoDup (observations e)) es.

(** The calls whose arguments repeat no string within one list of
    observations. *)
Definition distinct_inputs (c : call) : Prop :=
  match c with
  | CreateEntities ents => observations_distinct ents
  | AddObservations items => Forall (fun o => NoDup (contents o)) items
  | _ => True
  end.

End Stored.
Export Stored.

Module SearchWords.

(** [k] is a substring of [s]. *)
Definition substring (k s : jstring) : Prop :=
  exists pre post, s = pre ++ k ++ post.

(** The tokens as the specification words them: the text is cut at every
    separator character, and the empty pieces are dropped. *)
Fixpoint cut_at_each (p : N -> bool) (cur s : jstring) : list jstring :=
  match s with
  | [] => [rev cur]
  | c :: s' =>
      if p c then rev cur :: cut_at_each p [] s'
      else cut_at_each p (c :: cur) s'
  end.

Definition spec_tokens (s : jstring) : list jstring :=
  filter (fun k => negb (str_eqb k [])) (cut_at_each is_separator [] s).

Section Surfaces.

Variable toLowerCase : jstring -> jstring.

(** The four searchable surfaces of the specification: [keyword] occurs in
    the lower-cased name, type, subdomain (the empty string when there is
    none) or in some lower-cased observation. *)
Definition surfaces_contain (e : Entity) (keyword : jstring) : Prop :=
  substring keyword (toLowerCase (name e))
  \/ substring keyword (toLowerCase (entityType e))
  \/ substring keyword (match subdomain e with
                        | Some sd => toLowerCase sd
                        | None => []
                        end)
  \/ exists o, In o (observations e) /\ substring keyword (toLowerCase o).

End Surfaces.

End SearchWords.
Export SearchWords.

(* ================================================================== *)
(** * Concrete stores (the entities of the test suite) *)
(* ================================================================== *)

Module Examples.

Definition comparison : Entity :=
  {| name := lit "ComparisonV3Coordinator";
     entityType := lit "CODE_COMPONENT";
     observations := [lit "Core comparison component"];
     subdomain := None |}.

Definition budget : Entity :=
  {| name := lit "BudgetCalculator";
     entityType := lit "CODE_COMPONENT";
     observations := [lit "Budget calculation component"];
     subdomain := Some (lit "budget_management") |}.

Definition uses : Relation :=
  {| from := lit "ComparisonV3Coordinator";
     to := lit "BudgetCalculator";
     relationType := lit "uses";
     order := from_to_relationType |}.

(** The same relation, given as [{ to: ..., from: ..., relationType: ... }]. *)
Definition uses_to_first : Relation :=
  {| from := lit "ComparisonV3Coordinator";
     to := lit "BudgetCalculator";
     relationType := lit "uses";
     order := to_from_relationType |}.

Definition small_graph : KnowledgeGraph :=
  {| entities := [comparison; budget]; relations := [uses] |}.

(** The world after the two entities and the relation were created. *)
Definition small_world : world :=
  run_calls ascii_toLowerCase
    [CreateEntities [comparison; budget]; CreateRelations [uses]]
    initial_world.

(** An entity named with a capital letter, and a relation to itself. *)
Definition upper : Entity :=
  {| name := lit "A"; entityType := lit "T"; observations := [];
     subdomain := None |}.

Definition upper_loop : Relation :=
  {| from := lit "A"; to := lit "A"; relationType := lit "is";
     order := from_to_relationType |}.

Definition upper_graph : KnowledgeGraph :=
  {| entities := [upper]; relations := [upper_loop] |}.

Definition upper_world : world :=
  run_calls ascii_toLowerCase
    [CreateEntities [upper]; CreateRelations [upper_loop]] initial_world.

End Examples.

Module Repeats.

(** An entity created with the same observation twice. *)
Definition twice : Entity :=
  {| name := lit "B"; entityType := lit "T";
     observations := [lit "x"; lit "x"]; subdomain := None |}.

End Repeats.

(* ================================================================== *)
(** * The calls as transformations of the graph *)
(* ================================================================== *)

Module Transitions.

(** The graph that a call leaves in the store, given the graph that it
    loaded: what each method passes to [saveGraph], and the loaded graph
    itself where the method saves nothing. *)
Definition graph_after (c : call) (graph : KnowledgeGraph) : KnowledgeGraph :=
  match c with
  | CreateEntities ents =>
      {| entities := entities graph ++ new_entities graph ents;
         relations := relations graph |}
  | CreateRelations rels =>
      {| entities := entities graph;
         relations := relations graph ++ new_relations graph rels |}
  | AddObservations items =>
      match add_pass items (entities graph) with
      | Returned (_, es) => {| entities := es; relations := relations graph |}
      | Thrown _ => graph
      end
  | DeleteEntities entityNames => without_entities entityNames graph
  | DeleteObservations deletions =>
      {| entities := delete_pass deletions (entities graph);
         relations := relations graph |}
  | DeleteRelations rels =>
      {| entities := entities graph;
         relations :=
           filter (fun r => negb (existsb (fun delRelation =>
                                             same_relation r delRelation)
                                          rels))
                  (relations graph) |}
  | ReadGraph => graph
  | SearchNodes _ => graph
  | OpenNodes _ => graph
  end.

(** The calls that give [createEntities] no name twice in one list. *)
Definition distinct_names (c : call) : Prop :=
  match c with
  | CreateEntities ents => NoDup (map name ents)
  | _ => True
  end.

(** What [createRelations] and [deleteRelations] compare of a relation:
    its three strings, not the order of its members. *)
Definition triple (r : Relation) : jstring * jstring * jstring :=
  (from r, to r, relationType r).

(** The calls that give [createRelations] no relation twice in one list. *)
Definition distinct_relations (c : call) : Prop :=
  match c with
  | CreateRelations rels => NoDup (map triple rels)
  | _ => True
  end.

(** The calls that only read. *)
Definition reads_only (c : call) : bool :=
  match c with
  | ReadGraph => true
  | SearchNodes _ => true
  | OpenNodes _ => true
  | _ => false
  end.

(** [F] applied to each entity that is the first of its name among the
    entities ([seen]: the names before), the others left as they are: the
    entities that [find] can return. *)
Fixpoint on_firsts (seen : list jstring) (F : Entity -> Entity)
  (es : list Entity) : list Entity :=
  match es with
  | [] => []
  | e :: es' =>
      (if arr_includes seen (name e) then e else F e)
      :: on_firsts (name e :: seen) F es'
  end.

(** Some item of [deletions] for the name [n] lists the observation [o]. *)
Definition listed (deletions : list ObservationDeletion) (n o : jstring)
  : bool :=
  existsb (fun d => str_eqb (del_entityName d) n
                    && arr_includes (del_observations d) o) deletions.

(** An entity without the observations that [deletions] lists for its
    name. *)
Definition strip (deletions : list ObservationDeletion) (e : Entity)
  : Entity :=
  set_observations
    (filter (fun o => negb (listed deletions (name e) o)) (observations e)) e.

(** [e'] is [e] with observations appended. *)
Definition extends (e e' : Entity) : Prop :=
  name e' = name e
  /\ entityType e' = entityType e
  /\ subdomain e' = subdomain e
  /\ exists added, observations e' = observations e ++ added.

(** The calls that call [saveGraph] whatever they find. *)
Definition always_saves (c : call) : bool :=
  match c with
  | CreateRelations _ => true
  | DeleteEntities _ => true
  | DeleteObservations _ => true
  | DeleteRelations _ => true
  | _ => false
  end.

(** The lines that the loop of [loadGraph] passes over: blank ones, the
    ones that [JSON.parse] rejects, and values whose [type] is neither
    ["entity"] nor ["relation"]. *)
Definition skipped (line : jstring) : Prop :=
  str_eqb (trim line) [] = true
  \/ JSON_parse line = None
  \/ exists item,
       JSON_parse line = Some item
       /\ forall ty, prop (lit "type") item = VStr ty ->
                     ty <> lit "entity" /\ ty <> lit "relation".

(** The line that [saveGraph] writes for an entity or a relation. *)
Definition stored_line (record : Entity + Relation) : jstring :=
  match record with
  | inl e => JSON_stringify (entityWithType e)
  | inr r => JSON_stringify (relationWithType r)
  end.

Fixpoint entities_of (records : list (Entity + Relation)) : list Entity :=
  match records with
  | [] => []
  | inl e :: rest => e :: entities_of rest
  | inr _ :: rest => entities_of rest
  end.

Fixpoint relations_of (records : list (Entity + Relation)) : list Relation :=
  match records with
  | [] => []
  | inl _ :: rest => relations_of rest
  | inr r :: rest => r :: relations_of rest
  end.

End Transitions.
Export Transitions.

(* ================================================================== *)
(** * Facts about strings *)
(* ================================================================== *)

Section StringFacts.

Lemma str_eqb_eq (a b : jstring) : str_eqb a b = true <-> a = b.
Proof.
  revert b; induction a as [|x a IH]; intros [|y b]; simpl;
    try (split; [discriminate | discriminate]); try tauto.
  rewrite andb_true_iff, N.eqb_eq, IH.
  split; [intros [-> ->]; reflexivity | intros H; injection H; auto].
Qed.

Lemma str_eqb_refl (a : jstring) : str_eqb a a = true.
Proof. apply str_eqb_eq; reflexivity. Qed.

Lemma str_eqb_neq (a b : jstring) : str_eqb a b = false <-> a <> b.
Proof.
  rewrite <- str_eqb_eq. destruct (str_eqb a b); split; congruence.
Qed.

Lemma str_eqb_sym (a b : jstring) : str_eqb a b = str_eqb b a.
Proof.
  destruct (str_eqb a b) eqn:E.
  - apply str_eqb_eq in E; subst; symmetry; apply str_eqb_refl.
  - symmetry; apply str_eqb_neq; apply str_eqb_neq in E; congruence.
Qed.

Lemma arr_includes_In (arr : list jstring) (s : jstring) :
  arr_includes arr s = true <-> In s arr.
Proof.
  unfold arr_includes; rewrite existsb_exists; split.
  - intros (x & Hx & E); apply str_eqb_eq in E; subst; assumption.
  - intros H; exists s; split; [assumption | apply str_eqb_refl].
Qed.

Lemma arr_includes_not_In (arr : list jstring) (s : jstring) :
  arr_includes arr s = false <-> ~ In s arr.
Proof.
  rewrite <- arr_includes_In; destruct (arr_includes arr s);
    split; congruence.
Qed.

Lemma starts_with_prefix (k s : jstring) :
  starts_with k s = true <-> exists post, s = k ++ post.
Proof.
  revert s; induction k as [|x k IH]; intros s; simpl.
  - split; [intros _; exists s; reflexivity | reflexivity].
  - destruct s as [|y s].
    + split; [discriminate | intros (post & H); discriminate].
    + rewrite andb_true_iff, N.eqb_eq, IH; split.
      * intros (-> & post & ->); exists post; reflexivity.
      * intros (post & H); injection H as -> ->; split; eauto.
Qed.

(** [includes] is the substring relation. *)
Lemma includes_substring (s k : jstring) :
  includes s k = true <-> exists pre post, s = pre ++ k ++ post.
Proof.
  induction s as [|c s IH].
  - simpl; rewrite orb_false_r, starts_with_prefix; split.
    + intros (post & H); exists [], post; assumption.
    + intros (pre & post & H). destruct pre; [exists post; assumption|].
      discriminate.
  - cbn [includes]; rewrite orb_true_iff, starts_with_prefix, IH; split.
    + intros [(post & H) | (pre & post & H)].
      * exists [], post; assumption.
      * exists (c :: pre), post; rewrite H; reflexivity.
    + intros (pre & post & H); destruct pre as [|c' pre].
      * left; exists post; assumption.
      * right; injection H as _ H; eauto.
Qed.

Lemma drop_while_last (p : N -> bool) (l : jstring) (c : N) :
  p c = false -> drop_while p (l ++ [c]) <> [].
Proof.
  intros Hc; induction l as [|x l IH]; simpl.
  - rewrite Hc; discriminate.
  - destruct (p x); [assumption | discriminate].
Qed.

(** A text that starts with a character that is no white space is not
    blank. *)
Lemma trim_not_blank (c : N) (t : jstring) :
  is_js_space c = false -> str_eqb (trim (c :: t)) [] = false.
Proof.
  intros Hc; apply str_eqb_neq; unfold trim; simpl; rewrite Hc.
  intros H; apply (f_equal (@rev N)) in H; rewrite rev_involutive in H.
  simpl in H; revert H; apply drop_while_last; assumption.
Qed.

Lemma split_char_from_piece (sep : N) (l : jstring) :
  ~ In sep l -> forall cur rest,
  split_char_from sep cur (l ++ sep :: rest)
  = (rev cur ++ l) :: split_char_from sep [] rest.
Proof.
  induction l as [|c l IH]; intros Hl cur rest; simpl.
  - rewrite N.eqb_refl, app_nil_r; reflexivity.
  - destruct (N.eqb_spec c sep) as [->|_]; [exfalso; apply Hl; left; auto|].
    rewrite IH by (intros H; apply Hl; right; assumption).
    simpl; rewrite <- app_assoc; reflexivity.
Qed.

(** [saveGraph]'s text split again into lines and the blank ones dropped:
    the lines that were joined, when none holds a line feed and none is
    blank. *)
Lemma lines_of_joined (lines : list jstring) :
  Forall (fun l => ~ In 10 l /\ str_eqb (trim l) [] = false) lines ->
  filter (fun line => negb (str_eqb (trim line) []))
         (split_char 10 (join_char 10 lines ++ [10]))
  = lines.
Proof.
  unfold split_char; induction 1 as [|x l [Hx Hb] Hl IH]; [reflexivity|].
  destruct l as [|y l].
  - cbn [join_char]; rewrite split_char_from_piece by assumption.
    cbn [rev app split_char_from filter]; rewrite Hb; reflexivity.
  - change (join_char 10 (x :: y :: l)) with (x ++ 10 :: join_char 10 (y :: l)).
    rewrite <- app_assoc, <- app_comm_cons.
    rewrite split_char_from_piece by assumption.
    cbn [filter rev app]; rewrite Hb; cbn [negb]; f_equal; exact IH.
Qed.

End StringFacts.

(* ================================================================== *)
(** * [JSON.parse] reads what [JSON.stringify] wrote *)
(* ================================================================== *)

Section JsonFacts.

Lemma hex_value_digit (d : N) : d < 16 -> hex_value (hex_digit d) = Some d.
Proof.
  intros Hd; unfold hex_value, hex_digit, is_digit.
  destruct (N.ltb_spec d 10).
  - replace ((48 <=? 48 + d) && (48 + d <=? 57)) with true
      by (symmetry; apply andb_true_iff; split; apply N.leb_le; lia).
    f_equal; lia.
  - replace ((48 <=? 87 + d) && (87 + d <=? 57)) with false
      by (symmetry; apply andb_false_iff; right; apply N.leb_gt; lia).
    replace ((97 <=? 87 + d) && (87 + d <=? 102)) with true
      by (symmetry; apply andb_true_iff; split; apply N.leb_le; lia).
    f_equal; lia.
Qed.

Lemma hex4_unicode_escape (c : N) :
  c < 65536 ->
  hex4 (hex_digit (c / 4096 mod 16)) (hex_digit (c / 256 mod 16))
       (hex_digit (c / 16 mod 16)) (hex_digit (c mod 16)) = Some c.
Proof.
  intros Hc; unfold hex4.
  rewrite !hex_value_digit by (apply N.mod_lt; discriminate).
  f_equal.
  pose proof (N.div_mod c 16 ltac:(discriminate)) as H0.
  pose proof (N.div_mod (c / 16) 16 ltac:(discriminate)) as H1.
  pose proof (N.div_mod (c / 256) 16 ltac:(discriminate)) as H2.
  rewrite (N.Div0.div_div c 16 16) in H1.
  rewrite (N.Div0.div_div c 256 16) in H2.
  change (16 * 16) with 256 in H1; change (256 * 16) with 4096 in H2.
  assert (c / 4096 < 16) by (apply N.Div0.div_lt_upper_bound; exact Hc).
  rewrite (N.mod_small (c / 4096) 16) by assumption.
  lia.
Qed.

(** What [quote_unit] writes for a code unit is read back as that unit. *)
Lemma parse_quote_unit (c : N) (tail t r : jstring) :
  parse_units tail = Some (t, r) ->
  parse_units (quote_unit c ++ tail) = Some (c :: t, r).
Proof.
  intros Ht; unfold quote_unit.
  repeat match goal with
  | |- context [if ?x =? ?k then _ else _] =>
      destruct (N.eqb_spec x k) as [->|?]; [cbn; rewrite Ht; reflexivity|]
  end.
  destruct ((c <? 32) || is_lead_surrogate c || is_trail_surrogate c) eqn:E.
  - assert (c < 65536) as Hc.
    { unfold is_lead_surrogate, is_trail_surrogate in E.
      rewrite !orb_true_iff, !andb_true_iff, N.ltb_lt, !N.leb_le in E; lia. }
    unfold unicode_escape; cbn [app parse_units].
    change (92 =? 34) with false; change (92 =? 92) with true.
    change (117 =? 117) with true; cbv iota.
    rewrite hex4_unicode_escape by assumption; rewrite Ht; reflexivity.
  - rewrite !orb_false_iff in E; destruct E as [[E _] _].
    cbn [app parse_units].
    destruct (N.eqb_spec c 34); [contradiction|].
    destruct (N.eqb_spec c 92); [contradiction|].
    rewrite E, Ht; reflexivity.
Qed.

Lemma parse_surrogate_unit (c : N) (tail t r : jstring) :
  55296 <= c ->
  parse_units tail = Some (t, r) ->
  parse_units (c :: tail) = Some (c :: t, r).
Proof.
  intros Hc Ht; cbn [parse_units].
  destruct (N.eqb_spec c 34); [lia|].
  destruct (N.eqb_spec c 92); [lia|].
  destruct (N.ltb_spec c 32); [lia|].
  rewrite Ht; reflexivity.
Qed.

Lemma parse_quote_units_bounded (n : nat) :
  forall s rest, (length s <= n)%nat ->
  parse_units (quote_units s ++ 34 :: rest) = Some (s, rest).
Proof.
  induction n as [|n IH]; intros s rest Hn.
  - destruct s; [reflexivity | simpl in Hn; lia].
  - destruct s as [|c s]; [reflexivity|]. simpl in Hn.
    cbn [quote_units].
    destruct (is_lead_surrogate c) eqn:Hl.
    + destruct s as [|d s].
      * rewrite <- (app_nil_r (quote_unit c)), <- app_assoc.
        apply parse_quote_unit; reflexivity.
      * destruct (is_trail_surrogate d) eqn:Hd.
        -- unfold is_lead_surrogate, is_trail_surrogate in Hl, Hd.
           rewrite andb_true_iff, !N.leb_le in Hl, Hd.
           cbn [app]; apply parse_surrogate_unit; [lia|].
           apply parse_surrogate_unit; [lia|].
           apply IH; simpl in Hn; lia.
        -- rewrite <- app_assoc; apply parse_quote_unit, IH; lia.
    + rewrite <- app_assoc; apply parse_quote_unit, IH; lia.
Qed.

(** The characters of a quoted string are read back as the string. *)
Lemma parse_quote_units (s rest : jstring) :
  parse_units (quote_units s ++ 34 :: rest) = Some (s, rest).
Proof. apply (parse_quote_units_bounded (length s)); lia. Qed.

Lemma visible_app (a b : jstring) : visible a -> visible b -> visible (a ++ b).
Proof. intros; apply Forall_app; split; assumption. Qed.

Lemma hex_digit_visible (d : N) : 32 <= hex_digit d.
Proof. unfold hex_digit; destruct (d <? 10); lia. Qed.

Lemma quote_unit_visible (c : N) : visible (quote_unit c).
Proof.
  unfold quote_unit, visible.
  repeat match goal with
  | |- context [if ?x =? ?k then _ else _] =>
      destruct (N.eqb_spec x k) as [->|?];
      [repeat constructor; discriminate|]
  end.
  destruct ((c <? 32) || is_lead_surrogate c || is_trail_surrogate c) eqn:E.
  - unfold unicode_escape;
      repeat constructor; try discriminate; apply hex_digit_visible.
  - rewrite !orb_false_iff, N.ltb_ge in E; repeat constructor; tauto.
Qed.

Lemma quote_units_visible_bounded (n : nat) :
  forall s, (length s <= n)%nat -> visible (quote_units s).
Proof.
  induction n as [|n IH]; intros s Hn.
  - destruct s; [constructor | simpl in Hn; lia].
  - destruct s as [|c s]; [constructor|]. simpl in Hn.
    cbn [quote_units].
    destruct (is_lead_surrogate c) eqn:Hl;
      [destruct s as [|d s];
       [apply quote_unit_visible | destruct (is_trail_surrogate d) eqn:Hd]|].
    + unfold is_lead_surrogate, is_trail_surrogate in Hl, Hd.
      rewrite andb_true_iff, !N.leb_le in Hl, Hd.
      constructor; [lia|]; constructor; [lia|].
      apply IH; simpl in Hn; lia.
    + apply visible_app; [apply quote_unit_visible | apply IH; lia].
    + apply visible_app; [apply quote_unit_visible | apply IH; lia].
Qed.

Lemma quote_visible (s : jstring) : visible (quote s).
Proof.
  unfold quote; constructor; [discriminate|].
  apply visible_app;
    [apply (quote_units_visible_bounded (length s)); lia
    | repeat constructor; discriminate].
Qed.

Lemma visible_no_line_feed (t : jstring) : visible t -> ~ In 10 t.
Proof.
  intros H Hin; unfold visible in H; rewrite Forall_forall in H.
  specialize (H _ Hin); lia.
Qed.

End JsonFacts.

Section JsonRecords.

Lemma stringify_flat (v : jsval) : flat v -> stringify v = Some (flat_text v).
Proof.
  intros [s|l]; [reflexivity|].
  cbn [stringify flat_text]; rewrite !map_map; reflexivity.
Qed.

Lemma stringify_flat_members (ms : list (jstring * jsval)) :
  Forall (fun m => flat (snd m)) ms ->
  flat_map (fun m => match stringify (snd m) with
                     | Some t => [quote (fst m) ++ 58 :: t]
                     | None => []
                     end) ms
  = map member_text ms.
Proof.
  induction 1 as [|m ms Hm _ IH]; [reflexivity|].
  cbn [flat_map map]; rewrite (stringify_flat _ Hm), IH; reflexivity.
Qed.

(** The text of an object whose members are all strings or arrays of
    strings. *)
Lemma stringify_flat_object (ms : list (jstring * jsval)) :
  Forall (fun m => flat (snd m)) ms ->
  JSON_stringify (VObj ms) = object_text ms.
Proof.
  intros H; unfold JSON_stringify; cbn [stringify].
  rewrite (stringify_flat_members _ H); reflexivity.
Qed.

(** The equations of the parser at the characters that open the values of
    a stored record. *)
Lemma parse_value_at_quote (fuel : nat) (t : jstring) :
  parse_value (S fuel) (34 :: t)
  = match parse_units t with
    | Some (s, r) => Some (VStr s, r)
    | None => None
    end.
Proof. reflexivity. Qed.

Lemma parse_value_at_empty_array (fuel : nat) (r : jstring) :
  parse_value (S fuel) (91 :: 93 :: r) = Some (VArr [], r).
Proof. reflexivity. Qed.

Lemma parse_value_at_array (fuel : nat) (t : jstring) :
  parse_value (S fuel) (91 :: 34 :: t)
  = match parse_elems fuel (34 :: t) with
    | Some (l, r) => Some (VArr l, r)
    | None => None
    end.
Proof. reflexivity. Qed.

Lemma parse_value_at_object (fuel : nat) (t : jstring) :
  parse_value (S fuel) (123 :: 34 :: t)
  = match parse_members fuel (34 :: t) with
    | Some (l, r) => Some (VObj l, r)
    | None => None
    end.
Proof. reflexivity. Qed.

Lemma parse_elems_step (fuel : nat) (s : jstring) :
  parse_elems (S fuel) s
  = match parse_value fuel s with
    | None => None
    | Some (v, r) =>
        if next_is 44 r then
          match parse_elems fuel (after_next r) with
          | Some (l, r') => Some (v :: l, r')
          | None => None
          end
        else if next_is 93 r then Some ([v], after_next r)
        else None
    end.
Proof. reflexivity. Qed.

Lemma parse_members_at_quote (fuel : nat) (t : jstring) :
  parse_members (S fuel) (34 :: t)
  = match parse_units t with
    | None => None
    | Some (k, r) =>
        if next_is 58 r then
          match parse_value fuel (after_next r) with
          | None => None
          | Some (v, r2) =>
              if next_is 44 r2 then
                match parse_members fuel (after_next r2) with
                | Some (l, r3) => Some ((k, v) :: l, r3)
                | None => None
                end
              else if next_is 125 r2 then Some ([(k, v)], after_next r2)
              else None
          end
        else None
    end.
Proof. reflexivity. Qed.

Lemma quote_cons (s rest : jstring) :
  quote s ++ rest = 34 :: quote_units s ++ 34 :: rest.
Proof. unfold quote; cbn [app]; rewrite <- app_assoc; reflexivity. Qed.

Lemma parse_value_string (fuel : nat) (s rest : jstring) :
  (0 < fuel)%nat ->
  parse_value fuel (quote s ++ rest) = Some (VStr s, rest).
Proof.
  intros Hf; destruct fuel as [|fuel]; [lia|].
  rewrite quote_cons, parse_value_at_quote, parse_quote_units; reflexivity.
Qed.

Lemma commas_cons (x y : jstring) (l : list jstring) :
  commas (x :: y :: l) = x ++ 44 :: commas (y :: l).
Proof. reflexivity. Qed.

Lemma parse_elems_strings (l : list jstring) :
  forall (x : jstring) (fuel : nat) (rest : jstring),
  (length (x :: l) < fuel)%nat ->
  parse_elems fuel (commas (map quote (x :: l)) ++ 93 :: rest)
  = Some (map VStr (x :: l), rest).
Proof.
  induction l as [|y l IH]; intros x fuel rest Hf;
    (destruct fuel as [|fuel]; [simpl in Hf; lia|]);
    rewrite parse_elems_step.
  - cbn [map commas].
    rewrite parse_value_string by (simpl in Hf; lia). reflexivity.
  - change (map quote (x :: y :: l)) with (quote x :: quote y :: map quote l).
    rewrite commas_cons, <- app_assoc, <- app_comm_cons.
    rewrite parse_value_string by (simpl in Hf; lia).
    change (next_is 44 (44 :: ?r)) with true;
      change (after_next (44 :: ?r)) with r; cbv iota.
    change (quote y :: map quote l) with (map quote (y :: l)).
    rewrite IH by (simpl in Hf |- *; lia). reflexivity.
Qed.

Lemma commas_quote_length (k : list jstring) :
  (length k <= length (commas (map quote k)) + 1)%nat.
Proof.
  induction k as [|a [|b k] IHk]; cbn [map commas length] in *; try lia.
  rewrite length_app; cbn [length]; lia.
Qed.

Lemma commas_quote_cons (x : jstring) (l : list jstring) (rest : jstring) :
  exists t, commas (map quote (x :: l)) ++ rest = 34 :: t.
Proof.
  cbn [map commas]; destruct (map quote l); unfold quote;
    eexists; cbn [app]; reflexivity.
Qed.

Lemma parse_value_flat (v : jsval) (fuel : nat) (rest : jstring) :
  flat v ->
  (length (flat_text v) < fuel)%nat ->
  parse_value fuel (flat_text v ++ rest) = Some (v, rest).
Proof.
  intros [s|l] Hf; cbn [flat_text] in *.
  - apply parse_value_string; lia.
  - rewrite map_map in *.
    change (map (fun x : jstring => quote x) l) with (map quote l) in *.
    destruct fuel as [|fuel]; [lia|].
    rewrite <- app_comm_cons, <- app_assoc.
    destruct l as [|x l]; [reflexivity|].
    assert (length (x :: l) < fuel)%nat as Hl.
    { pose proof (commas_quote_length (x :: l)) as Hk.
      cbn [length] in Hf; rewrite length_app in Hf; cbn [length] in *; lia. }
    change ([93] ++ rest) with (93 :: rest).
    destruct (commas_quote_cons x l (93 :: rest)) as [t Ht].
    rewrite Ht, parse_value_at_array, <- Ht.
    rewrite (parse_elems_strings l x fuel rest Hl); reflexivity.
Qed.

Lemma member_text_cons (m : jstring * jsval) (rest : jstring) :
  member_text m ++ rest
  = 34 :: quote_units (fst m) ++ 34 :: 58 :: flat_text (snd m) ++ rest.
Proof.
  unfold member_text; rewrite <- app_assoc, quote_cons; reflexivity.
Qed.

Lemma parse_members_flat (ms : list (jstring * jsval)) :
  forall (m : jstring * jsval) (fuel : nat) (rest : jstring),
  Forall (fun m => flat (snd m)) (m :: ms) ->
  (length (commas (map member_text (m :: ms))) < fuel)%nat ->
  parse_members fuel (commas (map member_text (m :: ms)) ++ 125 :: rest)
  = Some (m :: ms, rest).
Proof.
  induction ms as [|m' ms IH]; intros m fuel rest Hflat Hf;
    (destruct fuel as [|fuel]; [lia|]);
    inversion Hflat as [|? ? Hm Hms]; subst.
  - cbn [map commas] in *.
    rewrite member_text_cons, parse_members_at_quote, parse_quote_units.
    change (next_is 58 (58 :: ?r)) with true;
      change (after_next (58 :: ?r)) with r; cbv iota.
    rewrite parse_value_flat;
      [| assumption
       | unfold member_text in Hf; rewrite length_app in Hf;
         cbn [length] in Hf; lia].
    destruct m; reflexivity.
  - change (map member_text (m :: m' :: ms))
      with (member_text m :: member_text m' :: map member_text ms) in *.
    rewrite commas_cons in *.
    change (member_text m' :: map member_text ms)
      with (map member_text (m' :: ms)) in *.
    rewrite length_app in Hf; cbn [length] in Hf.
    rewrite <- app_assoc, <- app_comm_cons.
    rewrite member_text_cons, parse_members_at_quote, parse_quote_units.
    change (next_is 58 (58 :: ?r)) with true;
      change (after_next (58 :: ?r)) with r; cbv iota.
    rewrite parse_value_flat;
      [| assumption
       | unfold member_text in Hf; rewrite length_app in Hf;
         cbn [length] in Hf; lia].
    change (next_is 44 (44 :: ?r)) with true;
      change (after_next (44 :: ?r)) with r; cbv iota.
    rewrite IH by (assumption || lia).
    destruct m; reflexivity.
Qed.

(** [JSON.parse] of the text of a record gives its members back. *)
Lemma JSON_parse_object (m : jstring * jsval) (ms : list (jstring * jsval)) :
  Forall (fun m => flat (snd m)) (m :: ms) ->
  JSON_parse (object_text (m :: ms)) = Some (VObj (m :: ms)).
Proof.
  intros Hflat; unfold JSON_parse.
  set (fuel := (2 * length (object_text (m :: ms)) + 2)%nat).
  assert (length (object_text (m :: ms)) < fuel)%nat as Hf
    by (unfold fuel; lia).
  clearbody fuel; unfold object_text in *.
  destruct fuel as [|fuel]; [lia|].
  cbn [length] in Hf; rewrite length_app in Hf; cbn [length] in Hf.
  assert (exists t, commas (map member_text (m :: ms)) ++ [125] = 34 :: t)
    as [t Ht].
  { cbn [map commas]; destruct (map member_text ms); unfold member_text, quote;
      eexists; cbn [app]; reflexivity. }
  rewrite Ht, parse_value_at_object, <- Ht.
  rewrite (parse_members_flat ms m fuel []) by (assumption || lia).
  reflexivity.
Qed.

End JsonRecords.

(* ================================================================== *)
(** * The fuel of [JSON_parse] is enough *)
(* ================================================================== *)

Section Fuel.

Lemma drop_while_length (p : N -> bool) (s : jstring) :
  (length (drop_while p s) <= length s)%nat.
Proof.
  induction s as [|c s IH]; cbn [drop_while length]; [lia|].
  destruct (p c); cbn [length]; lia.
Qed.

Lemma after_next_length (c : N) (s : jstring) :
  next_is c s = true -> (length (after_next s) < length s)%nat.
Proof.
  unfold next_is, after_next, skip_ws.
  pose proof (drop_while_length is_json_ws s) as H.
  destruct (drop_while is_json_ws s); [discriminate|].
  cbn [tl length] in *; lia.
Qed.

Lemma skip_ws_cons_length (s : jstring) (c : N) (s' : jstring) :
  skip_ws s = c :: s' -> (length s' < length s)%nat.
Proof.
  intros H; pose proof (drop_while_length is_json_ws s) as Hl.
  unfold skip_ws in H; rewrite H in Hl; cbn [length] in Hl; lia.
Qed.

Lemma parse_units_length (n : nat) :
  forall s t r, (length s <= n)%nat ->
  parse_units s = Some (t, r) -> (length r < length s)%nat.
Proof.
  induction n as [|n IH]; intros s t r Hn H;
    (destruct s as [|c s']; [discriminate|]);
    cbn [length] in Hn; [lia|]; cbn [parse_units] in H.
  destruct (c =? 34); [injection H as _ <-; cbn [length]; lia|].
  destruct (c =? 92).
  - destruct s' as [|e s'']; [discriminate|].
    destruct (e =? 117).
    + destruct s'' as [|h1 [|h2 [|h3 [|h4 s3]]]]; try discriminate.
      destruct (hex4 h1 h2 h3 h4); [|discriminate].
      destruct (parse_units s3) as [[t' r']|] eqn:E; [|discriminate].
      injection H as _ <-; apply IH in E; cbn [length] in *; lia.
    + destruct (unescape e); [|discriminate].
      destruct (parse_units s'') as [[t' r']|] eqn:E; [|discriminate].
      injection H as _ <-; apply IH in E; cbn [length] in *; lia.
  - destruct (c <? 32); [discriminate|].
    destruct (parse_units s') as [[t' r']|] eqn:E; [|discriminate].
    injection H as _ <-; apply IH in E; cbn [length] in *; lia.
Qed.

Lemma span_digits_length (s : jstring) :
  (length (snd (span_digits s)) <= length s)%nat.
Proof.
  induction s as [|c s IH]; cbn [span_digits]; [cbn; lia|].
  destruct (is_digit c); [|cbn [snd length]; lia].
  destruct (span_digits s); cbn [snd length] in *; lia.
Qed.

Lemma parse_number_length (s l r : jstring) :
  parse_number s = Some (l, r) -> (length r < length s)%nat.
Proof.
  unfold parse_number; intros H.
  assert (forall s1 i s2, parse_int s1 = Some (i, s2) ->
            (length s2 < length s1)%nat) as Hint.
  { intros [|c s1] i s2 Hi; [discriminate|]; cbn [parse_int] in Hi.
    destruct (c =? 48); [injection Hi as _ <-; cbn [length]; lia|].
    destruct (is_digit c); [|discriminate].
    pose proof (span_digits_length s1) as Hs.
    destruct (span_digits s1); injection Hi as _ <-; cbn [snd length] in *.
    lia. }
  assert (forall s2 f s3, parse_frac s2 = Some (f, s3) ->
            (length s3 <= length s2)%nat) as Hfrac.
  { intros [|c s2] f s3 Hf; cbn [parse_frac] in Hf;
      [injection Hf as _ <-; lia|].
    destruct (c =? 46); [|injection Hf as _ <-; lia].
    pose proof (span_digits_length s2) as Hs.
    destruct (span_digits s2) as [[|d ds] rest]; [discriminate|].
    injection Hf as _ <-; cbn [snd length] in *; lia. }
  assert (forall s3 e s4, parse_exp s3 = Some (e, s4) ->
            (length s4 <= length s3)%nat) as Hexp.
  { intros [|c s3] e s4 He; cbn [parse_exp] in He;
      [injection He as _ <-; lia|].
    destruct ((c =? 101) || (c =? 69)); [|injection He as _ <-; lia].
    destruct s3 as [|sg s3]; [discriminate|].
    destruct ((sg =? 43) || (sg =? 45)).
    - pose proof (span_digits_length s3) as Hs.
      destruct (span_digits s3) as [[|d ds] rest]; [discriminate|].
      injection He as _ <-; cbn [snd length] in *; lia.
    - pose proof (span_digits_length (sg :: s3)) as Hs.
      destruct (span_digits (sg :: s3)) as [[|d ds] rest]; [discriminate|].
      injection He as _ <-; cbn [snd length] in *; lia. }
  destruct (match s with
            | [] => ([], s)
            | c :: s' => if c =? 45 then ([45], s') else ([], s)
            end) as [sign s1] eqn:Es.
  assert (length s1 <= length s)%nat as Hs1.
  { destruct s as [|c s']; [injection Es as _ <-; lia|].
    destruct (c =? 45); injection Es as _ <-; cbn [length]; lia. }
  destruct (parse_int s1) as [[i s2]|] eqn:Ei; [|discriminate].
  destruct (parse_frac s2) as [[f s3]|] eqn:Ef; [|discriminate].
  destruct (parse_exp s3) as [[e s4]|] eqn:Ee; [|discriminate].
  injection H as _ <-.
  apply Hint in Ei; apply Hfrac in Ef; apply Hexp in Ee; lia.
Qed.

Lemma strip_prefix_length (word : jstring) :
  forall s r, strip_prefix word s = Some r -> (length r <= length s)%nat.
Proof.
  induction word as [|x word IH]; intros s r H; cbn [strip_prefix] in H.
  - injection H as <-; lia.
  - destruct s as [|y s]; [discriminate|].
    destruct (x =? y); [|discriminate].
    apply IH in H; cbn [length]; lia.
Qed.

Lemma parse_value_step (fuel : nat) (s : jstring) :
  parse_value (S fuel) s
  = match skip_ws s with
    | [] => None
    | c :: s' =>
        if c =? 34 then
          match parse_units s' with
          | Some (t, r) => Some (VStr t, r)
          | None => None
          end
        else if c =? 91 then
          if next_is 93 s' then Some (VArr [], after_next s')
          else
            match parse_elems fuel s' with
            | Some (l, r) => Some (VArr l, r)
            | None => None
            end
        else if c =? 123 then
          if next_is 125 s' then Some (VObj [], after_next s')
          else
            match parse_members fuel s' with
            | Some (l, r) => Some (VObj l, r)
            | None => None
            end
        else if c =? 116 then
          match strip_prefix (lit "rue") s' with
          | Some r => Some (VBool true, r)
          | None => None
          end
        else if c =? 102 then
          match strip_prefix (lit "alse") s' with
          | Some r => Some (VBool false, r)
          | None => None
          end
        else if c =? 110 then
          match strip_prefix (lit "ull") s' with
          | Some r => Some (VNull, r)
          | None => None
          end
        else
          match parse_number (c :: s') with
          | Some (l, r) => Some (VNum l, r)
          | None => None
          end
    end.
Proof. reflexivity. Qed.

Lemma parse_members_step (fuel : nat) (s : jstring) :
  parse_members (S fuel) s
  = if next_is 34 s then
      match parse_units (after_next s) with
      | None => None
      | Some (k, r) =>
          if next_is 58 r then
            match parse_value fuel (after_next r) with
            | None => None
            | Some (v, r2) =>
                if next_is 44 r2 then
                  match parse_members fuel (after_next r2) with
                  | Some (l, r3) => Some ((k, v) :: l, r3)
                  | None => None
                  end
                else if next_is 125 r2 then Some ([(k, v)], after_next r2)
                else None
            end
          else None
      end
    else None.
Proof. reflexivity. Qed.

(** Every parser consumes at least one character. *)
Lemma parse_consumes (fuel : nat) :
  (forall s v r, parse_value fuel s = Some (v, r) ->
                 (length r < length s)%nat)
  /\ (forall s l r, parse_elems fuel s = Some (l, r) ->
                    (length r < length s)%nat)
  /\ (forall s l r, parse_members fuel s = Some (l, r) ->
                    (length r < length s)%nat).
Proof.
  induction fuel as [|fuel (IHv & IHe & IHm)];
    [repeat split; intros; discriminate|].
  repeat split.
  - intros s v r H; rewrite parse_value_step in H.
    destruct (skip_ws s) as [|c s'] eqn:Es; [discriminate|].
    apply skip_ws_cons_length in Es.
    destruct (c =? 34).
    { destruct (parse_units s') as [[t r']|] eqn:E; [|discriminate].
      injection H as _ <-.
      apply (parse_units_length (length s')) in E; lia. }
    destruct (c =? 91).
    { destruct (next_is 93 s') eqn:En.
      - injection H as _ <-; apply after_next_length in En; lia.
      - destruct (parse_elems fuel s') as [[l r']|] eqn:E; [|discriminate].
        injection H as _ <-; apply IHe in E; lia. }
    destruct (c =? 123).
    { destruct (next_is 125 s') eqn:En.
      - injection H as _ <-; apply after_next_length in En; lia.
      - destruct (parse_members fuel s') as [[l r']|] eqn:E; [|discriminate].
        injection H as _ <-; apply IHm in E; lia. }
    destruct (c =? 116).
    { destruct (strip_prefix (lit "rue") s') as [r'|] eqn:E; [|discriminate].
      injection H as _ <-; apply strip_prefix_length in E; lia. }
    destruct (c =? 102).
    { destruct (strip_prefix (lit "alse") s') as [r'|] eqn:E; [|discriminate].
      injection H as _ <-; apply strip_prefix_length in E; lia. }
    destruct (c =? 110).
    { destruct (strip_prefix (lit "ull") s') as [r'|] eqn:E; [|discriminate].
      injection H as _ <-; apply strip_prefix_length in E; lia. }
    destruct (parse_number (c :: s')) as [[l r']|] eqn:E; [|discriminate].
    injection H as _ <-; apply parse_number_length in E.
    cbn [length] in E; lia.
  - intros s l r H; rewrite parse_elems_step in H.
    destruct (parse_value fuel s) as [[v r1]|] eqn:Ev; [|discriminate].
    apply IHv in Ev.
    destruct (next_is 44 r1) eqn:E1.
    + apply after_next_length in E1.
      destruct (parse_elems fuel (after_next r1)) as [[l' r']|] eqn:E;
        [|discriminate].
      injection H as _ <-; apply IHe in E; lia.
    + destruct (next_is 93 r1) eqn:E2; [|discriminate].
      injection H as _ <-; apply after_next_length in E2; lia.
  - intros s l r H; rewrite parse_members_step in H.
    destruct (next_is 34 s) eqn:E0; [|discriminate].
    apply after_next_length in E0.
    destruct (parse_units (after_next s)) as [[k r1]|] eqn:Ek; [|discriminate].
    apply (parse_units_length (length (after_next s))) in Ek; [|lia].
    destruct (next_is 58 r1) eqn:E1; [|discriminate].
    apply after_next_length in E1.
    destruct (parse_value fuel (after_next r1)) as [[v r2]|] eqn:Ev;
      [|discriminate].
    apply IHv in Ev.
    destruct (next_is 44 r2) eqn:E2.
    + apply after_next_length in E2.
      destruct (parse_members fuel (after_next r2)) as [[l' r']|] eqn:E;
        [|discriminate].
      injection H as _ <-; apply IHm in E; lia.
    + destruct (next_is 125 r2) eqn:E3; [|discriminate].
      injection H as _ <-; apply after_next_length in E3; lia.
Qed.

(** With fuel above twice the length of the text, one more unit of fuel
    changes no result. *)
Lemma parse_fuel_step (fuel : nat) :
  (forall s, (2 * length s + 1 <= fuel)%nat ->
             parse_value (S fuel) s = parse_value fuel s)
  /\ (forall s, (2 * length s + 2 <= fuel)%nat ->
                parse_elems (S fuel) s = parse_elems fuel s)
  /\ (forall s, (2 * length s + 2 <= fuel)%nat ->
                parse_members (S fuel) s = parse_members fuel s).
Proof.
  induction fuel as [|fuel (IHv & IHe & IHm)];
    [repeat split; intros; lia|].
  repeat split.
  - intros s Hs; rewrite (parse_value_step (S fuel)), (parse_value_step fuel).
    destruct (skip_ws s) as [|c s'] eqn:Es; [reflexivity|].
    apply skip_ws_cons_length in Es.
    rewrite (IHe s'), (IHm s') by lia; reflexivity.
  - intros s Hs; rewrite (parse_elems_step (S fuel)), (parse_elems_step fuel).
    rewrite (IHv s) by lia.
    destruct (parse_value fuel s) as [[v r1]|] eqn:Ev; [|reflexivity].
    apply (proj1 (parse_consumes fuel)) in Ev.
    destruct (next_is 44 r1) eqn:E1; [|reflexivity].
    apply after_next_length in E1; rewrite IHe by lia; reflexivity.
  - intros s Hs;
      rewrite (parse_members_step (S fuel)), (parse_members_step fuel).
    destruct (next_is 34 s) eqn:E0; [|reflexivity].
    apply after_next_length in E0.
    destruct (parse_units (after_next s)) as [[k r1]|] eqn:Ek; [|reflexivity].
    apply (parse_units_length (length (after_next s))) in Ek; [|lia].
    destruct (next_is 58 r1) eqn:E1; [|reflexivity].
    apply after_next_length in E1; rewrite IHv by lia.
    destruct (parse_value fuel (after_next r1)) as [[v r2]|] eqn:Ev;
      [|reflexivity].
    apply (proj1 (parse_consumes fuel)) in Ev.
    destruct (next_is 44 r2) eqn:E2; [|reflexivity].
    apply after_next_length in E2; rewrite IHm by lia; reflexivity.
Qed.

(** More fuel than [JSON_parse] takes gives the same result: no text fails
    to parse for lack of fuel. *)
Lemma JSON_parse_fuel (text : jstring) (extra : nat) :
  parse_value (2 * length text + 2 + extra) text
  = parse_value (2 * length text + 2) text.
Proof.
  induction extra as [|extra IH]; [f_equal; lia|].
  rewrite <- IH, Nat.add_succ_r.
  apply (proj1 (parse_fuel_step _)); lia.
Qed.

End Fuel.

(* ================================================================== *)
(** * The persistence layer: what is written, and loading it again *)
(* ================================================================== *)

Section Persistence.

(** A member whose value is [undefined] is left out of the text. *)
Lemma stringify_object_defined (ms : list (jstring * jsval)) :
  Forall (fun m => flat (snd m) \/ snd m = VUndefined) ms ->
  JSON_stringify (VObj ms) = object_text (filter defined ms).
Proof.
  intros H; unfold JSON_stringify, object_text; cbn [stringify].
  do 3 f_equal.
  induction H as [|[k v] ms [Hm|Hm] _ IH]; [reflexivity | |];
    cbn [flat_map filter snd fst] in *.
  - unfold defined at 1; cbn [snd].
    rewrite (stringify_flat _ Hm), IH; destruct Hm; reflexivity.
  - subst v; exact IH.
Qed.

Lemma entity_members_flat (e : Entity) :
  Forall (fun m => flat (snd m)) (entity_members e).
Proof.
  unfold entity_members; destruct (subdomain e);
    repeat constructor.
Qed.

Lemma relation_members_flat (r : Relation) :
  Forall (fun m => flat (snd m)) (relation_members r).
Proof.
  unfold relation_members, own_members; destruct (order r);
    repeat constructor.
Qed.

Lemma entity_line_text (e : Entity) :
  JSON_stringify (entityWithType e) = object_text (entity_members e).
Proof.
  unfold entityWithType; rewrite stringify_object_defined.
  - unfold entity_members; destruct (subdomain e); reflexivity.
  - destruct (subdomain e); cbn [opt_str];
      repeat (apply Forall_cons;
              [first [left; constructor | right; reflexivity]|]);
      apply Forall_nil.
Qed.

Lemma relation_line_text (r : Relation) :
  JSON_stringify (relationWithType r) = object_text (relation_members r).
Proof. apply stringify_flat_object, relation_members_flat. Qed.

Lemma entity_line_parse (e : Entity) :
  JSON_parse (JSON_stringify (entityWithType e))
  = Some (VObj (entity_members e)).
Proof.
  rewrite entity_line_text.
  pose proof (entity_members_flat e) as H.
  unfold entity_members in *; cbn [app] in *.
  apply JSON_parse_object; assumption.
Qed.

Lemma relation_line_parse (r : Relation) :
  JSON_parse (JSON_stringify (relationWithType r))
  = Some (VObj (relation_members r)).
Proof.
  rewrite relation_line_text.
  apply JSON_parse_object, relation_members_flat.
Qed.

Lemma as_strings_map (l : list jstring) : as_strings (map VStr l) = Some l.
Proof.
  induction l as [|s l IH]; [reflexivity|]; cbn [map as_strings].
  rewrite IH; reflexivity.
Qed.

Lemma load_entity_line (graph : KnowledgeGraph) (e : Entity) :
  load_line graph (JSON_stringify (entityWithType e))
  = Returned {| entities := entities graph ++ [e];
                relations := relations graph |}.
Proof.
  unfold load_line; rewrite entity_line_parse.
  destruct e as [n t obs [sd|]]; unfold entity_members; cbn [app];
    (replace (prop (lit "type") _) with (VStr (lit "entity"))
       by reflexivity);
    change (str_eqb (lit "entity") (lit "entity")) with true; cbv iota;
    unfold as_entity;
    match goal with
    | |- context [prop (lit "name") ?o] =>
        replace (prop (lit "name") o) with (VStr n) by reflexivity;
        replace (prop (lit "entityType") o) with (VStr t) by reflexivity;
        replace (prop (lit "observations") o) with (VArr (map VStr obs))
          by reflexivity
    end; cbv iota; rewrite as_strings_map.
  - match goal with
    | |- context [prop (lit "subdomain") ?o] =>
        replace (prop (lit "subdomain") o) with (VStr sd) by reflexivity
    end; reflexivity.
  - match goal with
    | |- context [prop (lit "subdomain") ?o] =>
        replace (prop (lit "subdomain") o) with VUndefined by reflexivity
    end; reflexivity.
Qed.

Lemma load_relation_line (graph : KnowledgeGraph) (r : Relation) :
  load_line graph (JSON_stringify (relationWithType r))
  = Returned {| entities := entities graph;
                relations := relations graph ++ [r] |}.
Proof.
  unfold load_line; rewrite relation_line_parse.
  destruct r as [f t ty []]; reflexivity.
Qed.

(** A line that holds the members of a relation in any order, and the
    member [type] at any place among them, loads as the relation with its
    members in the order of the line. *)
Lemma load_relation_line_any_place (graph : KnowledgeGraph) (r : Relation)
  (place : nat) :
  load_line graph
    (object_text (firstn place (own_members r)
                  ++ (lit "type", VStr (lit "relation"))
                     :: skipn place (own_members r)))
  = Returned {| entities := entities graph;
                relations := relations graph ++ [r] |}.
Proof.
  unfold load_line.
  destruct r as [f t ty []], place as [|[|[|[|place]]]];
    cbn [own_members order from to relationType firstn skipn app];
    (rewrite JSON_parse_object; [reflexivity | repeat constructor]).
Qed.

Lemma commas_visible (l : list jstring) :
  Forall visible l -> visible (commas l).
Proof.
  induction 1 as [|x l Hx Hl IH]; [constructor|].
  destruct l as [|y l]; [exact Hx|].
  rewrite commas_cons; apply visible_app; [assumption|].
  constructor; [discriminate | assumption].
Qed.

Lemma flat_text_visible (v : jsval) : flat v -> visible (flat_text v).
Proof.
  intros [s|l]; cbn [flat_text]; [apply quote_visible|].
  constructor; [discriminate|].
  apply visible_app; [|repeat constructor; discriminate].
  apply commas_visible; rewrite map_map, Forall_map.
  apply Forall_forall; intros; apply quote_visible.
Qed.

Lemma object_text_visible (ms : list (jstring * jsval)) :
  Forall (fun m => flat (snd m)) ms -> visible (object_text ms).
Proof.
  intros H; unfold object_text; constructor; [discriminate|].
  apply visible_app; [|repeat constructor; discriminate].
  apply commas_visible; rewrite Forall_map.
  eapply Forall_impl; [|exact H]; intros m Hm; unfold member_text.
  apply visible_app; [apply quote_visible|].
  constructor; [discriminate | apply flat_text_visible; assumption].
Qed.

(** A record's text holds no line feed and is not blank. *)
Lemma object_text_line (ms : list (jstring * jsval)) :
  Forall (fun m => flat (snd m)) ms ->
  ~ In 10 (object_text ms) /\ str_eqb (trim (object_text ms)) [] = false.
Proof.
  intros H; split.
  - apply visible_no_line_feed, object_text_visible; assumption.
  - apply trim_not_blank; reflexivity.
Qed.

Lemma graph_lines_ok (graph : KnowledgeGraph) :
  Forall (fun l => ~ In 10 l /\ str_eqb (trim l) [] = false)
         (graph_lines graph).
Proof.
  unfold graph_lines; apply Forall_app; split; apply Forall_map, Forall_forall.
  - intros e _; rewrite entity_line_text.
    apply object_text_line, entity_members_flat.
  - intros r _; rewrite relation_line_text.
    apply object_text_line, relation_members_flat.
Qed.

Lemma load_lines_relations (rs : list Relation) :
  forall graph,
  load_lines graph (map (fun r => JSON_stringify (relationWithType r)) rs)
  = Returned {| entities := entities graph;
                relations := relations graph ++ rs |}.
Proof.
  induction rs as [|r rs IH]; intros graph; cbn [map load_lines].
  - rewrite app_nil_r; destruct graph; reflexivity.
  - rewrite load_relation_line, IH; cbn [entities relations].
    rewrite <- app_assoc; reflexivity.
Qed.

Lemma load_lines_graph (es : list Entity) (rs : list Relation) :
  forall graph,
  load_lines graph
    (map (fun e => JSON_stringify (entityWithType e)) es
     ++ map (fun r => JSON_stringify (relationWithType r)) rs)
  = Returned {| entities := entities graph ++ es;
                relations := relations graph ++ rs |}.
Proof.
  induction es as [|e es IH]; intros graph; cbn [map app load_lines].
  - rewrite load_lines_relations, app_nil_r; reflexivity.
  - rewrite load_entity_line, IH; cbn [entities relations].
    rewrite <- app_assoc; reflexivity.
Qed.

Lemma utf8_stable_app (a b : jstring) :
  utf8_stable a -> utf8_stable b -> utf8_stable (a ++ b).
Proof.
  intros Ha Hb t; rewrite <- app_assoc, Ha, Hb, app_assoc; reflexivity.
Qed.

Lemma utf8_stable_plain (a : jstring) :
  Forall (fun c => c < 55296) a -> utf8_stable a.
Proof.
  induction 1 as [|c a Hc _ IH]; intros t; [reflexivity|].
  cbn [app utf8_text]; unfold is_lead_surrogate, is_trail_surrogate.
  destruct (N.leb_spec 55296 c); [lia|].
  destruct (N.leb_spec 56320 c); [lia|].
  cbn [andb]; rewrite IH; reflexivity.
Qed.

Lemma utf8_stable_cons (c : N) (a : jstring) :
  c < 55296 -> utf8_stable a -> utf8_stable (c :: a).
Proof.
  intros Hc Ha; apply (utf8_stable_app [c] a); [|assumption].
  apply utf8_stable_plain; repeat constructor; assumption.
Qed.

Lemma utf8_stable_quote_unit (c : N) : utf8_stable (quote_unit c).
Proof.
  unfold quote_unit.
  repeat match goal with
  | |- context [if ?x =? ?k then _ else _] =>
      destruct (N.eqb_spec x k) as [->|?];
      [apply utf8_stable_plain; repeat constructor; reflexivity|]
  end.
  destruct ((c <? 32) || is_lead_surrogate c || is_trail_surrogate c) eqn:E.
  - apply utf8_stable_plain; unfold unicode_escape, hex_digit.
    repeat constructor; try reflexivity;
      match goal with |- context [?d <? 10] =>
        assert (d < 16) by (apply N.mod_lt; discriminate);
        destruct (d <? 10); lia
      end.
  - rewrite !orb_false_iff in E; destruct E as [[_ El] Et].
    intros t; cbn [app utf8_text]; rewrite El, Et; reflexivity.
Qed.

Lemma utf8_stable_quote_units_bounded (n : nat) :
  forall s, (length s <= n)%nat -> utf8_stable (quote_units s).
Proof.
  induction n as [|n IH]; intros s Hn.
  - destruct s; [intros t; reflexivity | simpl in Hn; lia].
  - destruct s as [|c s]; [intros t; reflexivity|]. simpl in Hn.
    cbn [quote_units].
    destruct (is_lead_surrogate c) eqn:Hl;
      [destruct s as [|d s];
       [apply utf8_stable_quote_unit
       | destruct (is_trail_surrogate d) eqn:Hd]|].
    + intros t; cbn [app utf8_text]; rewrite Hl, Hd.
      rewrite (IH s) by (simpl in Hn; lia); reflexivity.
    + apply utf8_stable_app; [apply utf8_stable_quote_unit | apply IH; lia].
    + apply utf8_stable_app; [apply utf8_stable_quote_unit | apply IH; lia].
Qed.

Lemma utf8_stable_quote (s : jstring) : utf8_stable (quote s).
Proof.
  unfold quote; apply utf8_stable_cons; [reflexivity|].
  apply utf8_stable_app;
    [apply (utf8_stable_quote_units_bounded (length s)); lia
    | apply utf8_stable_plain; repeat constructor; reflexivity].
Qed.

Lemma utf8_stable_commas (l : list jstring) :
  Forall utf8_stable l -> utf8_stable (commas l).
Proof.
  induction 1 as [|x l Hx Hl IH]; [intros t; reflexivity|].
  destruct l as [|y l]; [exact Hx|].
  rewrite commas_cons; apply utf8_stable_app; [assumption|].
  apply utf8_stable_cons; [reflexivity | assumption].
Qed.

Lemma utf8_stable_flat_text (v : jsval) : flat v -> utf8_stable (flat_text v).
Proof.
  intros [s|l]; cbn [flat_text]; [apply utf8_stable_quote|].
  apply utf8_stable_cons; [reflexivity|].
  apply utf8_stable_app;
    [|apply utf8_stable_plain; repeat constructor; reflexivity].
  apply utf8_stable_commas; rewrite map_map, Forall_map.
  apply Forall_forall; intros; apply utf8_stable_quote.
Qed.

Lemma utf8_stable_object_text (ms : list (jstring * jsval)) :
  Forall (fun m => flat (snd m)) ms -> utf8_stable (object_text ms).
Proof.
  intros H; unfold object_text; apply utf8_stable_cons; [reflexivity|].
  apply utf8_stable_app;
    [|apply utf8_stable_plain; repeat constructor; reflexivity].
  apply utf8_stable_commas; rewrite Forall_map.
  eapply Forall_impl; [|exact H]; intros m Hm; unfold member_text.
  apply utf8_stable_app; [apply utf8_stable_quote|].
  apply utf8_stable_cons; [reflexivity|].
  apply utf8_stable_flat_text; assumption.
Qed.

Lemma utf8_stable_join (l : list jstring) :
  Forall utf8_stable l -> utf8_stable (join_char 10 l).
Proof.
  induction 1 as [|x l Hx Hl IH]; [intros t; reflexivity|].
  destruct l as [|y l]; [exact Hx|].
  change (join_char 10 (x :: y :: l)) with (x ++ 10 :: join_char 10 (y :: l)).
  apply utf8_stable_app; [assumption|].
  apply utf8_stable_cons; [reflexivity | assumption].
Qed.

(** The text that [saveGraph] writes is read back as it is: every surrogate
    that is not part of a pair was written as an escape. *)
Lemma utf8_graph_text (graph : KnowledgeGraph) :
  utf8_text (graph_text graph) = graph_text graph.
Proof.
  assert (utf8_stable (graph_text graph)) as H.
  { unfold graph_text; apply utf8_stable_app;
      [|apply utf8_stable_plain; repeat constructor; reflexivity].
    apply utf8_stable_join; unfold graph_lines.
    apply Forall_app; split; apply Forall_map, Forall_forall.
    - intros e _; rewrite entity_line_text.
      apply utf8_stable_object_text, entity_members_flat.
    - intros r _; rewrite relation_line_text.
      apply utf8_stable_object_text, relation_members_flat. }
  specialize (H []); rewrite !app_nil_r in H; exact H.
Qed.

(** Loading the text that [saveGraph] writes for a graph gives the graph. *)
Lemma load_graph_text (graph : KnowledgeGraph) :
  load_text (graph_text graph) = Returned graph.
Proof.
  unfold load_text, graph_text.
  rewrite lines_of_joined by apply graph_lines_ok.
  unfold graph_lines; rewrite load_lines_graph.
  destruct graph; reflexivity.
Qed.

End Persistence.

(* ================================================================== *)
(** * The operations on a stored graph *)
(* ================================================================== *)

Section Runs.

Lemma load_text_empty : load_text [] = Returned empty_graph.
Proof. reflexivity. Qed.

Lemma loadGraph_stored (w : world) :
  loadGraph w = (stored_graph w, loaded w).
Proof. unfold stored_graph, loaded; destruct (loadGraph w); reflexivity. Qed.

Lemma loaded_existing (w : world) (data : jstring) :
  file w = Some data -> loaded w = w.
Proof. unfold loaded, loadGraph; intros ->; reflexivity. Qed.

Lemma stored_graph_loaded (w : world) :
  stored_graph (loaded w) = stored_graph w.
Proof.
  unfold stored_graph, loaded, loadGraph; destruct (file w) eqn:E; cbn.
  - rewrite E; reflexivity.
  - reflexivity.
Qed.

Lemma loaded_log_no_save (w : world) :
  log (loaded w) = log w \/ log (loaded w) = log w ++ [CreatedEmpty].
Proof.
  unfold loaded, loadGraph; destruct (file w); cbn; [left | right]; reflexivity.
Qed.

Lemma stored_graph_saved (graph : KnowledgeGraph) (w : world) :
  stored_graph (snd (saveGraph graph w)) = Returned graph.
Proof.
  unfold stored_graph, loadGraph; cbn [saveGraph snd file fst].
  rewrite utf8_graph_text; apply load_graph_text.
Qed.

(** A method that starts with [loadGraph], on a world that stores a
    graph. *)
Lemma bind_loadGraph {A} (k : KnowledgeGraph -> M A) (w : world)
  (graph : KnowledgeGraph) :
  stored_graph w = Returned graph ->
  bind loadGraph k w = k graph (loaded w).
Proof. intros H; unfold bind; rewrite loadGraph_stored, H; reflexivity. Qed.

Lemma bind_loadGraph_thrown {A} (k : KnowledgeGraph -> M A) (w : world)
  (e : exn) :
  stored_graph w = Thrown e ->
  bind loadGraph k w = (Thrown e, loaded w).
Proof. intros H; unfold bind; rewrite loadGraph_stored, H; reflexivity. Qed.

Lemma copy_entity_id (e : Entity) : copy_entity e = e.
Proof. destruct e; reflexivity. Qed.

Lemma map_copy_entity (l : list Entity) : map copy_entity l = l.
Proof.
  induction l as [|e l IH]; [reflexivity|]; cbn [map].
  rewrite copy_entity_id, IH; reflexivity.
Qed.

Lemma createEntities_run (ents : list Entity) (w : world)
  (graph : KnowledgeGraph) :
  stored_graph w = Returned graph ->
  createEntities ents w
  = (Returned (new_entities graph ents),
     match new_entities graph ents with
     | [] => loaded w
     | _ :: _ =>
         snd (saveGraph
                {| entities := entities graph ++ new_entities graph ents;
                   relations := relations graph |} (loaded w))
     end).
Proof.
  intros H; unfold createEntities; rewrite (bind_loadGraph _ _ _ H).
  fold (new_entities graph ents); rewrite map_copy_entity.
  destruct (new_entities graph ents); reflexivity.
Qed.

Lemma createRelations_run (rels : list Relation) (w : world)
  (graph : KnowledgeGraph) :
  stored_graph w = Returned graph ->
  createRelations rels w
  = (Returned (new_relations graph rels),
     snd (saveGraph
            {| entities := entities graph;
               relations := relations graph ++ new_relations graph rels |}
            (loaded w))).
Proof.
  intros H; unfold createRelations; rewrite (bind_loadGraph _ _ _ H).
  reflexivity.
Qed.

Lemma addObservations_run (items : list ObservationInput) (w : world)
  (graph : KnowledgeGraph) :
  stored_graph w = Returned graph ->
  addObservations items w
  = match add_pass items (entities graph) with
    | Returned (results, es) =>
        (Returned results,
         snd (saveGraph {| entities := es; relations := relations graph |}
                        (loaded w)))
    | Thrown e => (Thrown e, loaded w)
    end.
Proof.
  intros H; unfold addObservations; rewrite (bind_loadGraph _ _ _ H).
  unfold bind, lift; destruct (add_pass items (entities graph)) as [[]|];
    reflexivity.
Qed.

Lemma deleteEntities_run (entityNames : list jstring) (w : world)
  (graph : KnowledgeGraph) :
  stored_graph w = Returned graph ->
  deleteEntities entityNames w
  = (Returned tt,
     snd (saveGraph (without_entities entityNames graph) (loaded w))).
Proof.
  intros H; unfold deleteEntities; rewrite (bind_loadGraph _ _ _ H).
  reflexivity.
Qed.

Lemma deleteObservations_run (deletions : list ObservationDeletion)
  (w : world) (graph : KnowledgeGraph) :
  stored_graph w = Returned graph ->
  deleteObservations deletions w
  = (Returned tt,
     snd (saveGraph {| entities := delete_pass deletions (entities graph);
                       relations := relations graph |} (loaded w))).
Proof.
  intros H; unfold deleteObservations; rewrite (bind_loadGraph _ _ _ H).
  reflexivity.
Qed.

Lemma deleteRelations_run (rels : list Relation) (w : world)
  (graph : KnowledgeGraph) :
  stored_graph w = Returned graph ->
  deleteRelations rels w
  = (Returned tt,
     snd (saveGraph
            {| entities := entities graph;
               relations :=
                 filter (fun r => negb (existsb (fun delRelation =>
                                                   same_relation r delRelation)
                                                rels))
                        (relations graph) |} (loaded w))).
Proof.
  intros H; unfold deleteRelations; rewrite (bind_loadGraph _ _ _ H).
  reflexivity.
Qed.

Lemma openNodes_run (names : list jstring) (w : world)
  (graph : KnowledgeGraph) :
  stored_graph w = Returned graph ->
  openNodes names w
  = (Returned
       {| entities :=
            filter (fun e => arr_includes names (name e)) (entities graph);
          relations :=
            induced_relations
              (filter (fun e => arr_includes names (name e)) (entities graph))
              graph |},
     loaded w).
Proof.
  intros H; unfold openNodes; rewrite (bind_loadGraph _ _ _ H); reflexivity.
Qed.

Lemma searchNodes_run (toLowerCase : jstring -> jstring) (query : jstring)
  (w : world) (graph : KnowledgeGraph) :
  stored_graph w = Returned graph ->
  searchNodes toLowerCase query w
  = (Returned
       match keywords_of toLowerCase query with
       | [] => {| entities := []; relations := [] |}
       | _ :: _ =>
           {| entities :=
                filter (entity_matches toLowerCase
                          (keywords_of toLowerCase query)) (entities graph);
              relations :=
                induced_relations
                  (filter (entity_matches toLowerCase
                             (keywords_of toLowerCase query))
                          (entities graph)) graph |}
       end,
     loaded w).
Proof.
  intros H; unfold searchNodes; rewrite (bind_loadGraph _ _ _ H).
  destruct (keywords_of toLowerCase query); reflexivity.
Qed.

End Runs.

(* ================================================================== *)
(** * Search *)
(* ================================================================== *)

Section SearchSpec.

Variable toLowerCase : jstring -> jstring.

Lemma nonempty_length (k : jstring) :
  (0 <? length k)%nat = negb (str_eqb k []).
Proof. destruct k; reflexivity. Qed.

Lemma split_runs_cut (p : N -> bool) (s : jstring) :
  forall (in_run : bool) (cur : jstring),
  (in_run = true -> cur = []) ->
  filter (fun k => negb (str_eqb k [])) (split_runs_from p in_run cur s)
  = filter (fun k => negb (str_eqb k [])) (cut_at_each p cur s).
Proof.
  induction s as [|c s IH]; intros in_run cur Hcur; [reflexivity|].
  cbn [split_runs_from cut_at_each]; destruct (p c).
  - destruct in_run.
    + rewrite (Hcur eq_refl); cbn [rev filter str_eqb negb].
      apply IH; reflexivity.
    + cbn [filter]; rewrite (IH true []) by reflexivity; reflexivity.
  - apply IH; discriminate.
Qed.

(** The keywords of [searchNodes] are the tokens of the lower-cased
    query. *)
Lemma keywords_of_spec (query : jstring) :
  keywords_of toLowerCase query = spec_tokens (toLowerCase query).
Proof.
  unfold keywords_of, spec_tokens, split_runs.
  rewrite (filter_ext _ _ nonempty_length).
  apply split_runs_cut; discriminate.
Qed.

Lemma cut_at_each_pieces (p : N -> bool) (s : jstring) :
  forall cur, Forall (fun c => p c = false) cur ->
  Forall (Forall (fun c => p c = false)) (cut_at_each p cur s).
Proof.
  induction s as [|c s IH]; intros cur Hcur; cbn [cut_at_each].
  - repeat constructor; apply Forall_rev; assumption.
  - destruct (p c) eqn:E.
    + constructor; [apply Forall_rev; assumption | apply IH; constructor].
    + apply IH; constructor; assumption.
Qed.

(** No keyword is empty, and none holds a separator. *)
Lemma keywords_of_tokens (query : jstring) :
  Forall (fun k => k <> [] /\ Forall (fun c => is_separator c = false) k)
         (keywords_of toLowerCase query).
Proof.
  rewrite keywords_of_spec; unfold spec_tokens.
  apply Forall_forall; intros k Hk; apply filter_In in Hk as [Hin Hne].
  split.
  - intros ->; discriminate.
  - pose proof (cut_at_each_pieces is_separator (toLowerCase query) []
                  (Forall_nil _)) as H.
    rewrite Forall_forall in H; apply H; assumption.
Qed.

Lemma or_empty_subdomain (sd : option jstring) :
  or_empty (option_map toLowerCase sd)
  = match sd with
    | Some s => toLowerCase s
    | None => []
    end.
Proof. destruct sd as [s|]; cbn; [destruct (toLowerCase s)|]; reflexivity. Qed.

Lemma keyword_matches_spec (e : Entity) (keyword : jstring) :
  keyword_matches toLowerCase e keyword = true <-> surfaces_contain toLowerCase e keyword.
Proof.
  unfold keyword_matches, surfaces_contain, substring.
  rewrite !orb_true_iff, !includes_substring, or_empty_subdomain.
  rewrite existsb_exists.
  split.
  - intros [[[H|H]|H]|(o & Ho & H)]; auto.
    apply in_map_iff in Ho as (o' & <- & Ho').
    apply includes_substring in H; eauto 10.
  - intros [H|[H|[H|(o & Ho & H)]]]; auto.
    right; exists (toLowerCase o); split;
      [apply in_map; assumption | apply includes_substring; assumption].
Qed.

Lemma entity_matches_spec (keywords : list jstring) (e : Entity) :
  entity_matches toLowerCase keywords e = true
  <-> exists k, In k keywords /\ surfaces_contain toLowerCase e k.
Proof.
  unfold entity_matches; rewrite existsb_exists; split.
  - intros (b & Hb & ->); apply in_map_iff in Hb as (k & Hk & Hin).
    exists k; split; [assumption | apply keyword_matches_spec; assumption].
  - intros (k & Hin & Hk); exists true; split; [|reflexivity].
    apply in_map_iff; exists k; split;
      [apply keyword_matches_spec; assumption | assumption].
Qed.

Lemma arr_includes_names (es : list Entity) (n : jstring) :
  arr_includes (map name es) n = true <-> names_entity es n.
Proof.
  rewrite arr_includes_In, in_map_iff; unfold names_entity.
  split; intros (e & H1 & H2); exists e; split; assumption.
Qed.

(** C1: for every stored graph and query, [searchNodes] takes as keywords
    the tokens of the lower-cased query (cut at white space, comma,
    ampersand and plus, empty pieces dropped); without a keyword it returns
    the graph with no entity and no relation; otherwise it returns, in the
    stored order, exactly the entities for which some keyword is a substring
    of the lower-cased name, type, subdomain (empty when absent) or of some
    lower-cased observation, and exactly the relations of the stored graph
    whose [from] and [to] both name returned entities. *)
Theorem searchNodes_spec (w : world) (graph : KnowledgeGraph)
  (query : jstring) :
  stored_graph w = Returned graph ->
  exists result,
    fst (searchNodes toLowerCase query w) = Returned result
    /\ keywords_of toLowerCase query = spec_tokens (toLowerCase query)
    /\ (spec_tokens (toLowerCase query) = [] ->
        entities result = [] /\ relations result = [])
    /\ (spec_tokens (toLowerCase query) <> [] ->
        exists keep_entity keep_relation,
          entities result = filter keep_entity (entities graph)
          /\ (forall e, keep_entity e = true
                        <-> exists k, In k (spec_tokens (toLowerCase query))
                                      /\ surfaces_contain toLowerCase e k)
          /\ relations result = filter keep_relation (relations graph)
          /\ (forall r, keep_relation r = true
                        <-> names_entity (entities result) (from r)
                            /\ names_entity (entities result) (to r))).
Proof.
  intros H; rewrite (searchNodes_run _ _ _ _ H); cbn [fst].
  rewrite keywords_of_spec.
  eexists; split; [reflexivity|]; split; [reflexivity|].
  destruct (spec_tokens (toLowerCase query)) as [|k ks] eqn:E.
  - split; [intros _; split; reflexivity | intros C; contradiction].
  - split; [discriminate | intros _].
    eexists _, _; cbn [entities relations]; split; [reflexivity|].
    split; [apply entity_matches_spec|]; split; [reflexivity|].
    intros r; rewrite andb_true_iff, !arr_includes_names; reflexivity.
Qed.

End SearchSpec.

Lemma small_world_stored :
  stored_graph Examples.small_world = Returned Examples.small_graph.
Proof. vm_compute; reflexivity. Qed.

Lemma upper_world_stored :
  stored_graph Examples.upper_world = Returned Examples.upper_graph.
Proof. vm_compute; reflexivity. Qed.

(** C1 at the store of the test suite and the query of its disjunction
    test: both entities are returned, and the relation between them. *)
Lemma searchNodes_spec_witness :
  stored_graph Examples.small_world = Returned Examples.small_graph
  /\ exists result,
       fst (searchNodes ascii_toLowerCase (lit "comparison budget")
              Examples.small_world) = Returned result
       /\ keywords_of ascii_toLowerCase (lit "comparison budget")
          = spec_tokens (ascii_toLowerCase (lit "comparison budget"))
       /\ result = Examples.small_graph.
Proof.
  split; [vm_compute; reflexivity|].
  destruct (searchNodes_spec ascii_toLowerCase Examples.small_world
              Examples.small_graph (lit "comparison budget"))
    as (result & Hr & Hk & _); [vm_compute; reflexivity|].
  exists result; split; [assumption|]; split; [assumption|].
  vm_compute in Hr; injection Hr as <-; vm_compute; reflexivity.
Defined.

(* ================================================================== *)
(** * Creation *)
(* ================================================================== *)

Section Creation.

Lemma has_name_names (es : list Entity) (n : jstring) :
  has_name es n = true <-> names_entity es n.
Proof.
  unfold has_name, names_entity; rewrite existsb_exists.
  split; intros (e & H1 & H2); exists e; split; try assumption;
    apply str_eqb_eq; assumption.
Qed.

Lemma has_name_false (es : list Entity) (n : jstring) :
  has_name es n = false <-> ~ names_entity es n.
Proof.
  rewrite <- has_name_names; destruct (has_name es n); split; congruence.
Qed.

(** When every given name is already stored, [createEntities] returns the
    empty list and does not call [saveGraph]: an existing file is left as
    it is. *)
Lemma createEntities_nothing_new (ents : list Entity) (w : world)
  (graph : KnowledgeGraph) :
  stored_graph w = Returned graph ->
  Forall (fun e => names_entity (entities graph) (name e)) ents ->
  createEntities ents w = (Returned [], loaded w)
  /\ (forall data, file w = Some data -> snd (createEntities ents w) = w).
Proof.
  intros H Hall.
  assert (new_entities graph ents = []) as Hnew.
  { unfold new_entities; induction Hall as [|e l He _ IH]; [reflexivity|].
    cbn [filter]; apply has_name_names in He; rewrite He; exact IH. }
  rewrite (createEntities_run _ _ _ H), Hnew; split; [reflexivity|].
  intros data Hd; cbn [snd]; apply (loaded_existing _ _ Hd).
Qed.

(** C2 (the code falls short of the claim): a first call of
    [createEntities] with the same new entity twice stores two entities of
    one name, since the given list is only compared with the stored
    graph. *)
Theorem createEntities_duplicate_names :
  let w := run_calls ascii_toLowerCase
             [CreateEntities [Examples.upper; Examples.upper]]
             initial_world in
  fst (createEntities [Examples.upper; Examples.upper] initial_world)
  = Returned [Examples.upper; Examples.upper]
  /\ stored_graph w
     = Returned {| entities := [Examples.upper; Examples.upper];
                   relations := [] |}
  /\ ~ NoDup (map name [Examples.upper; Examples.upper]).
Proof.
  cbv zeta; split; [vm_compute; reflexivity|];
    split; [vm_compute; reflexivity|].
  intros H; inversion H as [|? ? Hnotin _]; apply Hnotin; left; reflexivity.
Qed.

(** [createRelations] writes the file in every call on a stored graph. *)
Lemma createRelations_always_saves (rels : list Relation) (w : world)
  (graph : KnowledgeGraph) :
  stored_graph w = Returned graph ->
  exists text,
    log (snd (createRelations rels w)) = log (loaded w) ++ [Saved text]
    /\ file (snd (createRelations rels w)) = Some text.
Proof.
  intros H; rewrite (createRelations_run _ _ _ H).
  cbn [snd saveGraph file log]; rewrite utf8_graph_text.
  eexists; split; reflexivity.
Qed.

(** C3 (the code falls short of the claim): [createRelations] calls
    [saveGraph] also when every given relation is already stored.  On the
    store that the program itself wrote the call returns no new relation and
    still writes the file; on a store with a blank line at its end the write
    changes the contents. *)
Theorem createRelations_saves_without_new :
  let w := Examples.upper_world in
  let blank_line :=
    {| file := Some (graph_text Examples.upper_graph ++ [10]); log := [] |} in
  fst (createRelations [Examples.upper_loop] w) = Returned []
  /\ log (snd (createRelations [Examples.upper_loop] w))
     = log w ++ [Saved (graph_text Examples.upper_graph)]
  /\ stored_graph blank_line = Returned Examples.upper_graph
  /\ fst (createRelations [Examples.upper_loop] blank_line) = Returned []
  /\ file (snd (createRelations [Examples.upper_loop] blank_line))
     = Some (graph_text Examples.upper_graph)
  /\ file (snd (createRelations [Examples.upper_loop] blank_line))
     <> file blank_line.
Proof.
  cbv zeta; repeat split; try (vm_compute; reflexivity).
  vm_compute; discriminate.
Qed.

End Creation.

(* ================================================================== *)
(** * Observations *)
(* ================================================================== *)

Section Observations.

Lemma find_entity_None (es : list Entity) (n : jstring) :
  find_entity es n = None <-> ~ names_entity es n.
Proof.
  unfold find_entity, names_entity; split.
  - intros H (e & Hin & He).
    apply (find_none _ _ H) in Hin; apply str_eqb_neq in Hin; contradiction.
  - intros H; destruct (find _ es) as [e|] eqn:E; [|reflexivity].
    apply find_some in E as [Hin He]; apply str_eqb_eq in He.
    exfalso; apply H; exists e; split; assumption.
Qed.

Lemma update_found_names (n : jstring) (f : Entity -> Entity)
  (es : list Entity) :
  (forall e, name (f e) = name e) ->
  map name (update_found n f es) = map name es.
Proof.
  intros Hf; induction es as [|e es IH]; [reflexivity|].
  cbn [update_found]; destruct (str_eqb (name e) n); cbn [map];
    [rewrite Hf | rewrite IH]; reflexivity.
Qed.

Lemma names_entity_map (es es' : list Entity) (n : jstring) :
  map name es = map name es' -> names_entity es n -> names_entity es' n.
Proof.
  unfold names_entity; intros Hmap (e & Hin & He).
  assert (In n (map name es')) as Hn
    by (rewrite <- Hmap; apply in_map_iff; exists e; split; assumption).
  apply in_map_iff in Hn as (e' & He' & Hin'); exists e'; split; assumption.
Qed.

(** The pass over the items throws at the first item whose entity is
    missing. *)
Lemma add_pass_missing (items : list ObservationInput) :
  forall (es : list Entity) (before after : list ObservationInput)
         (o : ObservationInput),
  items = before ++ o :: after ->
  Forall (fun i => names_entity es (entityName i)) before ->
  ~ names_entity es (entityName o) ->
  add_pass items es = Thrown (EntityNotFound (entityName o)).
Proof.
  induction items as [|i items IH]; intros es before after o Heq Hb Ho.
  - destruct before; discriminate.
  - destruct before as [|b before]; cbn [app] in Heq;
      injection Heq as -> ->; cbn [add_pass].
    + apply find_entity_None in Ho; rewrite Ho; reflexivity.
    + inversion Hb as [|? ? Hb1 Hb2]; subst.
      destruct (find_entity es (entityName b)) as [entity|] eqn:E;
        [|apply find_entity_None in E; contradiction].
      set (es' := update_found _ _ es).
      assert (map name es' = map name es) as Hnames
        by (apply update_found_names; intros; reflexivity).
      rewrite (IH es' before after o eq_refl); [reflexivity | |].
      * eapply Forall_impl; [|exact Hb2]; intros a Ha.
        apply (names_entity_map es es'); [symmetry|]; assumption.
      * intros C; apply Ho.
        apply (names_entity_map es' es); assumption.
Qed.

Lemma first_missing (es : list Entity) (items : list ObservationInput) :
  (exists o, In o items /\ ~ names_entity es (entityName o)) ->
  exists before o after,
    items = before ++ o :: after
    /\ Forall (fun i => names_entity es (entityName i)) before
    /\ ~ names_entity es (entityName o).
Proof.
  induction items as [|i items IH]; intros (o & Hin & Ho); [destruct Hin|].
  destruct (has_name es (entityName i)) eqn:E.
  - apply has_name_names in E.
    destruct IH as (before & o' & after & -> & Hb & Ho').
    { destruct Hin as [->|Hin]; [contradiction | eauto]. }
    exists (i :: before), o', after; repeat split; try assumption.
    constructor; assumption.
  - apply has_name_false in E.
    exists [], i, items; repeat split; [constructor | assumption].
Qed.

(** C4: for every stored graph and batch of [addObservations] in which some
    item names no stored entity, the call throws the not-found error for the
    first such item, [saveGraph] is not called, an existing file is exactly
    what it was, and the stored graph is the one from before the call, also
    when earlier items of the batch name stored entities. *)
Theorem addObservations_missing_entity (w : world) (graph : KnowledgeGraph)
  (items : list ObservationInput) :
  stored_graph w = Returned graph ->
  (exists o, In o items
             /\ ~ names_entity (entities graph) (entityName o)) ->
  exists before o after,
    items = before ++ o :: after
    /\ Forall (fun i => names_entity (entities graph) (entityName i)) before
    /\ ~ names_entity (entities graph) (entityName o)
    /\ fst (addObservations items w)
       = Thrown (EntityNotFound (entityName o))
    /\ (forall text, In (Saved text) (log (snd (addObservations items w)))
                     -> In (Saved text) (log w))
    /\ (forall data, file w = Some data
                     -> snd (addObservations items w) = w)
    /\ stored_graph (snd (addObservations items w)) = Returned graph.
Proof.
  intros H Hmiss.
  destruct (first_missing _ _ Hmiss) as (before & o & after & Heq & Hb & Ho).
  exists before, o, after; repeat split; try assumption;
    rewrite (addObservations_run _ _ _ H),
            (add_pass_missing _ _ _ _ _ Heq Hb Ho); cbn [fst snd].
  - reflexivity.
  - intros text Hin; destruct (loaded_log_no_save w) as [E|E];
      rewrite E in Hin; [assumption|].
    apply in_app_or in Hin as [Hin|[Hin|[]]]; [assumption | discriminate].
  - intros data Hd; apply (loaded_existing _ _ Hd).
  - rewrite stored_graph_loaded; assumption.
Qed.

(** C4 at the store of the test suite: the first item names a stored
    entity, the second does not. *)
Lemma addObservations_missing_entity_witness :
  stored_graph Examples.small_world = Returned Examples.small_graph
  /\ fst (addObservations
            [{| entityName := lit "BudgetCalculator";
                contents := [lit "new fact"] |};
             {| entityName := lit "Nobody"; contents := [lit "x"] |}]
            Examples.small_world)
     = Thrown (EntityNotFound (lit "Nobody"))
  /\ snd (addObservations
            [{| entityName := lit "BudgetCalculator";
                contents := [lit "new fact"] |};
             {| entityName := lit "Nobody"; contents := [lit "x"] |}]
            Examples.small_world)
     = Examples.small_world.
Proof.
  split; [vm_compute; reflexivity|].
  destruct (addObservations_missing_entity Examples.small_world
              Examples.small_graph
              [{| entityName := lit "BudgetCalculator";
                  contents := [lit "new fact"] |};
               {| entityName := lit "Nobody"; contents := [lit "x"] |}])
    as (before & o & after & _ & _ & _ & _ & _ & Hw & _).
  - vm_compute; reflexivity.
  - exists {| entityName := lit "Nobody"; contents := [lit "x"] |}.
    split; [right; left; reflexivity|].
    intros (e & [<-|[<-|[]]] & He); vm_compute in He; discriminate.
  - split; [vm_compute; reflexivity|].
    apply (Hw (graph_text Examples.small_graph)).
    vm_compute; reflexivity.
Defined.

End Observations.

(* ================================================================== *)
(** * Deletion *)
(* ================================================================== *)

Section Deletion.

Lemma filter_all {A} (f : A -> bool) (l : list A) :
  (forall x, In x l -> f x = true) -> filter f l = l.
Proof.
  induction l as [|x l IH]; intros H; [reflexivity|]; cbn [filter].
  rewrite (H x (or_introl eq_refl)), IH;
    [reflexivity | intros y Hy; apply H; right; assumption].
Qed.

(** Names that occur nowhere in the graph delete nothing. *)
Lemma without_entities_absent (entityNames : list jstring)
  (graph : KnowledgeGraph) :
  (forall n, In n entityNames ->
     ~ names_entity (entities graph) n
     /\ forall r, In r (relations graph) -> from r <> n /\ to r <> n) ->
  without_entities entityNames graph = graph.
Proof.
  intros Hnone; unfold without_entities.
  rewrite !filter_all; [destruct graph; reflexivity | |].
  - intros r Hr; rewrite andb_true_iff, !negb_true_iff.
    rewrite !arr_includes_not_In; split; intros Hin;
      destruct (Hnone _ Hin) as [_ Hrel]; destruct (Hrel r Hr); congruence.
  - intros e He; rewrite negb_true_iff, arr_includes_not_In; intros Hin.
    destruct (Hnone _ Hin) as [Hent _]; apply Hent; exists e; auto.
Qed.

(** C5: for every stored graph and list of names, [deleteEntities] succeeds
    and stores the graph whose entities are those of the old one whose name
    is not in the list and whose relations are those of the old one with
    neither [from] nor [to] in the list, both in their old order; when no
    listed name is the name of an entity or an end of a relation, the
    stored graph is the old one. *)
Theorem deleteEntities_spec (w : world) (graph : KnowledgeGraph)
  (entityNames : list jstring) :
  stored_graph w = Returned graph ->
  fst (deleteEntities entityNames w) = Returned tt
  /\ exists graph' keep_entity keep_relation,
       stored_graph (snd (deleteEntities entityNames w)) = Returned graph'
       /\ entities graph' = filter keep_entity (entities graph)
       /\ (forall e, keep_entity e = true <-> ~ In (name e) entityNames)
       /\ relations graph' = filter keep_relation (relations graph)
       /\ (forall r, keep_relation r = true
                     <-> ~ In (from r) entityNames
                         /\ ~ In (to r) entityNames)
       /\ ((forall n, In n entityNames ->
              ~ names_entity (entities graph) n
              /\ forall r, In r (relations graph) ->
                           from r <> n /\ to r <> n)
           -> graph' = graph).
Proof.
  intros H; rewrite (deleteEntities_run _ _ _ H); cbn [fst snd].
  split; [reflexivity|].
  exists (without_entities entityNames graph).
  eexists _, _; split; [apply stored_graph_saved|].
  split; [reflexivity|]; split.
  { intros e; rewrite negb_true_iff; apply arr_includes_not_In. }
  split; [reflexivity|]; split.
  { intros r; rewrite andb_true_iff, !negb_true_iff.
    rewrite !arr_includes_not_In; reflexivity. }
  intros Hnone; unfold without_entities.
  rewrite !filter_all; [destruct graph; reflexivity | |].
  - intros r Hr; rewrite andb_true_iff, !negb_true_iff.
    rewrite !arr_includes_not_In; split; intros Hin;
      destruct (Hnone _ Hin) as [_ Hrel]; destruct (Hrel r Hr); congruence.
  - intros e He; rewrite negb_true_iff, arr_includes_not_In; intros Hin.
    destruct (Hnone _ Hin) as [Hent _]; apply Hent; exists e; auto.
Qed.

(** C5 at the store of the test suite: deleting the first entity and a name
    that is not stored leaves the second entity and no relation. *)
Lemma deleteEntities_spec_witness :
  stored_graph Examples.small_world = Returned Examples.small_graph
  /\ fst (deleteEntities [lit "ComparisonV3Coordinator"; lit "Nobody"]
            Examples.small_world) = Returned tt
  /\ stored_graph
       (snd (deleteEntities [lit "ComparisonV3Coordinator"; lit "Nobody"]
               Examples.small_world))
     = Returned {| entities := [Examples.budget]; relations := [] |}.
Proof.
  split; [vm_compute; reflexivity|].
  split; [|vm_compute; reflexivity].
  apply (deleteEntities_spec Examples.small_world Examples.small_graph
           [lit "ComparisonV3Coordinator"; lit "Nobody"]).
  vm_compute; reflexivity.
Defined.

End Deletion.

(* ================================================================== *)
(** * Idempotent creation *)
(* ================================================================== *)

Section Idempotence.

Lemma filter_name_absent (es : list Entity) (n : jstring) :
  ~ names_entity es n -> filter (fun x => str_eqb (name x) n) es = [].
Proof.
  intros H; induction es as [|e es IH]; [reflexivity|]; cbn [filter].
  destruct (str_eqb (name e) n) eqn:E.
  - apply str_eqb_eq in E; exfalso; apply H; exists e; split;
      [left; reflexivity | assumption].
  - apply IH; intros (x & Hx & Hn); apply H; exists x; split;
      [right; assumption | assumption].
Qed.

(** C6: for every stored graph and entity [e], when a call
    [createEntities([e])] returns [e] as newly added, a second call returns
    the empty list and writes nothing, and the stored graph is the old one
    with [e] at the end of its entities: [e] as given, and the only entity
    of its name. *)
Theorem createEntities_idempotent (w : world) (graph : KnowledgeGraph)
  (e : Entity) :
  stored_graph w = Returned graph ->
  fst (createEntities [e] w) = Returned [e] ->
  let w1 := snd (createEntities [e] w) in
  let w2 := snd (createEntities [e] w1) in
  fst (createEntities [e] w1) = Returned []
  /\ w2 = w1
  /\ stored_graph w2
     = Returned {| entities := entities graph ++ [e];
                   relations := relations graph |}
  /\ filter (fun x => str_eqb (name x) (name e)) (entities graph ++ [e])
     = [e].
Proof.
  intros H Hadded; cbv zeta.
  rewrite (createEntities_run _ _ _ H) in *; cbn [fst snd] in *.
  unfold new_entities in *; cbn [filter] in *.
  destruct (has_name (entities graph) (name e)) eqn:Hn;
    cbn [negb] in *; [discriminate|].
  set (graph1 := {| entities := entities graph ++ [e];
                    relations := relations graph |}).
  set (w1 := snd (saveGraph graph1 (loaded w))).
  assert (stored_graph w1 = Returned graph1) as H1
    by apply stored_graph_saved.
  assert (names_entity (entities graph1) (name e)) as Hin
    by (exists e; split; [apply in_or_app; right; left|]; reflexivity).
  destruct (createEntities_nothing_new [e] w1 graph1 H1) as [Hrun Hsame];
    [repeat constructor; assumption|].
  rewrite Hrun, (loaded_existing w1 (utf8_text (graph_text graph1)) eq_refl).
  cbn [fst snd]; repeat split; try assumption.
  rewrite filter_app, filter_name_absent by (apply has_name_false; assumption).
  cbn [filter app]; rewrite str_eqb_refl; reflexivity.
Qed.

(** C6 at the empty store and an entity of the test suite. *)
Lemma createEntities_idempotent_witness :
  stored_graph initial_world = Returned empty_graph
  /\ fst (createEntities [Examples.budget] initial_world)
     = Returned [Examples.budget]
  /\ fst (createEntities [Examples.budget]
            (snd (createEntities [Examples.budget] initial_world)))
     = Returned [].
Proof.
  split; [reflexivity|]; split; [vm_compute; reflexivity|].
  apply (createEntities_idempotent initial_world empty_graph Examples.budget);
    vm_compute; reflexivity.
Defined.

End Idempotence.

(* ================================================================== *)
(** * The stored records *)
(* ================================================================== *)

Section Records.

(** C8: for every graph, the file that [saveGraph] wrote is loaded as that
    graph, with the entities (with or without subdomain) and the relations
    in their order, and the load leaves the file as it is; and saving the
    graph that was loaded from a store leaves the stored graph as it
    was. *)
Theorem save_load_roundtrip :
  (forall (graph : KnowledgeGraph) (w : world),
      loadGraph (snd (saveGraph graph w))
      = (Returned graph, snd (saveGraph graph w)))
  /\ (forall w : world,
        match stored_graph w with
        | Returned graph =>
            stored_graph (snd ((graph <- loadGraph ;; saveGraph graph) w))
            = Returned graph
        | Thrown _ => True
        end).
Proof.
  split.
  - intros graph w; rewrite loadGraph_stored, stored_graph_saved.
    rewrite (loaded_existing (snd (saveGraph graph w))
               (utf8_text (graph_text graph)) eq_refl); reflexivity.
  - intros w; destruct (stored_graph w) as [graph|] eqn:H; [|exact I].
    rewrite (bind_loadGraph _ _ _ H); apply stored_graph_saved.
Qed.

(** C9 (as the code has it): the line written for an entity holds the
    members [type], [name], [entityType] and [observations], in this order,
    and after them the member [subdomain] exactly when the entity has a
    subdomain. *)
Theorem entity_line_members (e : Entity) :
  map fst (written_members (entity_line e))
  = [lit "type"; lit "name"; lit "entityType"; lit "observations"]
    ++ match subdomain e with
       | Some _ => [lit "subdomain"]
       | None => []
       end.
Proof.
  unfold written_members, entity_line; rewrite entity_line_parse.
  unfold entity_members; rewrite map_app; destruct (subdomain e); reflexivity.
Qed.

(** C9 fails as stated: the line of an entity without subdomain has no
    member [subdomain]. *)
Lemma entity_line_without_subdomain :
  subdomain Examples.upper = None
  /\ map fst (written_members (entity_line Examples.upper))
     = [lit "type"; lit "name"; lit "entityType"; lit "observations"]
  /\ ~ In (lit "subdomain")
          (map fst (written_members (entity_line Examples.upper))).
Proof.
  split; [reflexivity|]; split; [vm_compute; reflexivity|].
  vm_compute; intros [H|[H|[H|[H|[]]]]]; discriminate.
Qed.

End Records.

(* ================================================================== *)
(** * Observations without repetition *)
(* ================================================================== *)

Section DistinctObservations.

Variable toLowerCase : jstring -> jstring.

Lemma update_found_pointwise (P : Entity -> Prop) (n : jstring)
  (f : Entity -> Entity) (es : list Entity) :
  (forall e, P e -> P (f e)) -> Forall P es -> Forall P (update_found n f es).
Proof.
  intros Hf; induction 1 as [|e es He Hes IH]; [constructor|].
  cbn [update_found]; destruct (str_eqb (name e) n); constructor; auto.
Qed.

Lemma update_found_entity (P : Entity -> Prop) (n : jstring)
  (f : Entity -> Entity) (es : list Entity) (entity : Entity) :
  find_entity es n = Some entity ->
  P (f entity) -> Forall P es -> Forall P (update_found n f es).
Proof.
  unfold find_entity; intros Hfind Hf; induction 1 as [|e es He Hes IH];
    [constructor|].
  cbn [update_found find] in *; destruct (str_eqb (name e) n).
  - injection Hfind as ->; constructor; assumption.
  - constructor; auto.
Qed.

(** The strings that [addObservations] appends are not yet among the
    observations of the entity. *)
Lemma appended_distinct (obs new : list jstring) :
  NoDup obs -> NoDup new ->
  NoDup (obs ++ filter (fun content => negb (arr_includes obs content)) new).
Proof.
  intros Ho Hn; apply NoDup_app; repeat split.
  - assumption.
  - apply NoDup_filter; assumption.
  - intros a Ha Hin; apply filter_In in Hin as [_ Hin].
    apply negb_true_iff, arr_includes_not_In in Hin; contradiction.
Qed.

Lemma add_pass_distinct (items : list ObservationInput) :
  forall (es es' : list Entity) (results : list ObservationResult),
  Forall (fun o => NoDup (contents o)) items ->
  observations_distinct es ->
  add_pass items es = Returned (results, es') ->
  observations_distinct es'.
Proof.
  induction items as [|o items IH]; intros es es' results Hitems Hes Hrun;
    cbn [add_pass] in Hrun.
  - injection Hrun as _ <-; assumption.
  - inversion Hitems as [|? ? Ho Hrest]; subst.
    destruct (find_entity es (entityName o)) as [entity|] eqn:E;
      [|discriminate].
    match type of Hrun with
    | context [add_pass items ?l] =>
        destruct (add_pass items l) as [[rs es'']|] eqn:Hpass;
        [|discriminate];
        injection Hrun as _ <-; apply (IH l es'' rs Hrest); [|exact Hpass]
    end.
    apply (update_found_entity _ _ _ _ entity E); [|assumption].
    cbn [set_observations observations]; apply appended_distinct;
      [|assumption].
    apply find_some in E as [Hin _].
    unfold observations_distinct in Hes; rewrite Forall_forall in Hes.
    apply Hes; assumption.
Qed.

Lemma delete_pass_distinct (deletions : list ObservationDeletion) :
  forall es, observations_distinct es ->
  observations_distinct (delete_pass deletions es).
Proof.
  induction deletions as [|d deletions IH]; intros es Hes; [assumption|].
  cbn [delete_pass]; apply IH, update_found_pointwise; [|assumption].
  intros e He; cbn [set_observations observations].
  apply NoDup_filter; assumption.
Qed.

Lemma filter_distinct (f : Entity -> bool) (es : list Entity) :
  observations_distinct es -> observations_distinct (filter f es).
Proof.
  unfold observations_distinct; rewrite !Forall_forall.
  intros H e He; apply filter_In in He as [He _]; auto.
Qed.

(** One call with such arguments keeps a stored graph without repeated
    observations so. *)
Lemma call_keeps_distinct (c : call) (w : world) (graph : KnowledgeGraph) :
  stored_graph w = Returned graph ->
  observations_distinct (entities graph) ->
  distinct_inputs c ->
  exists graph',
    stored_graph (world_after toLowerCase c w) = Returned graph'
    /\ observations_distinct (entities graph').
Proof.
  intros H Hg Hc.
  assert (stored_graph (loaded w) = Returned graph) as Hl
    by (rewrite stored_graph_loaded; assumption).
  destruct c as [ents|rels|items|names|deletions|rels| |query|names];
    cbn [world_after distinct_inputs] in *.
  - rewrite (createEntities_run _ _ _ H); cbn [snd].
    destruct (new_entities graph ents) as [|e l] eqn:E; [eauto|].
    eexists; split; [apply stored_graph_saved|]; cbn [entities].
    apply Forall_app; split; [assumption|].
    rewrite <- E; apply filter_distinct; assumption.
  - rewrite (createRelations_run _ _ _ H); cbn [snd].
    eexists; split; [apply stored_graph_saved | assumption].
  - rewrite (addObservations_run _ _ _ H).
    destruct (add_pass items (entities graph)) as [[results es]|] eqn:E;
      cbn [snd]; [|eauto].
    eexists; split; [apply stored_graph_saved|]; cbn [entities].
    apply (add_pass_distinct _ _ _ _ Hc Hg E).
  - rewrite (deleteEntities_run _ _ _ H); cbn [snd].
    eexists; split; [apply stored_graph_saved|].
    apply filter_distinct; assumption.
  - rewrite (deleteObservations_run _ _ _ H); cbn [snd].
    eexists; split; [apply stored_graph_saved|].
    apply delete_pass_distinct; assumption.
  - rewrite (deleteRelations_run _ _ _ H); cbn [snd].
    eexists; split; [apply stored_graph_saved | assumption].
  - eauto.
  - rewrite (searchNodes_run _ _ _ _ H); eauto.
  - rewrite (openNodes_run _ _ _ H); eauto.
Qed.

Lemma calls_keep_distinct (calls : list call) :
  forall (w : world) (graph : KnowledgeGraph),
  stored_graph w = Returned graph ->
  observations_distinct (entities graph) ->
  Forall distinct_inputs calls ->
  exists graph',
    stored_graph (run_calls toLowerCase calls w) = Returned graph'
    /\ observations_distinct (entities graph').
Proof.
  induction calls as [|c calls IH]; intros w graph H Hg Hcalls; [eauto|].
  inversion Hcalls as [|? ? Hc Hrest]; subst.
  destruct (call_keeps_distinct c w graph H Hg Hc) as (graph1 & H1 & Hg1).
  apply (IH _ graph1 H1 Hg1 Hrest).
Qed.

(** Where the invariant of distinct observations does hold: in every state
    reached from the empty store by calls in which no entity given to
    [createEntities] repeats a string in its observations and no item given
    to [addObservations] repeats a string in its contents, no entity of the
    stored graph holds an observation twice. *)
Theorem observations_stay_distinct (calls : list call) :
  Forall distinct_inputs calls ->
  exists graph,
    stored_graph (run_calls toLowerCase calls initial_world) = Returned graph
    /\ observations_distinct (entities graph).
Proof.
  apply (calls_keep_distinct calls initial_world empty_graph);
    [reflexivity | constructor].
Qed.

End DistinctObservations.

(** The invariant at a sequence of calls of the test suite's kind. *)
Lemma observations_stay_distinct_witness :
  Forall distinct_inputs
    [CreateEntities [Examples.comparison; Examples.budget];
     AddObservations [{| entityName := lit "BudgetCalculator";
                         contents := [lit "Budget calculation component";
                                      lit "new fact"] |}]]
  /\ exists graph,
       stored_graph
         (run_calls ascii_toLowerCase
            [CreateEntities [Examples.comparison; Examples.budget];
             AddObservations [{| entityName := lit "BudgetCalculator";
                                 contents :=
                                   [lit "Budget calculation component";
                                    lit "new fact"] |}]]
            initial_world) = Returned graph
       /\ observations_distinct (entities graph).
Proof.
  assert (forall a b : jstring, str_eqb a b = false -> NoDup [a; b]) as H2.
  { intros a b E; apply str_eqb_neq in E; repeat constructor;
      [intros [H|[]]; congruence | intros []]. }
  assert (forall a : jstring, NoDup [a]) as H1
    by (intros a; repeat constructor; intros []).
  assert (Forall distinct_inputs
            [CreateEntities [Examples.comparison; Examples.budget];
             AddObservations [{| entityName := lit "BudgetCalculator";
                                 contents :=
                                   [lit "Budget calculation component";
                                    lit "new fact"] |}]]) as Hin.
  { apply Forall_cons; [|apply Forall_cons; [|apply Forall_nil]].
    - apply Forall_cons; [apply H1|].
      apply Forall_cons; [apply H1 | apply Forall_nil].
    - apply Forall_cons; [|apply Forall_nil].
      apply H2; vm_compute; reflexivity. }
  split; [exact Hin|].
  apply (observations_stay_distinct ascii_toLowerCase _ Hin).
Defined.

(** C7 (the code falls short of the claim): [addObservations] compares the
    given contents with the observations that the entity already has (a
    string that is stored is not added again), but not with each other: a
    new string that is twice in one contents list is returned as added
    twice and stored twice.  [createEntities] compares no observations at
    all: an entity created with a repeated observation is stored with
    it. *)
Theorem observations_repeated :
  let x_twice := {| entityName := lit "A"; contents := [lit "x"; lit "x"] |} in
  let w := snd (createEntities [Examples.upper] initial_world) in
  let w' := snd (addObservations [x_twice] w) in
  stored_graph w = Returned {| entities := [Examples.upper]; relations := [] |}
  /\ fst (addObservations [x_twice] w)
     = Returned [{| res_entityName := lit "A";
                    addedObservations := [lit "x"; lit "x"] |}]
  /\ stored_graph w'
     = Returned {| entities :=
                     [set_observations [lit "x"; lit "x"] Examples.upper];
                   relations := [] |}
  /\ fst (addObservations [x_twice] w')
     = Returned [{| res_entityName := lit "A"; addedObservations := [] |}]
  /\ stored_graph (snd (createEntities [Repeats.twice] initial_world))
     = Returned {| entities := [Repeats.twice]; relations := [] |}
  /\ ~ observations_distinct
         [set_observations [lit "x"; lit "x"] Examples.upper]
  /\ ~ observations_distinct [Repeats.twice].
Proof.
  assert (~ NoDup [lit "x"; lit "x"]) as Hx.
  { intros H; inversion H as [|? ? Hnotin _]; apply Hnotin; left;
      reflexivity. }
  cbv zeta; repeat (split; [vm_compute; reflexivity|]).
  split; intros H; inversion H; subst; apply Hx; assumption.
Qed.

(* ================================================================== *)
(** * Names are compared exactly *)
(* ================================================================== *)

Section ExactNames.

Variable toLowerCase : jstring -> jstring.

Lemma filter_none {A} (f : A -> bool) (l : list A) :
  (forall x, In x l -> f x = false) -> filter f l = [].
Proof.
  induction l as [|x l IH]; intros H; [reflexivity|]; cbn [filter].
  rewrite (H x (or_introl eq_refl)); apply IH.
  intros y Hy; apply H; right; assumption.
Qed.

Lemma substring_refl (s : jstring) : substring s s.
Proof. exists [], []; rewrite app_nil_r; reflexivity. Qed.

(** C10: for every stored graph and name [a] that is not exactly the name
    of a stored entity nor an end of a stored relation, whatever entities
    are stored under names that differ from [a] in letter case only:
    [createEntities] adds an entity named [a]; [addObservations] for [a]
    throws the not-found error; [deleteEntities([a])] leaves the stored
    graph as it is; [openNodes([a])] returns no entity and no relation;
    while [searchNodes(a)], when [a] is one keyword, returns every entity
    whose lower-cased name is the lower-cased [a]. *)
Theorem names_compared_exactly (w : world) (graph : KnowledgeGraph)
  (a : jstring) (e : Entity) (c : list jstring) :
  stored_graph w = Returned graph ->
  ~ names_entity (entities graph) a ->
  (forall r, In r (relations graph) -> from r <> a /\ to r <> a) ->
  name e = a ->
  fst (createEntities [e] w) = Returned [e]
  /\ fst (addObservations [{| entityName := a; contents := c |}] w)
     = Thrown (EntityNotFound a)
  /\ stored_graph (snd (deleteEntities [a] w)) = Returned graph
  /\ fst (openNodes [a] w) = Returned {| entities := []; relations := [] |}
  /\ (forall x, In x (entities graph) ->
        toLowerCase (name x) = toLowerCase a ->
        keywords_of toLowerCase a = [toLowerCase a] ->
        exists result,
          fst (searchNodes toLowerCase a w) = Returned result
          /\ In x (entities result)).
Proof.
  intros H Ha Hr He; repeat split.
  - rewrite (createEntities_run _ _ _ H); cbn [fst].
    unfold new_entities; cbn [filter]; rewrite He.
    apply has_name_false in Ha; rewrite Ha; reflexivity.
  - rewrite (addObservations_run _ _ _ H); cbn [add_pass entityName].
    apply find_entity_None in Ha; rewrite Ha; reflexivity.
  - rewrite (deleteEntities_run _ _ _ H); cbn [snd].
    rewrite stored_graph_saved; f_equal; apply without_entities_absent.
    intros n [<-|[]]; split; assumption.
  - rewrite (openNodes_run _ _ _ H); cbn [fst].
    assert (filter (fun x => arr_includes [a] (name x)) (entities graph) = [])
      as ->.
    { apply filter_none; intros x Hx; apply arr_includes_not_In.
      intros [E|[]]; apply Ha; exists x; split; [assumption | congruence]. }
    unfold induced_relations; rewrite filter_none; reflexivity.
  - intros x Hx Hlow Hk.
    rewrite (searchNodes_run _ _ _ _ H), Hk; cbn [fst].
    eexists; split; [reflexivity|]; cbn [entities].
    apply filter_In; split; [assumption|].
    apply entity_matches_spec; exists (toLowerCase a); split;
      [left; reflexivity|].
    left; rewrite Hlow; apply substring_refl.
Qed.

End ExactNames.

(** C10 at the store with the entity [A] and the relation from [A] to
    [A], for the name [a]. *)
Lemma names_compared_exactly_witness :
  stored_graph Examples.upper_world = Returned Examples.upper_graph
  /\ stored_graph (snd (deleteEntities [lit "a"] Examples.upper_world))
     = Returned Examples.upper_graph
  /\ fst (addObservations [{| entityName := lit "a"; contents := [] |}]
            Examples.upper_world)
     = Thrown (EntityNotFound (lit "a"))
  /\ exists result,
       fst (searchNodes ascii_toLowerCase (lit "a") Examples.upper_world)
       = Returned result
       /\ In Examples.upper (entities result).
Proof.
  split; [vm_compute; reflexivity|].
  destruct (names_compared_exactly ascii_toLowerCase Examples.upper_world
              Examples.upper_graph (lit "a")
              {| name := lit "a"; entityType := lit "T"; observations := [];
                 subdomain := None |} [])
    as (_ & Hadd & Hdel & _ & Hsearch).
  - vm_compute; reflexivity.
  - intros (x & [<-|[]] & Hx); vm_compute in Hx; discriminate.
  - intros r [<-|[]]; split; vm_compute; discriminate.
  - reflexivity.
  - split; [exact Hdel|]; split; [exact Hadd|].
    apply (Hsearch Examples.upper);
      [left; reflexivity | vm_compute; reflexivity | vm_compute; reflexivity].
Defined.

(* ================================================================== *)
(** * Sequences of calls *)
(* ================================================================== *)

Section Sequences.

Variable toLowerCase : jstring -> jstring.

Lemma same_relation_eq (a b : Relation) :
  same_relation a b = true <-> triple a = triple b.
Proof.
  unfold same_relation, triple; rewrite !andb_true_iff, !str_eqb_eq.
  split.
  - intros [[-> ->] ->]; reflexivity.
  - intros H; injection H as -> -> ->; auto.
Qed.

Lemma existsb_same_relation (rels : list Relation) (r : Relation) :
  existsb (fun x => same_relation x r) rels = true
  <-> In (triple r) (map triple rels).
Proof.
  rewrite existsb_exists, in_map_iff; split; intros (x & H1 & H2);
    exists x; split; try assumption; apply same_relation_eq; assumption.
Qed.

Lemma existsb_relation_same (rels : list Relation) (r : Relation) :
  existsb (fun x => same_relation r x) rels = true
  <-> In (triple r) (map triple rels).
Proof.
  rewrite existsb_exists, in_map_iff; split.
  - intros (x & Hx & E); exists x; split; [|assumption].
    symmetry; apply same_relation_eq; assumption.
  - intros (x & E & Hx); exists x; split; [assumption|].
    apply same_relation_eq; auto.
Qed.

(** One call on a store that holds a graph leaves a store that holds the
    transformed graph. *)
Lemma stored_after_call (c : call) (w : world) (graph : KnowledgeGraph) :
  stored_graph w = Returned graph ->
  stored_graph (world_after toLowerCase c w)
  = Returned (graph_after c graph).
Proof.
  intros H.
  assert (stored_graph (loaded w) = Returned graph) as Hl
    by (rewrite stored_graph_loaded; assumption).
  destruct c as [ents|rels|items|names|deletions|rels| |query|names];
    cbn [world_after graph_after].
  - rewrite (createEntities_run _ _ _ H); cbn [snd].
    destruct (new_entities graph ents) as [|e l] eqn:E.
    + rewrite app_nil_r, Hl; destruct graph; reflexivity.
    + apply stored_graph_saved.
  - rewrite (createRelations_run _ _ _ H); apply stored_graph_saved.
  - rewrite (addObservations_run _ _ _ H).
    destruct (add_pass items (entities graph)) as [[results es]|];
      [apply stored_graph_saved | exact Hl].
  - rewrite (deleteEntities_run _ _ _ H); apply stored_graph_saved.
  - rewrite (deleteObservations_run _ _ _ H); apply stored_graph_saved.
  - rewrite (deleteRelations_run _ _ _ H); apply stored_graph_saved.
  - exact Hl.
  - rewrite (searchNodes_run _ _ _ _ H); exact Hl.
  - rewrite (openNodes_run _ _ _ H); exact Hl.
Qed.

Lemma run_calls_stored (calls : list call) :
  forall (w : world) (graph : KnowledgeGraph),
  stored_graph w = Returned graph ->
  stored_graph (run_calls toLowerCase calls w)
  = Returned (fold_left (fun g c => graph_after c g) calls graph).
Proof.
  induction calls as [|c calls IH]; intros w graph H; [exact H|].
  cbn [run_calls fold_left]; apply IH, stored_after_call; assumption.
Qed.

(** X1: from a store that holds a graph, every sequence of calls (whatever
    their arguments, and whether or not some of them throw) leaves a store
    that holds a graph again: the one obtained by applying, in order, what
    each call passes to [saveGraph]. *)
Theorem calls_transform_stored_graph (calls : list call) (w : world)
  (graph : KnowledgeGraph) :
  stored_graph w = Returned graph ->
  stored_graph (run_calls toLowerCase calls w)
  = Returned (fold_left (fun g c => graph_after c g) calls graph).
Proof. apply run_calls_stored. Qed.

(** A property of graphs that every permitted call keeps holds after every
    sequence of permitted calls. *)
Lemma calls_keep (P : KnowledgeGraph -> Prop) (permitted : call -> Prop) :
  (forall c g, P g -> permitted c -> P (graph_after c g)) ->
  forall (calls : list call) (w : world) (graph : KnowledgeGraph),
  stored_graph w = Returned graph ->
  P graph ->
  Forall permitted calls ->
  exists graph',
    stored_graph (run_calls toLowerCase calls w) = Returned graph'
    /\ P graph'.
Proof.
  intros Hstep calls w graph H HP Hcalls.
  rewrite (run_calls_stored calls w graph H); eexists; split; [reflexivity|].
  clear H; revert graph HP; induction Hcalls as [|c calls Hc _ IH];
    intros graph HP; [exact HP|].
  cbn [fold_left]; apply IH, Hstep; assumption.
Qed.

Lemma add_pass_names (items : list ObservationInput) :
  forall es es' results,
  add_pass items es = Returned (results, es') ->
  map name es' = map name es.
Proof.
  induction items as [|o items IH]; intros es es' results Hrun;
    cbn [add_pass] in Hrun; [injection Hrun as _ <-; reflexivity|].
  destruct (find_entity es (entityName o)); [|discriminate].
  match type of Hrun with
  | context [add_pass items ?l] =>
      destruct (add_pass items l) as [[rs es'']|] eqn:Hpass; [|discriminate];
      injection Hrun as _ <-; rewrite (IH _ _ _ Hpass)
  end.
  apply update_found_names; intros; reflexivity.
Qed.

Lemma delete_pass_names (deletions : list ObservationDeletion) :
  forall es, map name (delete_pass deletions es) = map name es.
Proof.
  induction deletions as [|d deletions IH]; intros es; [reflexivity|].
  cbn [delete_pass]; rewrite IH.
  apply update_found_names; intros; reflexivity.
Qed.

Lemma filter_distinct_names (keep : Entity -> bool) (es : list Entity) :
  NoDup (map name es) -> NoDup (map name (filter keep es)).
Proof.
  induction es as [|e es IH]; intros H; [constructor|].
  cbn [map filter] in *; inversion H as [|? ? Hnotin Hrest]; subst.
  destruct (keep e); [|auto].
  cbn [map]; constructor; [|auto].
  intros Hin; apply Hnotin; apply in_map_iff in Hin as (x & Hx & Hin).
  apply filter_In in Hin as [Hin _]; apply in_map_iff; eauto.
Qed.

Lemma graph_after_distinct_names (c : call) (graph : KnowledgeGraph) :
  NoDup (map name (entities graph)) ->
  distinct_names c ->
  NoDup (map name (entities (graph_after c graph))).
Proof.
  intros Hg Hc;
    destruct c as [ents|rels|items|names|deletions|rels| |query|names];
    cbn [graph_after distinct_names entities] in *; try assumption.
  - rewrite map_app; apply NoDup_app; repeat split;
      [assumption | apply filter_distinct_names; assumption|].
    intros n Hn Hnew; apply in_map_iff in Hnew as (e & <- & He).
    apply filter_In in He as [_ He]; apply negb_true_iff in He.
    apply has_name_false in He; apply He.
    apply in_map_iff in Hn as (x & Hx & Hin); exists x; auto.
  - destruct (add_pass items (entities graph)) as [[results es]|] eqn:E;
      [|assumption].
    cbn [entities]; rewrite (add_pass_names _ _ _ _ E); assumption.
  - apply filter_distinct_names; assumption.
  - rewrite delete_pass_names; assumption.
Qed.

(** X2: when the stored entities have pairwise distinct names and no list
    given to [createEntities] holds a name twice, the stored entities have
    pairwise distinct names after every sequence of calls. *)
Theorem names_stay_unique (calls : list call) (w : world)
  (graph : KnowledgeGraph) :
  stored_graph w = Returned graph ->
  NoDup (map name (entities graph)) ->
  Forall distinct_names calls ->
  exists graph',
    stored_graph (run_calls toLowerCase calls w) = Returned graph'
    /\ NoDup (map name (entities graph')).
Proof.
  apply (calls_keep (fun g => NoDup (map name (entities g))) distinct_names).
  intros c g; apply graph_after_distinct_names.
Qed.

Lemma filter_distinct_triples (keep : Relation -> bool)
  (rels : list Relation) :
  NoDup (map triple rels) -> NoDup (map triple (filter keep rels)).
Proof.
  induction rels as [|r rels IH]; intros H; [constructor|].
  cbn [map filter] in *; apply NoDup_cons_iff in H as [Hnotin Hrest].
  destruct (keep r); [|auto].
  cbn [map]; apply NoDup_cons; [|auto].
  rewrite in_map_iff; intros (x & Hx & Hin); apply Hnotin.
  apply filter_In in Hin as [Hin _]; rewrite <- Hx; apply in_map; exact Hin.
Qed.

Lemma graph_after_distinct_relations (c : call) (graph : KnowledgeGraph) :
  NoDup (map triple (relations graph)) ->
  distinct_relations c ->
  NoDup (map triple (relations (graph_after c graph))).
Proof.
  intros Hg Hc;
    destruct c as [ents|rels|items|names|deletions|rels| |query|names];
    cbn [graph_after distinct_relations relations] in *; try assumption.
  - rewrite map_app; apply NoDup_app; repeat split;
      [assumption | apply filter_distinct_triples; assumption|].
    intros t Ht Hnew; apply in_map_iff in Hnew as (r & <- & Hnew).
    apply filter_In in Hnew as [_ Hnew]; apply negb_true_iff in Hnew.
    apply existsb_same_relation in Ht; congruence.
  - destruct (add_pass items (entities graph)) as [[results es]|];
      assumption.
  - apply filter_distinct_triples; assumption.
  - apply filter_distinct_triples; assumption.
Qed.

(** X3: when no relation is stored twice and no list given to
    [createRelations] holds a relation twice, no relation (a triple of
    [from], [to] and [relationType], in whatever order the objects hold
    them) is stored twice after every sequence of calls. *)
Theorem relations_stay_unique (calls : list call) (w : world)
  (graph : KnowledgeGraph) :
  stored_graph w = Returned graph ->
  NoDup (map triple (relations graph)) ->
  Forall distinct_relations calls ->
  exists graph',
    stored_graph (run_calls toLowerCase calls w) = Returned graph'
    /\ NoDup (map triple (relations graph')).
Proof.
  apply (calls_keep (fun g => NoDup (map triple (relations g)))
           distinct_relations).
  intros c g; apply graph_after_distinct_relations.
Qed.

End Sequences.

(** X1 at the empty store and three calls, the second of which throws. *)
Lemma calls_transform_stored_graph_witness :
  stored_graph initial_world = Returned empty_graph
  /\ stored_graph
       (run_calls ascii_toLowerCase
          [CreateEntities [Examples.comparison; Examples.budget];
           AddObservations [{| entityName := lit "Nobody";
                               contents := [lit "x"] |}];
           CreateRelations [Examples.uses]] initial_world)
     = Returned Examples.small_graph.
Proof.
  split; [reflexivity|].
  rewrite (calls_transform_stored_graph ascii_toLowerCase _ initial_world
             empty_graph); [vm_compute; reflexivity | reflexivity].
Defined.

(** X2 at the empty store: the same two entities are created twice. *)
Lemma names_stay_unique_witness :
  Forall distinct_names
    [CreateEntities [Examples.comparison; Examples.budget];
     CreateEntities [Examples.budget; Examples.comparison]]
  /\ exists graph',
       stored_graph
         (run_calls ascii_toLowerCase
            [CreateEntities [Examples.comparison; Examples.budget];
             CreateEntities [Examples.budget; Examples.comparison]]
            initial_world) = Returned graph'
       /\ NoDup (map name (entities graph')).
Proof.
  assert (forall a b : jstring, str_eqb a b = false -> NoDup [a; b]) as H2.
  { intros a b E; apply str_eqb_neq in E; repeat constructor;
      [intros [H|[]]; congruence | intros []]. }
  assert (Forall distinct_names
            [CreateEntities [Examples.comparison; Examples.budget];
             CreateEntities [Examples.budget; Examples.comparison]]) as Hin.
  { apply Forall_cons; [|apply Forall_cons; [|apply Forall_nil]];
      apply H2; vm_compute; reflexivity. }
  split; [exact Hin|].
  apply (names_stay_unique ascii_toLowerCase _ initial_world empty_graph);
    [reflexivity | constructor | exact Hin].
Defined.

(** X3 at the empty store: the same relation is created twice, in two
    calls, the second time with its members in another order. *)
Lemma relations_stay_unique_witness :
  Forall distinct_relations
    [CreateRelations [Examples.uses];
     CreateRelations [Examples.uses_to_first]]
  /\ exists graph',
       stored_graph
         (run_calls ascii_toLowerCase
            [CreateRelations [Examples.uses];
             CreateRelations [Examples.uses_to_first]]
            initial_world) = Returned graph'
       /\ NoDup (map triple (relations graph')).
Proof.
  assert (Forall distinct_relations
            [CreateRelations [Examples.uses];
             CreateRelations [Examples.uses_to_first]]) as Hin.
  { apply Forall_cons; [|apply Forall_cons; [|apply Forall_nil]];
      (apply NoDup_cons; [intros [] | apply NoDup_nil]). }
  split; [exact Hin|].
  apply (relations_stay_unique ascii_toLowerCase _ initial_world empty_graph);
    [reflexivity | constructor | exact Hin].
Defined.

(* ================================================================== *)
(** * More on creation *)
(* ================================================================== *)

Section CreationMore.

Lemma loaded_file (w : world) : exists data, file (loaded w) = Some data.
Proof.
  unfold loaded, loadGraph; destruct (file w) as [data|] eqn:E; cbn [snd].
  - exists data; assumption.
  - exists []; reflexivity.
Qed.

Lemma loaded_loaded (w : world) : loaded (loaded w) = loaded w.
Proof.
  destruct (loaded_file w) as [data H]; apply (loaded_existing _ _ H).
Qed.

Lemma record_eta (graph : KnowledgeGraph) :
  {| entities := entities graph; relations := relations graph |} = graph.
Proof. destruct graph; reflexivity. Qed.

(** X4: for every stored graph, [createEntities] returns, in the order
    given, exactly the given entities whose name is not the name of a stored
    entity, and stores them after the old entities: the old entities stay
    where and as they were (none is overwritten by a given entity of its
    name), and the relations stay as they were. *)
Theorem createEntities_appends (w : world) (graph : KnowledgeGraph)
  (ents : list Entity) :
  stored_graph w = Returned graph ->
  exists added keep,
    fst (createEntities ents w) = Returned added
    /\ added = filter keep ents
    /\ (forall e, keep e = true <-> ~ names_entity (entities graph) (name e))
    /\ stored_graph (snd (createEntities ents w))
       = Returned {| entities := entities graph ++ added;
                     relations := relations graph |}.
Proof.
  intros H.
  exists (new_entities graph ents).
  exists (fun e => negb (has_name (entities graph) (name e))).
  split; [rewrite (createEntities_run _ _ _ H); reflexivity|].
  split; [reflexivity|]; split.
  - intros e; rewrite negb_true_iff; apply has_name_false.
  - apply (stored_after_call ascii_toLowerCase (CreateEntities ents) w graph H).
Qed.

(** X4 at the store of the test suite: of a stored and a new entity, the new
    one is added. *)
Lemma createEntities_appends_witness :
  stored_graph Examples.small_world = Returned Examples.small_graph
  /\ exists added keep,
       fst (createEntities [Examples.budget; Examples.upper]
              Examples.small_world) = Returned added
       /\ added = filter keep [Examples.budget; Examples.upper]
       /\ (forall e, keep e = true
                     <-> ~ names_entity (entities Examples.small_graph)
                                        (name e))
       /\ stored_graph (snd (createEntities [Examples.budget; Examples.upper]
                               Examples.small_world))
          = Returned {| entities := entities Examples.small_graph ++ added;
                        relations := relations Examples.small_graph |}.
Proof.
  split; [vm_compute; reflexivity|].
  apply (createEntities_appends Examples.small_world Examples.small_graph).
  vm_compute; reflexivity.
Defined.

Lemma names_after_create (graph : KnowledgeGraph) (ents : list Entity) :
  Forall (fun e => names_entity (entities graph ++ new_entities graph ents)
                                (name e)) ents.
Proof.
  apply Forall_forall; intros e He.
  destruct (has_name (entities graph) (name e)) eqn:E.
  - apply has_name_names in E as (x & Hx & Hn).
    exists x; split; [apply in_or_app; left|]; assumption.
  - exists e; split; [|reflexivity].
    apply in_or_app; right; apply filter_In; split; [assumption|].
    rewrite E; reflexivity.
Qed.

(** X5: for every stored graph and list of entities (with or without names
    that repeat in the list), a second call of [createEntities] with the
    list that a first call was given returns the empty list and leaves the
    file and the log of writes exactly as the first call left them. *)
Theorem createEntities_again (w : world) (graph : KnowledgeGraph)
  (ents : list Entity) :
  stored_graph w = Returned graph ->
  let w1 := snd (createEntities ents w) in
  fst (createEntities ents w1) = Returned []
  /\ snd (createEntities ents w1) = w1.
Proof.
  intros H w1.
  pose proof (stored_after_call ascii_toLowerCase (CreateEntities ents)
                w graph H) as H1.
  cbn [world_after graph_after] in H1; fold w1 in H1.
  destruct (createEntities_nothing_new ents w1 _ H1) as [Hrun Hsame];
    [apply names_after_create|].
  rewrite Hrun; split; [reflexivity|]; cbn [snd].
  assert (exists data, file w1 = Some data) as [data Hd].
  { unfold w1; rewrite (createEntities_run _ _ _ H); cbn [snd].
    destruct (new_entities graph ents);
      [apply loaded_file | eexists; reflexivity]. }
  apply (loaded_existing _ _ Hd).
Qed.

(** X5 at the empty store, with a name twice in the list. *)
Lemma createEntities_again_witness :
  stored_graph initial_world = Returned empty_graph
  /\ fst (createEntities [Examples.upper; Examples.upper]
            (snd (createEntities [Examples.upper; Examples.upper]
                    initial_world)))
     = Returned [].
Proof.
  split; [reflexivity|].
  apply (createEntities_again initial_world empty_graph
           [Examples.upper; Examples.upper]).
  reflexivity.
Defined.

(** X6: for every stored graph, [createRelations] returns, in the order
    given, exactly the given relations that are not stored (with the same
    [from], [to] and [relationType], in whatever order of members), and
    stores them as given after the old relations, which stay as they were,
    as do the entities; whether [from] and [to] name stored entities plays
    no part. *)
Theorem createRelations_appends (w : world) (graph : KnowledgeGraph)
  (rels : list Relation) :
  stored_graph w = Returned graph ->
  exists added keep,
    fst (createRelations rels w) = Returned added
    /\ added = filter keep rels
    /\ (forall r, keep r = true
                  <-> ~ In (triple r) (map triple (relations graph)))
    /\ stored_graph (snd (createRelations rels w))
       = Returned {| entities := entities graph;
                     relations := relations graph ++ added |}.
Proof.
  intros H.
  exists (new_relations graph rels).
  exists (fun r => negb (existsb (fun x => same_relation x r)
                                 (relations graph))).
  split; [rewrite (createRelations_run _ _ _ H); reflexivity|].
  split; [reflexivity|]; split.
  - intros r; rewrite negb_true_iff, <- existsb_same_relation.
    destruct (existsb _ (relations graph)); split; congruence.
  - apply (stored_after_call ascii_toLowerCase (CreateRelations rels)
             w graph H).
Qed.

(** X6 at the empty store: a relation between names of no entity, given
    with [to] as its first member, is stored so. *)
Lemma createRelations_appends_witness :
  stored_graph initial_world = Returned empty_graph
  /\ stored_graph
       (snd (createRelations [Examples.uses_to_first] initial_world))
     = Returned {| entities := []; relations := [Examples.uses_to_first] |}.
Proof.
  split; [reflexivity|].
  destruct (createRelations_appends initial_world empty_graph
              [Examples.uses_to_first])
    as (added & keep & Hret & Hadded & _ & Hstored); [reflexivity|].
  rewrite Hstored; vm_compute in Hret; injection Hret as <-; reflexivity.
Defined.

Lemma new_relations_after_create (graph : KnowledgeGraph)
  (rels : list Relation) :
  new_relations
    {| entities := entities graph;
       relations := relations graph ++ new_relations graph rels |} rels
  = [].
Proof.
  unfold new_relations at 1; cbn [relations].
  apply filter_none; intros r Hr; apply negb_false_iff.
  apply existsb_same_relation; rewrite map_app; apply in_or_app.
  destruct (existsb (fun x => same_relation x r) (relations graph)) eqn:E.
  - left; apply existsb_same_relation; assumption.
  - right; apply in_map, filter_In; split; [assumption|].
    rewrite E; reflexivity.
Qed.

(** X7: for every stored graph and list of relations, a second call of
    [createRelations] with the list that a first call was given returns the
    empty list and leaves the stored graph and the text of the file as the
    first call left them (the file is written once more, with the same
    text). *)
Theorem createRelations_again (w : world) (graph : KnowledgeGraph)
  (rels : list Relation) :
  stored_graph w = Returned graph ->
  let w1 := snd (createRelations rels w) in
  fst (createRelations rels w1) = Returned []
  /\ file (snd (createRelations rels w1)) = file w1
  /\ stored_graph (snd (createRelations rels w1)) = stored_graph w1.
Proof.
  intros H w1.
  pose proof (stored_after_call ascii_toLowerCase (CreateRelations rels)
                w graph H) as H1.
  cbn [world_after graph_after] in H1; fold w1 in H1.
  assert (file w1
          = Some (utf8_text
                    (graph_text
                       {| entities := entities graph;
                          relations :=
                            relations graph ++ new_relations graph rels |})))
    as Hfile by (unfold w1; rewrite (createRelations_run _ _ _ H);
                 reflexivity).
  rewrite (createRelations_run _ _ _ H1), new_relations_after_create.
  cbn [fst snd relations entities]; rewrite app_nil_r.
  split; [reflexivity|]; split.
  - rewrite Hfile; reflexivity.
  - rewrite stored_graph_saved, H1; reflexivity.
Qed.

(** X7 at the store of the test suite. *)
Lemma createRelations_again_witness :
  stored_graph Examples.small_world = Returned Examples.small_graph
  /\ fst (createRelations [Examples.uses]
            (snd (createRelations [Examples.uses] Examples.small_world)))
     = Returned [].
Proof.
  split; [vm_compute; reflexivity|].
  apply (createRelations_again Examples.small_world Examples.small_graph
           [Examples.uses]).
  vm_compute; reflexivity.
Defined.

End CreationMore.

(* ================================================================== *)
(** * More on deletion *)
(* ================================================================== *)

Section DeletionMore.

Lemma filter_idem {A} (f : A -> bool) (l : list A) :
  filter f (filter f l) = filter f l.
Proof.
  apply filter_all; intros x Hx; apply filter_In in Hx as [_ Hx]; exact Hx.
Qed.

Lemma existsb_relation_not_In (rels : list Relation) (r : Relation) :
  negb (existsb (fun x => same_relation r x) rels) = true
  <-> ~ In (triple r) (map triple rels).
Proof.
  rewrite negb_true_iff, <- existsb_relation_same.
  destruct (existsb _ rels); split; congruence.
Qed.

(** X8: for every stored graph, [deleteRelations] succeeds and stores the
    graph with the same entities and, in their old order, exactly the old
    relations that are none of the given ones (same [from], [to] and
    [relationType], in whatever order of members); a given relation that is
    not stored is no error. *)
Theorem deleteRelations_spec (w : world) (graph : KnowledgeGraph)
  (rels : list Relation) :
  stored_graph w = Returned graph ->
  fst (deleteRelations rels w) = Returned tt
  /\ exists keep,
       stored_graph (snd (deleteRelations rels w))
       = Returned {| entities := entities graph;
                     relations := filter keep (relations graph) |}
       /\ (forall r, keep r = true <-> ~ In (triple r) (map triple rels)).
Proof.
  intros H; rewrite (deleteRelations_run _ _ _ H); cbn [fst snd].
  split; [reflexivity|].
  eexists; split; [apply stored_graph_saved|].
  apply existsb_relation_not_In.
Qed.

(** X8 at the store of the test suite: of a stored relation (given with
    its members in another order than it is stored with) and one that is not
    stored, the stored one is removed. *)
Lemma deleteRelations_spec_witness :
  stored_graph Examples.small_world = Returned Examples.small_graph
  /\ fst (deleteRelations [Examples.upper_loop; Examples.uses_to_first]
            Examples.small_world) = Returned tt
  /\ stored_graph
       (snd (deleteRelations [Examples.upper_loop; Examples.uses_to_first]
               Examples.small_world))
     = Returned {| entities := entities Examples.small_graph;
                   relations := [] |}.
Proof.
  split; [vm_compute; reflexivity|].
  split; [|vm_compute; reflexivity].
  apply (deleteRelations_spec Examples.small_world Examples.small_graph
           [Examples.upper_loop; Examples.uses_to_first]).
  vm_compute; reflexivity.
Defined.

Lemma delete_new_relations (graph : KnowledgeGraph) (rels : list Relation) :
  filter (fun r => negb (existsb (fun x => same_relation r x) rels))
         (relations graph ++ new_relations graph rels)
  = filter (fun r => negb (existsb (fun x => same_relation r x) rels))
           (relations graph).
Proof.
  rewrite filter_app, (filter_none _ (new_relations graph rels));
    [apply app_nil_r|].
  intros r Hr; apply filter_In in Hr as [Hr _].
  apply negb_false_iff, existsb_relation_same, in_map; assumption.
Qed.

(** X9: for every stored graph, [deleteRelations] after [createRelations]
    of the same list leaves the stored graph that [deleteRelations] alone
    leaves; when none of the relations was stored before, this is the graph
    from before the two calls. *)
Theorem createRelations_then_delete (w : world) (graph : KnowledgeGraph)
  (rels : list Relation) :
  stored_graph w = Returned graph ->
  stored_graph (snd (deleteRelations rels (snd (createRelations rels w))))
  = stored_graph (snd (deleteRelations rels w))
  /\ ((forall r, In r rels ->
         ~ In (triple r) (map triple (relations graph))) ->
      stored_graph (snd (deleteRelations rels (snd (createRelations rels w))))
      = Returned graph).
Proof.
  intros H.
  pose proof (stored_after_call ascii_toLowerCase (CreateRelations rels)
                w graph H) as H1.
  cbn [world_after graph_after] in H1.
  rewrite (deleteRelations_run _ _ _ H1), (deleteRelations_run _ _ _ H).
  cbn [snd entities relations]; rewrite !stored_graph_saved.
  rewrite delete_new_relations; split; [reflexivity|].
  intros Hnew; rewrite filter_all; [rewrite record_eta; reflexivity|].
  intros r Hr; apply existsb_relation_not_In; intros Hin.
  apply in_map_iff in Hin as (x & Hx & Hin).
  apply (Hnew x Hin); rewrite Hx; apply in_map; exact Hr.
Qed.

(** X9 at the store with the two entities and no relation. *)
Lemma createRelations_then_delete_witness :
  stored_graph (snd (createEntities [Examples.comparison; Examples.budget]
                       initial_world))
  = Returned {| entities := [Examples.comparison; Examples.budget];
                relations := [] |}
  /\ stored_graph
       (snd (deleteRelations [Examples.uses]
               (snd (createRelations [Examples.uses]
                       (snd (createEntities
                               [Examples.comparison; Examples.budget]
                               initial_world))))))
     = Returned {| entities := [Examples.comparison; Examples.budget];
                   relations := [] |}.
Proof.
  split; [vm_compute; reflexivity|].
  apply (createRelations_then_delete
           (snd (createEntities [Examples.comparison; Examples.budget]
                   initial_world))
           {| entities := [Examples.comparison; Examples.budget];
              relations := [] |} [Examples.uses]);
    [vm_compute; reflexivity | intros r _ []].
Defined.

Lemma delete_new_entities (graph : KnowledgeGraph) (ents : list Entity) :
  without_entities (map name ents)
    {| entities := entities graph ++ new_entities graph ents;
       relations := relations graph |}
  = without_entities (map name ents) graph.
Proof.
  unfold without_entities; cbn [entities relations]; f_equal.
  rewrite filter_app, (filter_none _ (new_entities graph ents));
    [apply app_nil_r|].
  intros e He; apply filter_In in He as [He _].
  apply negb_false_iff, arr_includes_In, in_map; assumption.
Qed.

(** X10: for every stored graph, [deleteEntities] of the names of a list of
    entities after [createEntities] of that list leaves the stored graph
    that this [deleteEntities] alone leaves: the created entities are gone,
    and so are the stored entities of these names and the relations from or
    to them; when the names occur nowhere in the graph, this is the graph
    from before the two calls. *)
Theorem createEntities_then_delete (w : world) (graph : KnowledgeGraph)
  (ents : list Entity) :
  stored_graph w = Returned graph ->
  stored_graph (snd (deleteEntities (map name ents)
                       (snd (createEntities ents w))))
  = Returned (without_entities (map name ents) graph)
  /\ ((forall n, In n (map name ents) ->
         ~ names_entity (entities graph) n
         /\ forall r, In r (relations graph) -> from r <> n /\ to r <> n) ->
      stored_graph (snd (deleteEntities (map name ents)
                           (snd (createEntities ents w))))
      = Returned graph).
Proof.
  intros H.
  pose proof (stored_after_call ascii_toLowerCase (CreateEntities ents)
                w graph H) as H1.
  cbn [world_after graph_after] in H1.
  rewrite (deleteEntities_run _ _ _ H1); cbn [snd].
  rewrite stored_graph_saved, delete_new_entities; split; [reflexivity|].
  intros Hnone; rewrite without_entities_absent; [reflexivity | assumption].
Qed.

(** X10 at the store of the test suite and a new entity. *)
Lemma createEntities_then_delete_witness :
  stored_graph Examples.small_world = Returned Examples.small_graph
  /\ stored_graph (snd (deleteEntities (map name [Examples.upper])
                          (snd (createEntities [Examples.upper]
                                  Examples.small_world))))
     = Returned Examples.small_graph.
Proof.
  split; [vm_compute; reflexivity|].
  apply (createEntities_then_delete Examples.small_world Examples.small_graph
           [Examples.upper]); [vm_compute; reflexivity|].
  intros n [<-|[]]; split.
  - intros (e & [<-|[<-|[]]] & He); vm_compute in He; discriminate.
  - intros r [<-|[]]; split; vm_compute; discriminate.
Defined.

End DeletionMore.

(* ================================================================== *)
(** * Deleting observations *)
(* ================================================================== *)

Section DeleteObservations.

Lemma on_firsts_ext (F G : Entity -> Entity) (es : list Entity) :
  (forall e, F e = G e) ->
  forall seen, on_firsts seen F es = on_firsts seen G es.
Proof.
  intros HFG; induction es as [|e es IH]; intros seen; [reflexivity|].
  cbn [on_firsts]; rewrite HFG, IH; reflexivity.
Qed.

Lemma on_firsts_names (F : Entity -> Entity) (es : list Entity) :
  (forall e, name (F e) = name e) ->
  forall seen, map name (on_firsts seen F es) = map name es.
Proof.
  intros HF; induction es as [|e es IH]; intros seen; [reflexivity|].
  cbn [on_firsts map]; rewrite IH; f_equal.
  destruct (arr_includes seen (name e)); [reflexivity | apply HF].
Qed.

Lemma on_firsts_compose (F G : Entity -> Entity) (es : list Entity) :
  (forall e, name (G e) = name e) ->
  forall seen,
  on_firsts seen F (on_firsts seen G es)
  = on_firsts seen (fun e => F (G e)) es.
Proof.
  intros HG; induction es as [|e es IH]; intros seen; [reflexivity|].
  cbn [on_firsts].
  destruct (arr_includes seen (name e)) eqn:E.
  - rewrite E, IH; reflexivity.
  - rewrite HG, E, IH; reflexivity.
Qed.

(** Nothing changes where [F] changes only entities whose name was seen. *)
Lemma on_firsts_seen (F : Entity -> Entity) (es : list Entity) :
  forall seen,
  (forall e, arr_includes seen (name e) = false -> F e = e) ->
  on_firsts seen F es = es.
Proof.
  induction es as [|e es IH]; intros seen HF; [reflexivity|].
  cbn [on_firsts]; rewrite IH.
  - destruct (arr_includes seen (name e)) eqn:E;
      [reflexivity | rewrite HF by assumption; reflexivity].
  - intros x Hx; apply HF.
    cbn [arr_includes existsb] in Hx; apply orb_false_iff in Hx; tauto.
Qed.

(** The assignment to the entity that [find] returned, as a change of the
    first entity of that name. *)
Lemma update_found_on_firsts (n : jstring) (f : Entity -> Entity)
  (es : list Entity) :
  forall seen,
  arr_includes seen n = false ->
  update_found n f es
  = on_firsts seen (fun e => if str_eqb (name e) n then f e else e) es.
Proof.
  induction es as [|e es IH]; intros seen Hn; [reflexivity|].
  cbn [update_found on_firsts].
  destruct (str_eqb (name e) n) eqn:E.
  - apply str_eqb_eq in E; rewrite E, Hn; f_equal.
    symmetry; apply on_firsts_seen; intros x Hx.
    cbn [arr_includes existsb] in Hx; apply orb_false_iff in Hx as [Hx _].
    rewrite str_eqb_sym, Hx; reflexivity.
  - rewrite (IH (name e :: seen));
      [destruct (arr_includes seen (name e)); reflexivity|].
    cbn [arr_includes existsb]; apply orb_false_iff; split; assumption.
Qed.

Lemma filter_filter {A} (f g : A -> bool) (l : list A) :
  filter f (filter g l) = filter (fun x => g x && f x) l.
Proof.
  induction l as [|x l IH]; [reflexivity|]; cbn [filter].
  destruct (g x); cbn [filter andb]; [destruct (f x)|]; rewrite IH;
    reflexivity.
Qed.

Lemma strip_cons (d : ObservationDeletion)
  (deletions : list ObservationDeletion) (e : Entity) :
  strip deletions
    (if str_eqb (name e) (del_entityName d)
     then set_observations
            (filter (fun o => negb (arr_includes (del_observations d) o))
                    (observations e)) e
     else e)
  = strip (d :: deletions) e.
Proof.
  unfold strip, listed; cbn [existsb].
  rewrite (str_eqb_sym (del_entityName d) (name e)).
  destruct (str_eqb (name e) (del_entityName d)) eqn:E.
  - unfold set_observations; cbn [name observations entityType subdomain].
    rewrite filter_filter; f_equal.
    apply filter_ext; intros o; cbn [andb].
    rewrite negb_orb; reflexivity.
  - reflexivity.
Qed.

(** The pass of [deleteObservations] strips every entity that is the first
    of its name. *)
Lemma delete_pass_on_firsts (deletions : list ObservationDeletion) :
  forall es, delete_pass deletions es = on_firsts [] (strip deletions) es.
Proof.
  induction deletions as [|d deletions IH]; intros es.
  - cbn [delete_pass]; symmetry.
    rewrite (on_firsts_ext _ (fun e => e));
      [apply on_firsts_seen; reflexivity|].
    intros e; unfold strip, listed; cbn [existsb negb].
    rewrite filter_all by reflexivity; destruct e; reflexivity.
  - cbn [delete_pass].
    rewrite IH, (update_found_on_firsts _ _ es []) by reflexivity.
    rewrite on_firsts_compose
      by (intros e; destruct (str_eqb (name e) (del_entityName d));
          reflexivity).
    apply on_firsts_ext; intros e; apply strip_cons.
Qed.

Lemma on_firsts_distinct (F : Entity -> Entity) (es : list Entity) :
  forall seen,
  NoDup (seen ++ map name es) ->
  on_firsts seen F es = map F es.
Proof.
  induction es as [|e es IH]; intros seen Hnd; [reflexivity|].
  cbn [on_firsts map] in *.
  assert (arr_includes seen (name e) = false) as ->.
  { apply arr_includes_not_In; intros Hin.
    apply NoDup_remove_2 in Hnd; apply Hnd, in_or_app; left; assumption. }
  f_equal; apply IH.
  apply NoDup_remove in Hnd as [Hnd Hnotin]; cbn [app].
  constructor; assumption.
Qed.

Lemma strip_idem (deletions : list ObservationDeletion) (e : Entity) :
  strip deletions (strip deletions e) = strip deletions e.
Proof.
  unfold strip, set_observations;
    cbn [name observations entityType subdomain].
  rewrite filter_idem; reflexivity.
Qed.

Lemma listed_spec (deletions : list ObservationDeletion) (n o : jstring) :
  listed deletions n o = true
  <-> exists d, In d deletions /\ del_entityName d = n
                /\ In o (del_observations d).
Proof.
  unfold listed; rewrite existsb_exists; split.
  - intros (d & Hd & E); apply andb_true_iff in E as [E1 E2].
    apply str_eqb_eq in E1; apply arr_includes_In in E2; eauto.
  - intros (d & Hd & E1 & E2); exists d; split; [assumption|].
    apply andb_true_iff; split;
      [apply str_eqb_eq | apply arr_includes_In]; assumption.
Qed.

(** X11: for every stored graph whose entities have pairwise distinct
    names, [deleteObservations] succeeds (also for items that name no stored
    entity) and stores the graph in which every entity keeps, in their old
    order, exactly its observations that no given item of its name lists,
    with name, type, subdomain, the order of the entities and the relations
    as they were. *)
Theorem deleteObservations_spec (w : world) (graph : KnowledgeGraph)
  (deletions : list ObservationDeletion) :
  stored_graph w = Returned graph ->
  NoDup (map name (entities graph)) ->
  fst (deleteObservations deletions w) = Returned tt
  /\ exists keep,
       stored_graph (snd (deleteObservations deletions w))
       = Returned
           {| entities :=
                map (fun e => set_observations
                                (filter (keep e) (observations e)) e)
                    (entities graph);
              relations := relations graph |}
       /\ (forall e o,
             keep e o = true
             <-> ~ exists d, In d deletions
                             /\ del_entityName d = name e
                             /\ In o (del_observations d)).
Proof.
  intros H Hnd; rewrite (deleteObservations_run _ _ _ H); cbn [fst snd].
  split; [reflexivity|].
  exists (fun e o => negb (listed deletions (name e) o)); split.
  - rewrite stored_graph_saved, delete_pass_on_firsts.
    rewrite on_firsts_distinct by assumption; reflexivity.
  - intros e o; rewrite negb_true_iff, <- listed_spec.
    destruct (listed deletions (name e) o); split; congruence.
Qed.

(** X11 at the store of the test suite: one item for a stored entity, one
    for a name that is not stored. *)
Lemma deleteObservations_spec_witness :
  stored_graph Examples.small_world = Returned Examples.small_graph
  /\ NoDup (map name (entities Examples.small_graph))
  /\ fst (deleteObservations
            [{| del_entityName := lit "BudgetCalculator";
                del_observations := [lit "Budget calculation component"] |};
             {| del_entityName := lit "Nobody";
                del_observations := [lit "x"] |}]
            Examples.small_world) = Returned tt.
Proof.
  assert (NoDup (map name (entities Examples.small_graph))) as Hnd.
  { repeat constructor; [|intros []].
    intros [H|[]]; vm_compute in H; discriminate. }
  split; [vm_compute; reflexivity|]; split; [exact Hnd|].
  apply (deleteObservations_spec Examples.small_world Examples.small_graph);
    [vm_compute; reflexivity | exact Hnd].
Defined.

(** X12: for every stored graph, each of [deleteEntities],
    [deleteObservations] and [deleteRelations] called a second time with the
    same argument leaves the stored graph as the first call left it. *)
Theorem deletions_again (w : world) (graph : KnowledgeGraph)
  (entityNames : list jstring) (deletions : list ObservationDeletion)
  (rels : list Relation) :
  stored_graph w = Returned graph ->
  stored_graph (snd (deleteEntities entityNames
                       (snd (deleteEntities entityNames w))))
  = stored_graph (snd (deleteEntities entityNames w))
  /\ stored_graph (snd (deleteObservations deletions
                          (snd (deleteObservations deletions w))))
     = stored_graph (snd (deleteObservations deletions w))
  /\ stored_graph (snd (deleteRelations rels (snd (deleteRelations rels w))))
     = stored_graph (snd (deleteRelations rels w)).
Proof.
  intros H; repeat split.
  - pose proof (stored_after_call ascii_toLowerCase
                  (DeleteEntities entityNames) w graph H) as H1.
    cbn [world_after graph_after] in H1.
    rewrite (deleteEntities_run _ _ _ H1), H1; cbn [snd].
    rewrite stored_graph_saved; f_equal.
    unfold without_entities; cbn [entities relations].
    rewrite !filter_idem; reflexivity.
  - pose proof (stored_after_call ascii_toLowerCase
                  (DeleteObservations deletions) w graph H) as H1.
    cbn [world_after graph_after] in H1.
    rewrite (deleteObservations_run _ _ _ H1), H1; cbn [snd].
    rewrite stored_graph_saved; cbn [entities relations]; do 2 f_equal.
    rewrite !delete_pass_on_firsts.
    rewrite on_firsts_compose by reflexivity.
    apply on_firsts_ext, strip_idem.
  - pose proof (stored_after_call ascii_toLowerCase
                  (DeleteRelations rels) w graph H) as H1.
    cbn [world_after graph_after] in H1.
    rewrite (deleteRelations_run _ _ _ H1), H1; cbn [snd].
    rewrite stored_graph_saved; cbn [entities relations].
    rewrite filter_idem; reflexivity.
Qed.

(** X12 at the store of the test suite. *)
Lemma deletions_again_witness :
  stored_graph Examples.small_world = Returned Examples.small_graph
  /\ stored_graph
       (snd (deleteEntities [lit "BudgetCalculator"]
               (snd (deleteEntities [lit "BudgetCalculator"]
                       Examples.small_world))))
     = stored_graph (snd (deleteEntities [lit "BudgetCalculator"]
                            Examples.small_world)).
Proof.
  split; [vm_compute; reflexivity|].
  apply (deletions_again Examples.small_world Examples.small_graph
           [lit "BudgetCalculator"] [] []).
  vm_compute; reflexivity.
Defined.

End DeleteObservations.

(* ================================================================== *)
(** * Adding observations *)
(* ================================================================== *)

Section AddObservations.

Lemma extends_refl (e : Entity) : extends e e.
Proof.
  repeat split; exists []; rewrite app_nil_r; reflexivity.
Qed.

Lemma extends_trans (a b c : Entity) :
  extends a b -> extends b c -> extends a c.
Proof.
  intros (N1 & T1 & S1 & x & O1) (N2 & T2 & S2 & y & O2).
  repeat split; try congruence.
  exists (x ++ y); rewrite O2, O1, app_assoc; reflexivity.
Qed.

Lemma all_extend_refl (es : list Entity) : Forall2 extends es es.
Proof. induction es; constructor; [apply extends_refl | assumption]. Qed.

Lemma all_extend_trans (a b c : list Entity) :
  Forall2 extends a b -> Forall2 extends b c -> Forall2 extends a c.
Proof.
  intros H; revert c; induction H as [|x y a b Hxy _ IH]; intros c Hc;
    inversion Hc; subst; constructor; eauto using extends_trans.
Qed.

Lemma update_found_extends (n : jstring) (f : Entity -> Entity)
  (es : list Entity) :
  (forall e, extends e (f e)) -> Forall2 extends es (update_found n f es).
Proof.
  intros Hf; induction es as [|e es IH]; [constructor|].
  cbn [update_found]; destruct (str_eqb (name e) n); constructor;
    auto using extends_refl, all_extend_refl.
Qed.

Lemma find_extends (es es' : list Entity) (n : jstring) (e : Entity) :
  Forall2 extends es es' ->
  find_entity es n = Some e ->
  exists e', find_entity es' n = Some e' /\ extends e e'.
Proof.
  unfold find_entity; induction 1 as [|x y es es' Hxy _ IH]; intros Hfind;
    [discriminate|].
  cbn [find] in *; destruct Hxy as (N & Hrest); rewrite N.
  destruct (str_eqb (name x) n).
  - injection Hfind as <-; exists y; split; [reflexivity|].
    split; assumption.
  - apply IH; assumption.
Qed.

Lemma update_found_find (n : jstring) (f : Entity -> Entity)
  (es : list Entity) (e : Entity) :
  (forall x, name (f x) = name x) ->
  find_entity es n = Some e ->
  find_entity (update_found n f es) n = Some (f e).
Proof.
  unfold find_entity; intros Hf; induction es as [|x es IH]; intros Hfind;
    [discriminate|].
  cbn [find update_found] in *; destruct (str_eqb (name x) n) eqn:E.
  - injection Hfind as <-; cbn [find]; rewrite Hf, E; reflexivity.
  - cbn [find]; rewrite E; apply IH; assumption.
Qed.

Lemma find_entity_stored (es : list Entity) (n : jstring) :
  names_entity es n -> exists e, find_entity es n = Some e.
Proof.
  intros H; destruct (find_entity es n) as [e|] eqn:E; [eauto|].
  apply find_entity_None in E; contradiction.
Qed.

Lemma filter_or_present (obs cs : list jstring) (c : jstring) :
  In c cs ->
  In c (obs ++ filter (fun content => negb (arr_includes obs content)) cs).
Proof.
  intros Hc; apply in_or_app.
  destruct (arr_includes obs c) eqn:E.
  - left; apply arr_includes_In; assumption.
  - right; apply filter_In; split; [assumption | rewrite E; reflexivity].
Qed.

(** The pass of [addObservations] over items that all name stored
    entities. *)
Lemma add_pass_grows (items : list ObservationInput) :
  forall es,
  Forall (fun o => names_entity es (entityName o)) items ->
  exists results es',
    add_pass items es = Returned (results, es')
    /\ map res_entityName results = map entityName items
    /\ Forall2 extends es es'
    /\ forall o, In o items ->
         exists e', find_entity es' (entityName o) = Some e'
                    /\ forall c, In c (contents o) ->
                                 In c (observations e').
Proof.
  induction items as [|o items IH]; intros es Hall.
  - exists [], es; repeat split; [apply all_extend_refl | intros o []].
  - inversion Hall as [|? ? Ho Hrest]; subst.
    destruct (find_entity_stored _ _ Ho) as [entity Hfind].
    cbn [add_pass]; rewrite Hfind.
    set (new := filter (fun content =>
                          negb (arr_includes (observations entity) content))
                       (contents o)).
    set (grow := fun e => set_observations (observations e ++ new) e).
    set (es1 := update_found (entityName o) grow es).
    assert (forall e, extends e (grow e)) as Hgrow
      by (intros e; repeat split; exists new; reflexivity).
    assert (Forall2 extends es es1) as H01
      by (apply update_found_extends; assumption).
    destruct (IH es1) as (results & es' & Hrun & Hnames & H1 & Hin).
    { eapply Forall_impl; [|exact Hrest]; intros a Ha.
      apply (names_entity_map es es1); [|assumption].
      symmetry; apply update_found_names; intros; reflexivity. }
    rewrite Hrun; eexists _, es'; split; [reflexivity|].
    split; [cbn [map res_entityName]; rewrite Hnames; reflexivity|].
    split; [apply (all_extend_trans _ es1); assumption|].
    intros o' [<-|Ho']; [|apply Hin; assumption].
    assert (find_entity es1 (entityName o) = Some (grow entity)) as Hf1
      by (apply update_found_find; [reflexivity | assumption]).
    destruct (find_extends _ _ _ _ H1 Hf1) as (e' & He' & _ & _ & _ & x & Hx).
    exists e'; split; [assumption|].
    intros c Hc; rewrite Hx; apply in_or_app; left.
    cbn [grow set_observations observations]; apply filter_or_present.
    assumption.
Qed.

(** X13: for every stored graph and batch of [addObservations] whose items
    all name stored entities, the call returns one result per item, in
    order and under the item's [entityName]; in the stored graph afterwards
    the entities are the old ones in their order, each with its name, type,
    subdomain and old observations followed by what was added, the
    relations are as they were, and every string of an item's contents is
    an observation of the (first) entity of the item's name. *)
Theorem addObservations_grows (w : world) (graph : KnowledgeGraph)
  (items : list ObservationInput) :
  stored_graph w = Returned graph ->
  Forall (fun o => names_entity (entities graph) (entityName o)) items ->
  exists results graph',
    fst (addObservations items w) = Returned results
    /\ stored_graph (snd (addObservations items w)) = Returned graph'
    /\ map res_entityName results = map entityName items
    /\ relations graph' = relations graph
    /\ Forall2 extends (entities graph) (entities graph')
    /\ forall o, In o items ->
         exists e', find_entity (entities graph') (entityName o) = Some e'
                    /\ forall c, In c (contents o) ->
                                 In c (observations e').
Proof.
  intros H Hall.
  destruct (add_pass_grows items (entities graph) Hall)
    as (results & es' & Hrun & Hnames & Hext & Hin).
  rewrite (addObservations_run _ _ _ H), Hrun; cbn [fst snd].
  exists results, {| entities := es'; relations := relations graph |}.
  split; [reflexivity|]; split; [apply stored_graph_saved|].
  repeat split; assumption.
Qed.

(** X13 at the store of the test suite. *)
Lemma addObservations_grows_witness :
  stored_graph Examples.small_world = Returned Examples.small_graph
  /\ exists results graph',
       fst (addObservations
              [{| entityName := lit "BudgetCalculator";
                  contents := [lit "new fact"] |}]
              Examples.small_world) = Returned results
       /\ stored_graph
            (snd (addObservations
                    [{| entityName := lit "BudgetCalculator";
                        contents := [lit "new fact"] |}]
                    Examples.small_world)) = Returned graph'
       /\ map res_entityName results = [lit "BudgetCalculator"].
Proof.
  split; [vm_compute; reflexivity|].
  destruct (addObservations_grows Examples.small_world Examples.small_graph
              [{| entityName := lit "BudgetCalculator";
                  contents := [lit "new fact"] |}])
    as (results & graph' & Hr & Hs & Hn & _).
  - vm_compute; reflexivity.
  - apply Forall_cons; [|apply Forall_nil].
    exists Examples.budget; split; [right; left|]; reflexivity.
  - exists results, graph'; repeat split; assumption.
Defined.

Lemma set_observations_same (e : Entity) :
  set_observations (observations e) e = e.
Proof. destruct e; reflexivity. Qed.

Lemma update_found_id (n : jstring) (f : Entity -> Entity)
  (es : list Entity) :
  (forall e, f e = e) -> update_found n f es = es.
Proof.
  intros Hf; induction es as [|e es IH]; [reflexivity|].
  cbn [update_found]; destruct (str_eqb (name e) n);
    [rewrite Hf | rewrite IH]; reflexivity.
Qed.

Lemma update_found_fix (n : jstring) (f : Entity -> Entity)
  (es : list Entity) (entity : Entity) :
  find_entity es n = Some entity -> f entity = entity ->
  update_found n f es = es.
Proof.
  unfold find_entity; intros Hfind Hf; induction es as [|e es IH];
    [reflexivity|].
  cbn [update_found find] in *; destruct (str_eqb (name e) n).
  - injection Hfind as ->; rewrite Hf; reflexivity.
  - rewrite IH by assumption; reflexivity.
Qed.

(** The pass of [addObservations] over items whose contents the entities
    already hold adds nothing. *)
Lemma add_pass_present (items : list ObservationInput) (es : list Entity) :
  (forall o, In o items ->
     exists e, find_entity es (entityName o) = Some e
               /\ forall c, In c (contents o) -> In c (observations e)) ->
  add_pass items es
  = Returned (map (fun o => {| res_entityName := entityName o;
                               addedObservations := [] |}) items, es).
Proof.
  induction items as [|o items IH]; intros Hall; [reflexivity|].
  destruct (Hall o (or_introl eq_refl)) as (e & Hfind & Hin).
  cbn [add_pass]; rewrite Hfind.
  rewrite (filter_none _ (contents o)).
  - rewrite update_found_id.
    + rewrite IH by (intros; apply Hall; right; assumption); reflexivity.
    + intros x; rewrite app_nil_r; apply set_observations_same.
  - intros c Hc; apply negb_false_iff, arr_includes_In, Hin; assumption.
Qed.

(** X14: for every stored graph and batch of [addObservations] whose items
    all name stored entities, a second call with the same batch returns, for
    every item, an empty list of added observations, and leaves the stored
    graph as the first call left it. *)
Theorem addObservations_again (w : world) (graph : KnowledgeGraph)
  (items : list ObservationInput) :
  stored_graph w = Returned graph ->
  Forall (fun o => names_entity (entities graph) (entityName o)) items ->
  let w1 := snd (addObservations items w) in
  fst (addObservations items w1)
  = Returned (map (fun o => {| res_entityName := entityName o;
                               addedObservations := [] |}) items)
  /\ stored_graph (snd (addObservations items w1)) = stored_graph w1.
Proof.
  intros H Hall w1.
  destruct (add_pass_grows items (entities graph) Hall)
    as (results & es' & Hrun & _ & _ & Hin).
  assert (stored_graph w1
          = Returned {| entities := es'; relations := relations graph |})
    as H1.
  { unfold w1; rewrite (addObservations_run _ _ _ H), Hrun; cbn [snd].
    apply stored_graph_saved. }
  rewrite (addObservations_run _ _ _ H1); cbn [entities relations].
  rewrite (add_pass_present items es' Hin); cbn [fst snd].
  split; [reflexivity | rewrite stored_graph_saved, H1; reflexivity].
Qed.

(** X14 at the store of the test suite. *)
Lemma addObservations_again_witness :
  stored_graph Examples.small_world = Returned Examples.small_graph
  /\ fst (addObservations
            [{| entityName := lit "BudgetCalculator";
                contents := [lit "new fact"; lit "new fact"] |}]
            (snd (addObservations
                    [{| entityName := lit "BudgetCalculator";
                        contents := [lit "new fact"; lit "new fact"] |}]
                    Examples.small_world)))
     = Returned [{| res_entityName := lit "BudgetCalculator";
                    addedObservations := [] |}].
Proof.
  split; [vm_compute; reflexivity|].
  apply (addObservations_again Examples.small_world Examples.small_graph
           [{| entityName := lit "BudgetCalculator";
               contents := [lit "new fact"; lit "new fact"] |}]).
  - vm_compute; reflexivity.
  - apply Forall_cons; [|apply Forall_nil].
    exists Examples.budget; split; [right; left|]; reflexivity.
Defined.

Lemma find_entity_distinct (es : list Entity) (entity : Entity) :
  NoDup (map name es) -> In entity es ->
  find_entity es (name entity) = Some entity.
Proof.
  unfold find_entity; induction es as [|e es IH]; intros Hnd Hin;
    [destruct Hin|].
  cbn [map find] in *; inversion Hnd as [|? ? Hnotin Hrest]; subst.
  destruct Hin as [->|Hin]; [rewrite str_eqb_refl; reflexivity|].
  destruct (str_eqb (name e) (name entity)) eqn:E; [|auto].
  apply str_eqb_eq in E; exfalso; apply Hnotin; rewrite E.
  apply in_map; assumption.
Qed.

(** X15: for every stored graph whose entities have pairwise distinct names
    and every stored entity, [addObservations] with one item for its name
    returns as added, in the order given, exactly the strings of the item's
    contents that are not among the observations of the entity (a string
    that the contents hold twice is returned twice), and stores the graph in
    which this entity has them after its old observations and everything
    else is as it was. *)
Theorem addObservations_one (w : world) (graph : KnowledgeGraph)
  (entity : Entity) (cs : list jstring) :
  stored_graph w = Returned graph ->
  NoDup (map name (entities graph)) ->
  In entity (entities graph) ->
  exists added keep,
    fst (addObservations
           [{| entityName := name entity; contents := cs |}] w)
    = Returned [{| res_entityName := name entity;
                   addedObservations := added |}]
    /\ added = filter keep cs
    /\ (forall c, keep c = true <-> ~ In c (observations entity))
    /\ stored_graph
         (snd (addObservations
                 [{| entityName := name entity; contents := cs |}] w))
       = Returned
           {| entities :=
                map (fun e => if str_eqb (name e) (name entity)
                              then set_observations
                                     (observations e ++ added) e
                              else e) (entities graph);
              relations := relations graph |}.
Proof.
  intros H Hnd Hin.
  exists (filter (fun c => negb (arr_includes (observations entity) c)) cs).
  exists (fun c => negb (arr_includes (observations entity) c)).
  rewrite (addObservations_run _ _ _ H).
  cbn [add_pass entityName contents].
  rewrite (find_entity_distinct _ _ Hnd Hin); cbn [fst snd].
  split; [reflexivity|]; split; [reflexivity|]; split.
  - intros c; rewrite negb_true_iff; apply arr_includes_not_In.
  - rewrite stored_graph_saved; do 2 f_equal.
    rewrite (update_found_on_firsts _ _ _ []) by reflexivity.
    apply on_firsts_distinct; assumption.
Qed.

(** X15 at the store of the test suite: of a stored and a new string, the
    new one is added. *)
Lemma addObservations_one_witness :
  stored_graph Examples.small_world = Returned Examples.small_graph
  /\ fst (addObservations
            [{| entityName := name Examples.budget;
                contents := [lit "Budget calculation component";
                             lit "new fact"] |}]
            Examples.small_world)
     = Returned [{| res_entityName := name Examples.budget;
                    addedObservations := [lit "new fact"] |}].
Proof.
  split; [vm_compute; reflexivity|].
  destruct (addObservations_one Examples.small_world Examples.small_graph
              Examples.budget
              [lit "Budget calculation component"; lit "new fact"])
    as (added & keep & Hr & Hadded & _).
  - vm_compute; reflexivity.
  - repeat constructor; [|intros []].
    intros [E|[]]; vm_compute in E; discriminate.
  - right; left; reflexivity.
  - rewrite Hr; vm_compute in Hr; injection Hr as <-; reflexivity.
Defined.

Lemma delete_added (n : jstring) (cs new : list jstring) (es : list Entity) :
  (forall c, In c new -> In c cs) ->
  update_found n
    (fun e => set_observations
                (filter (fun o => negb (arr_includes cs o)) (observations e))
                e)
    (update_found n (fun e => set_observations (observations e ++ new) e) es)
  = update_found n
      (fun e => set_observations
                  (filter (fun o => negb (arr_includes cs o))
                          (observations e)) e) es.
Proof.
  intros Hnew.
  rewrite !(update_found_on_firsts n _ _ []) by reflexivity.
  rewrite on_firsts_compose
    by (intros e; destruct (str_eqb (name e) n); reflexivity).
  apply on_firsts_ext; intros e.
  destruct (str_eqb (name e) n) eqn:E; [|rewrite E; reflexivity].
  cbn [set_observations name]; rewrite E.
  unfold set_observations; cbn [name entityType observations subdomain].
  f_equal; rewrite filter_app, (filter_none _ new); [apply app_nil_r|].
  intros c Hc; apply negb_false_iff, arr_includes_In, Hnew; assumption.
Qed.

(** X16: for every stored graph, name and list of strings,
    [deleteObservations] of these strings for the name after
    [addObservations] of them for the name (whether that call returns or
    throws for a missing entity) leaves the stored graph that
    [deleteObservations] alone leaves; when the entity is stored and held
    none of the strings, this is the graph from before the two calls. *)
Theorem addObservations_then_delete (w : world) (graph : KnowledgeGraph)
  (n : jstring) (cs : list jstring) :
  stored_graph w = Returned graph ->
  let added := [{| entityName := n; contents := cs |}] in
  let deleted := [{| del_entityName := n; del_observations := cs |}] in
  stored_graph (snd (deleteObservations deleted
                       (snd (addObservations added w))))
  = stored_graph (snd (deleteObservations deleted w))
  /\ (forall entity,
        find_entity (entities graph) n = Some entity ->
        (forall c, In c cs -> ~ In c (observations entity)) ->
        stored_graph (snd (deleteObservations deleted
                             (snd (addObservations added w))))
        = Returned graph).
Proof.
  intros H added deleted.
  assert (stored_graph (snd (deleteObservations deleted
                               (snd (addObservations added w))))
          = stored_graph (snd (deleteObservations deleted w))) as Hsame.
  { pose proof (stored_after_call ascii_toLowerCase (AddObservations added)
                  w graph H) as H1.
    cbn [world_after graph_after add_pass added entityName contents] in H1.
    rewrite (deleteObservations_run _ _ _ H); cbn [snd].
    destruct (find_entity (entities graph) n) as [entity|] eqn:E.
    - rewrite (deleteObservations_run _ _ _ H1); cbn [snd].
      rewrite !stored_graph_saved.
      cbn [delete_pass deleted del_entityName del_observations entities
             relations].
      rewrite delete_added; [reflexivity|].
      intros c Hc; apply filter_In in Hc as [Hc _]; assumption.
    - rewrite (deleteObservations_run _ _ _ H1); reflexivity. }
  split; [exact Hsame|].
  intros entity Hfind Hnone; rewrite Hsame.
  rewrite (deleteObservations_run _ _ _ H); cbn [snd].
  rewrite stored_graph_saved.
  cbn [delete_pass deleted del_entityName del_observations].
  rewrite (update_found_fix _ _ _ entity Hfind);
    [rewrite record_eta; reflexivity|].
  rewrite filter_all; [apply set_observations_same|].
  intros c Hc; apply negb_true_iff, arr_includes_not_In.
  intros Hin; apply (Hnone c Hin Hc).
Qed.

(** X16 at the store of the test suite and a new string. *)
Lemma addObservations_then_delete_witness :
  stored_graph Examples.small_world = Returned Examples.small_graph
  /\ stored_graph
       (snd (deleteObservations
               [{| del_entityName := lit "BudgetCalculator";
                   del_observations := [lit "new fact"] |}]
               (snd (addObservations
                       [{| entityName := lit "BudgetCalculator";
                           contents := [lit "new fact"] |}]
                       Examples.small_world))))
     = Returned Examples.small_graph.
Proof.
  split; [vm_compute; reflexivity|].
  destruct (addObservations_then_delete Examples.small_world
              Examples.small_graph (lit "BudgetCalculator") [lit "new fact"])
    as [_ Hback]; [vm_compute; reflexivity|].
  apply (Hback Examples.budget); [reflexivity|].
  intros c [<-|[]] [E|[]]; vm_compute in E; discriminate.
Defined.

End AddObservations.

(* ================================================================== *)
(** * Queries *)
(* ================================================================== *)

Section Queries.

Variable toLowerCase : jstring -> jstring.

(** X17: for every stored graph and list of names, [openNodes] returns, in
    the stored order (not the order of the list), exactly the stored
    entities whose name is in the list, and exactly the stored relations
    whose [from] and [to] both name returned entities (so none with an end
    that is in the list but names no stored entity); it leaves an existing
    file as it is. *)
Theorem openNodes_spec (w : world) (graph : KnowledgeGraph)
  (names : list jstring) :
  stored_graph w = Returned graph ->
  exists result keep_entity keep_relation,
    fst (openNodes names w) = Returned result
    /\ entities result = filter keep_entity (entities graph)
    /\ (forall e, keep_entity e = true <-> In (name e) names)
    /\ relations result = filter keep_relation (relations graph)
    /\ (forall r, keep_relation r = true
                  <-> names_entity (entities result) (from r)
                      /\ names_entity (entities result) (to r))
    /\ (forall data, file w = Some data -> snd (openNodes names w) = w).
Proof.
  intros H; rewrite (openNodes_run _ _ _ H); cbn [fst snd].
  eexists _, _, _; split; [reflexivity|]; cbn [entities relations].
  split; [reflexivity|]; split; [intros e; apply arr_includes_In|].
  split; [unfold induced_relations; reflexivity|]; split.
  - intros r; cbv beta.
    rewrite andb_true_iff, !arr_includes_names; reflexivity.
  - intros data Hd; apply (loaded_existing _ _ Hd).
Qed.

Lemma names_of_opened (es found : list Entity) (x : jstring) :
  (forall f, In f found -> In f es) ->
  arr_includes
    (map name (filter (fun e => arr_includes (map name found) (name e)) es)) x
  = arr_includes (map name found) x.
Proof.
  intros Hsub.
  destruct (arr_includes (map name found) x) eqn:E.
  - apply arr_includes_In; apply arr_includes_In in E.
    apply in_map_iff in E as (f & <- & Hf); apply in_map, filter_In.
    split; [apply Hsub; assumption|].
    apply arr_includes_In, in_map; assumption.
  - apply arr_includes_not_In; apply arr_includes_not_In in E.
    intros Hin; apply E; apply in_map_iff in Hin as (e & <- & He).
    apply filter_In in He as [_ He]; apply arr_includes_In; assumption.
Qed.

Lemma induced_relations_opened (graph : KnowledgeGraph)
  (found : list Entity) :
  (forall f, In f found -> In f (entities graph)) ->
  induced_relations
    (filter (fun e => arr_includes (map name found) (name e))
            (entities graph)) graph
  = induced_relations found graph.
Proof.
  intros Hsub; unfold induced_relations; apply filter_ext; intros r.
  rewrite !names_of_opened by assumption; reflexivity.
Qed.

Lemma same_name_same_entity (es : list Entity) (a b : Entity) :
  NoDup (map name es) -> In a es -> In b es -> name a = name b -> a = b.
Proof.
  induction es as [|e es IH]; intros Hnd Ha Hb Hn; [destruct Ha|].
  cbn [map] in Hnd; inversion Hnd as [|? ? Hnotin Hrest]; subst.
  destruct Ha as [->|Ha], Hb as [->|Hb]; auto.
  - exfalso; apply Hnotin; rewrite Hn; apply in_map; assumption.
  - exfalso; apply Hnotin; rewrite <- Hn; apply in_map; assumption.
Qed.

Lemma opened_found (es : list Entity) (p : Entity -> bool) :
  NoDup (map name es) ->
  filter (fun e => arr_includes (map name (filter p es)) (name e)) es
  = filter p es.
Proof.
  intros Hnd; apply filter_ext_in; intros e He.
  destruct (p e) eqn:E.
  - apply arr_includes_In, in_map, filter_In; split; assumption.
  - apply arr_includes_not_In; intros Hin.
    apply in_map_iff in Hin as (f & Hn & Hf).
    apply filter_In in Hf as [Hf Hp].
    rewrite (same_name_same_entity es f e Hnd Hf He Hn) in Hp; congruence.
Qed.

(** X18: for every stored graph and query, the relations that [searchNodes]
    returns are the relations that [openNodes] returns for the names of the
    entities found; when the stored entities have pairwise distinct names,
    the two results are the same graph. *)
Theorem searchNodes_as_openNodes (w : world) (graph : KnowledgeGraph)
  (query : jstring) :
  stored_graph w = Returned graph ->
  exists found opened,
    fst (searchNodes toLowerCase query w) = Returned found
    /\ fst (openNodes (map name (entities found)) w) = Returned opened
    /\ relations opened = relations found
    /\ (NoDup (map name (entities graph)) -> opened = found).
Proof.
  intros H; rewrite (searchNodes_run _ _ _ _ H).
  eexists; eexists; split; [reflexivity|]; cbn [fst].
  rewrite (openNodes_run _ _ _ H); cbn [fst]; split; [reflexivity|].
  destruct (keywords_of toLowerCase query) as [|k ks]; cbn [entities relations map].
  - rewrite (filter_none _ (entities graph)) by reflexivity.
    unfold induced_relations; cbn [map].
    rewrite (filter_none _ (relations graph)) by reflexivity.
    split; [reflexivity | intros _; reflexivity].
  - split.
    + apply induced_relations_opened; intros f Hf.
      apply filter_In in Hf as [Hf _]; assumption.
    + intros Hnd; rewrite opened_found by assumption; reflexivity.
Qed.

(** X19: a call of [readGraph], [searchNodes] or [openNodes] never calls
    [saveGraph], whatever the store holds: it leaves an existing file and
    the log of writes exactly as they were (a missing file is created
    empty). *)
Theorem queries_write_nothing (c : call) (w : world) :
  reads_only c = true ->
  world_after toLowerCase c w = loaded w
  /\ (forall data, file w = Some data -> world_after toLowerCase c w = w)
  /\ (forall text, In (Saved text) (log (world_after toLowerCase c w)) ->
                   In (Saved text) (log w)).
Proof.
  intros Hc.
  assert (world_after toLowerCase c w = loaded w) as Hw.
  { destruct c; try discriminate; cbn [world_after]; [reflexivity | |];
      destruct (stored_graph w) as [graph|e] eqn:H.
    - rewrite (searchNodes_run _ _ _ _ H); reflexivity.
    - unfold searchNodes; rewrite (bind_loadGraph_thrown _ _ _ H).
      reflexivity.
    - rewrite (openNodes_run _ _ _ H); reflexivity.
    - unfold openNodes; rewrite (bind_loadGraph_thrown _ _ _ H).
      reflexivity. }
  rewrite Hw; split; [reflexivity|]; split.
  - intros data Hd; apply (loaded_existing _ _ Hd).
  - intros text Hin; destruct (loaded_log_no_save w) as [E|E];
      rewrite E in Hin; [assumption|].
    apply in_app_or in Hin as [Hin|[Hin|[]]]; [assumption | discriminate].
Qed.

End Queries.

(** X17 at the store of the test suite: a stored name, and a name of no
    entity. *)
Lemma openNodes_spec_witness :
  stored_graph Examples.small_world = Returned Examples.small_graph
  /\ fst (openNodes [lit "Nobody"; lit "BudgetCalculator"]
            Examples.small_world)
     = Returned {| entities := [Examples.budget]; relations := [] |}
  /\ snd (openNodes [lit "Nobody"; lit "BudgetCalculator"]
            Examples.small_world) = Examples.small_world.
Proof.
  split; [vm_compute; reflexivity|].
  destruct (openNodes_spec Examples.small_world Examples.small_graph
              [lit "Nobody"; lit "BudgetCalculator"])
    as (result & ke & kr & Hr & _ & _ & _ & _ & Hw);
    [vm_compute; reflexivity|].
  split; [vm_compute; reflexivity|].
  apply (Hw (utf8_text (graph_text Examples.small_graph))).
  vm_compute; reflexivity.
Defined.

(** X18 at the store of the test suite. *)
Lemma searchNodes_as_openNodes_witness :
  stored_graph Examples.small_world = Returned Examples.small_graph
  /\ exists found opened,
       fst (searchNodes ascii_toLowerCase (lit "budget") Examples.small_world)
       = Returned found
       /\ fst (openNodes (map name (entities found)) Examples.small_world)
          = Returned opened
       /\ relations opened = relations found.
Proof.
  split; [vm_compute; reflexivity|].
  destruct (searchNodes_as_openNodes ascii_toLowerCase Examples.small_world
              Examples.small_graph (lit "budget"))
    as (found & opened & Hf & Ho & Hr & _); [vm_compute; reflexivity|].
  exists found, opened; repeat split; assumption.
Defined.

(** X19 at the store of the test suite and a search. *)
Lemma queries_write_nothing_witness :
  reads_only (SearchNodes (lit "budget")) = true
  /\ world_after ascii_toLowerCase (SearchNodes (lit "budget"))
       Examples.small_world = Examples.small_world.
Proof.
  split; [reflexivity|].
  destruct (queries_write_nothing ascii_toLowerCase
              (SearchNodes (lit "budget")) Examples.small_world eq_refl)
    as (_ & Hw & _).
  apply (Hw (utf8_text (graph_text Examples.small_graph))).
  vm_compute; reflexivity.
Defined.

(* ================================================================== *)
(** * Loading files that the program did not write *)
(* ================================================================== *)

Section Loading.

Lemma split_char_from_app (sep : N) (a b : jstring) :
  forall cur,
  split_char_from sep cur (a ++ sep :: b)
  = split_char_from sep cur a ++ split_char_from sep [] b.
Proof.
  induction a as [|c a IH]; intros cur; cbn [app split_char_from].
  - rewrite N.eqb_refl; reflexivity.
  - destruct (c =? sep); [cbn [app]; f_equal|]; apply IH.
Qed.

Lemma split_char_app (sep : N) (a b : jstring) :
  split_char sep (a ++ sep :: b) = split_char sep a ++ split_char sep b.
Proof. apply split_char_from_app. Qed.

Lemma split_char_from_whole (sep : N) (l : jstring) :
  ~ In sep l -> forall cur, split_char_from sep cur l = [rev cur ++ l].
Proof.
  induction l as [|c l IH]; intros Hl cur; cbn [split_char_from].
  - rewrite app_nil_r; reflexivity.
  - destruct (N.eqb_spec c sep) as [->|_]; [exfalso; apply Hl; left; auto|].
    rewrite IH by (intros H; apply Hl; right; assumption).
    cbn [rev]; rewrite <- app_assoc; reflexivity.
Qed.

Lemma split_char_whole (sep : N) (l : jstring) :
  ~ In sep l -> split_char sep l = [l].
Proof. intros H; apply (split_char_from_whole sep l H []). Qed.

Lemma load_lines_app (l1 l2 : list jstring) :
  forall graph,
  load_lines graph (l1 ++ l2)
  = match load_lines graph l1 with
    | Returned graph' => load_lines graph' l2
    | Thrown e => Thrown e
    end.
Proof.
  induction l1 as [|line l1 IH]; intros graph; [reflexivity|].
  cbn [app load_lines]; destruct (load_line graph line); [apply IH|].
  reflexivity.
Qed.

Lemma load_line_skipped (line : jstring) (graph : KnowledgeGraph) :
  JSON_parse line = None
  \/ (exists item,
        JSON_parse line = Some item
        /\ forall ty, prop (lit "type") item = VStr ty ->
                      ty <> lit "entity" /\ ty <> lit "relation") ->
  load_line graph line = Returned graph.
Proof.
  unfold load_line; intros [->|(item & -> & Hty)]; [reflexivity|].
  destruct (prop (lit "type") item) as [| | | |ty| |]; try reflexivity.
  destruct (Hty ty eq_refl) as [He Hr].
  apply str_eqb_neq in He, Hr; rewrite He, Hr; reflexivity.
Qed.

(** The non-blank lines of a text with a skipped line are loaded like the
    others alone. *)
Lemma load_lines_skipped (bad : jstring) (l1 l2 : list jstring) :
  skipped bad ->
  load_lines empty_graph
    (filter (fun line => negb (str_eqb (trim line) [])) (l1 ++ [bad] ++ l2))
  = load_lines empty_graph
      (filter (fun line => negb (str_eqb (trim line) [])) (l1 ++ l2)).
Proof.
  intros Hbad; rewrite !filter_app, !load_lines_app.
  destruct (load_lines empty_graph (filter _ l1)) as [g|]; [|reflexivity].
  cbn [filter]; destruct Hbad as [Hb|Hbad]; [rewrite Hb; reflexivity|].
  destruct (str_eqb (trim bad) []); cbn [negb app load_lines];
    [reflexivity|].
  rewrite (load_line_skipped bad g Hbad); reflexivity.
Qed.

(** X20: a line of the file that is blank, that [JSON.parse] rejects, or
    that holds a value whose [type] is neither ["entity"] nor ["relation"]
    does not change what [loadGraph] loads from the other lines, whether it
    is the first line or stands between others. *)
Theorem load_text_skips (bad before after : jstring) :
  skipped bad ->
  ~ In 10 bad ->
  load_text (bad ++ 10 :: after) = load_text after
  /\ load_text (before ++ 10 :: bad ++ 10 :: after)
     = load_text (before ++ 10 :: after).
Proof.
  intros Hbad Hnl; unfold load_text; split.
  - rewrite split_char_app, (split_char_whole 10 bad Hnl).
    apply (load_lines_skipped bad [] _ Hbad).
  - rewrite !split_char_app, (split_char_whole 10 bad Hnl).
    apply (load_lines_skipped bad _ _ Hbad).
Qed.

(** X20 for a line that is no JSON text, before the text of the test
    suite's graph. *)
Lemma load_text_skips_witness :
  skipped (lit "not a record")
  /\ load_text (lit "not a record" ++ 10 :: graph_text Examples.small_graph)
     = Returned Examples.small_graph.
Proof.
  assert (skipped (lit "not a record")) as Hs
    by (right; left; vm_compute; reflexivity).
  split; [exact Hs|].
  destruct (load_text_skips (lit "not a record") []
              (graph_text Examples.small_graph) Hs) as [Hfirst _].
  - intros H; vm_compute in H.
    repeat (destruct H as [H|H]; [discriminate|]); exact H.
  - rewrite Hfirst; vm_compute; reflexivity.
Defined.

Lemma stored_line_ok (record : Entity + Relation) :
  ~ In 10 (stored_line record)
  /\ str_eqb (trim (stored_line record)) [] = false.
Proof.
  destruct record as [e|r]; cbn [stored_line].
  - rewrite entity_line_text; apply object_text_line, entity_members_flat.
  - rewrite relation_line_text; apply object_text_line, relation_members_flat.
Qed.

Lemma load_stored_lines (records : list (Entity + Relation)) :
  forall graph,
  load_lines graph (map stored_line records)
  = Returned {| entities := entities graph ++ entities_of records;
                relations := relations graph ++ relations_of records |}.
Proof.
  induction records as [|[e|r] records IH]; intros graph;
    cbn [map load_lines stored_line entities_of relations_of].
  - rewrite !app_nil_r; destruct graph; reflexivity.
  - rewrite load_entity_line, IH; cbn [entities relations].
    rewrite <- app_assoc; reflexivity.
  - rewrite load_relation_line, IH; cbn [entities relations].
    rewrite <- app_assoc; reflexivity.
Qed.

(** X21: the lines of entities and of relations may stand in the file in
    any order (a relation before the entities it names, say): [loadGraph]
    loads the entities in the order of their lines and the relations in the
    order of theirs. *)
Theorem load_text_any_order (records : list (Entity + Relation)) :
  load_text (join_char 10 (map stored_line records) ++ [10])
  = Returned {| entities := entities_of records;
                relations := relations_of records |}.
Proof.
  unfold load_text; rewrite lines_of_joined.
  - apply (load_stored_lines records empty_graph).
  - apply Forall_map, Forall_forall; intros record _.
    apply stored_line_ok.
Qed.

(** [JSON.parse] reads the text of a record also when white space follows
    it. *)
Lemma JSON_parse_object_trail (m : jstring * jsval)
  (ms : list (jstring * jsval)) (trail : jstring) :
  Forall (fun m => flat (snd m)) (m :: ms) ->
  skip_ws trail = [] ->
  JSON_parse (object_text (m :: ms) ++ trail) = Some (VObj (m :: ms)).
Proof.
  intros Hflat Htrail; unfold JSON_parse.
  set (fuel := (2 * length (object_text (m :: ms) ++ trail) + 2)%nat).
  assert (length (object_text (m :: ms)) < fuel)%nat as Hf
    by (unfold fuel; rewrite length_app; lia).
  clearbody fuel; unfold object_text in *.
  destruct fuel as [|fuel]; [lia|].
  cbn [length] in Hf; rewrite length_app in Hf; cbn [length] in Hf.
  rewrite <- app_comm_cons, <- app_assoc.
  change ([125] ++ trail) with (125 :: trail).
  assert (exists t,
             commas (map member_text (m :: ms)) ++ 125 :: trail = 34 :: t)
    as [t Ht].
  { cbn [map commas]; destruct (map member_text ms); unfold member_text, quote;
      eexists; cbn [app]; reflexivity. }
  rewrite Ht, parse_value_at_object, <- Ht.
  rewrite (parse_members_flat ms m fuel trail) by (assumption || lia).
  rewrite Htrail; reflexivity.
Qed.

Lemma stored_line_trail (record : Entity + Relation) (trail : jstring) :
  skip_ws trail = [] ->
  JSON_parse (stored_line record ++ trail) = JSON_parse (stored_line record).
Proof.
  intros Htrail; destruct record as [e|r]; cbn [stored_line].
  - rewrite entity_line_parse, entity_line_text.
    pose proof (entity_members_flat e) as H.
    unfold entity_members in *; cbn [app] in *.
    apply JSON_parse_object_trail; assumption.
  - rewrite relation_line_parse, relation_line_text.
    apply JSON_parse_object_trail; [apply relation_members_flat|assumption].
Qed.

Lemma load_line_parse (a b : jstring) (graph : KnowledgeGraph) :
  JSON_parse a = JSON_parse b -> load_line graph a = load_line graph b.
Proof. unfold load_line; intros ->; reflexivity. Qed.

Lemma load_lines_trail (trail : jstring)
  (records : list (Entity + Relation)) :
  skip_ws trail = [] ->
  forall graph,
  load_lines graph (map (fun record => stored_line record ++ trail) records)
  = load_lines graph (map stored_line records).
Proof.
  intros Htrail; induction records as [|record records IH]; intros graph;
    [reflexivity|].
  cbn [map load_lines].
  rewrite (load_line_parse _ (stored_line record))
    by (apply stored_line_trail; assumption).
  destruct (load_line graph (stored_line record)); [apply IH | reflexivity].
Qed.

Lemma space_trail (trail : jstring) :
  Forall (fun c => c = 9 \/ c = 13 \/ c = 32) trail ->
  skip_ws trail = [] /\ ~ In 10 trail.
Proof.
  induction 1 as [|c trail Hc _ [IH1 IH2]]; [split; [reflexivity | intros []]|].
  split.
  - unfold skip_ws in *; cbn [drop_while].
    destruct Hc as [-> | [-> | ->]]; exact IH1.
  - intros [E|Hin]; [|contradiction].
    destruct Hc as [-> | [-> | ->]]; discriminate.
Qed.

Lemma split_lines_trail (trail : jstring) (lines : list jstring) :
  ~ In 10 trail ->
  Forall (fun l => ~ In 10 l) lines ->
  split_char 10 (flat_map (fun l => l ++ trail ++ [10]) lines)
  = map (fun l => l ++ trail) lines ++ [[]].
Proof.
  intros Htrail; induction 1 as [|l lines Hl _ IH]; [reflexivity|].
  cbn [flat_map map app].
  replace ((l ++ trail ++ [10]) ++ flat_map (fun l => l ++ trail ++ [10]) lines)
    with ((l ++ trail) ++ 10 :: flat_map (fun l => l ++ trail ++ [10]) lines)
    by (rewrite <- !app_assoc; reflexivity).
  rewrite split_char_app, IH, split_char_whole; [reflexivity|].
  intros Hin; apply in_app_or in Hin as [Hin|Hin]; contradiction.
Qed.

Lemma stored_line_opens (record : Entity + Relation) :
  exists t, stored_line record = 123 :: t.
Proof.
  destruct record as [e|r]; cbn [stored_line];
    [rewrite entity_line_text | rewrite relation_line_text];
    unfold object_text; eexists; reflexivity.
Qed.

(** The records of a graph, entities first. *)
Lemma graph_lines_stored (graph : KnowledgeGraph) :
  graph_lines graph
  = map stored_line (map inl (entities graph) ++ map inr (relations graph)).
Proof.
  unfold graph_lines; rewrite map_app, !map_map; reflexivity.
Qed.

Lemma entities_of_graph (es : list Entity) (rs : list Relation) :
  entities_of (map inl es ++ map inr rs) = es
  /\ relations_of (map inl es ++ map inr rs) = rs.
Proof.
  induction es as [|e es [IH1 IH2]]; cbn [map app entities_of relations_of].
  - induction rs as [|r rs [IH1 IH2]]; cbn [map entities_of relations_of];
      [split; reflexivity | rewrite IH2; split; [assumption | reflexivity]].
  - rewrite IH1; split; [reflexivity | assumption].
Qed.

(** X22: the file that [saveGraph] wrote is loaded as the same graph when
    every line feed is preceded by the same run of spaces, tabs and
    carriage returns (line ends of the form CR LF, say). *)
Theorem load_text_trailing_space (trail : jstring) (graph : KnowledgeGraph) :
  Forall (fun c => c = 9 \/ c = 13 \/ c = 32) trail ->
  load_text (flat_map (fun l => l ++ trail ++ [10]) (graph_lines graph))
  = Returned graph.
Proof.
  intros Htrail; destruct (space_trail trail Htrail) as [Hws Hnl].
  unfold load_text; rewrite split_lines_trail;
    [|assumption
     |eapply Forall_impl; [|apply graph_lines_ok]; intros l [Hl _]; exact Hl].
  rewrite filter_app; cbn [filter]; change (trim []) with (@nil N).
  cbn [str_eqb negb]; rewrite app_nil_r.
  rewrite graph_lines_stored, map_map.
  rewrite filter_all.
  - rewrite (load_lines_trail trail _ Hws), load_stored_lines.
    destruct (entities_of_graph (entities graph) (relations graph))
      as [E1 E2].
    rewrite E1, E2; destruct graph; reflexivity.
  - intros l Hl; apply in_map_iff in Hl as (record & <- & _).
    destruct (stored_line_opens record) as [t ->].
    cbn [app]; rewrite trim_not_blank; reflexivity.
Qed.

(** X22 for line ends of the form CR LF. *)
Lemma load_text_trailing_space_witness :
  Forall (fun c => c = 9 \/ c = 13 \/ c = 32) [13]
  /\ load_text (flat_map (fun l => l ++ [13] ++ [10])
                         (graph_lines Examples.small_graph))
     = Returned Examples.small_graph.
Proof.
  assert (Forall (fun c => c = 9 \/ c = 13 \/ c = 32) [13]) as H
    by (repeat constructor; right; left; reflexivity).
  split; [exact H|].
  apply (load_text_trailing_space [13] Examples.small_graph H).
Defined.

End Loading.

(* ================================================================== *)
(** * The text of the file *)
(* ================================================================== *)

Section FileText.

Variable toLowerCase : jstring -> jstring.



(** X24: for every stored graph, a call of [createRelations],
    [deleteEntities], [deleteObservations] or [deleteRelations] leaves a
    file whose text is exactly what [saveGraph] writes for the graph it
    stores: a line that was skipped when the file was loaded is no longer in
    the file. *)
Theorem saving_call_rewrites_file (c : call) (w : world)
  (graph : KnowledgeGraph) :
  stored_graph w = Returned graph ->
  always_saves c = true ->
  file (world_after toLowerCase c w)
  = Some (graph_text (graph_after c graph)).
Proof.
  intros H Hc; destruct c; try discriminate; cbn [world_after graph_after].
  - rewrite (createRelations_run _ _ _ H); cbn [snd saveGraph file].
    rewrite utf8_graph_text; reflexivity.
  - rewrite (deleteEntities_run _ _ _ H); cbn [snd saveGraph file].
    rewrite utf8_graph_text; reflexivity.
  - rewrite (deleteObservations_run _ _ _ H); cbn [snd saveGraph file].
    rewrite utf8_graph_text; reflexivity.
  - rewrite (deleteRelations_run _ _ _ H); cbn [snd saveGraph file].
    rewrite utf8_graph_text; reflexivity.
Qed.

End FileText.

(** X24 at two stores.  On the empty store, a relation that is given with
    [to] as its first member is written so, after [type].  On a file whose
    first line is no JSON text, the line is gone after deleting nothing. *)
Lemma saving_call_rewrites_file_witness :
  stored_graph initial_world = Returned empty_graph
  /\ file (world_after ascii_toLowerCase
             (CreateRelations [Examples.uses_to_first]) initial_world)
     = Some (object_text
               [(lit "type", VStr (lit "relation"));
                (lit "to", VStr (lit "BudgetCalculator"));
                (lit "from", VStr (lit "ComparisonV3Coordinator"));
                (lit "relationType", VStr (lit "uses"))] ++ [10])
  /\ stored_graph
       {| file := Some (lit "not a record" ++ 10
                        :: graph_text Examples.small_graph);
          log := [] |} = Returned Examples.small_graph
  /\ file (world_after ascii_toLowerCase (DeleteEntities [])
             {| file := Some (lit "not a record" ++ 10
                              :: graph_text Examples.small_graph);
                log := [] |})
     = Some (graph_text Examples.small_graph).
Proof.
  split; [reflexivity|]; split; [|split; [vm_compute; reflexivity|]].
  - rewrite (saving_call_rewrites_file ascii_toLowerCase
               (CreateRelations [Examples.uses_to_first]) _ empty_graph);
      [vm_compute; reflexivity | reflexivity | reflexivity].
  - rewrite (saving_call_rewrites_file ascii_toLowerCase (DeleteEntities [])
               _ Examples.small_graph);
      [vm_compute; reflexivity | vm_compute; reflexivity | reflexivity].
Defined.

(* ================================================================== *)
(** * Several keywords *)
(* ================================================================== *)

Section Keywords.

Variable toLowerCase : jstring -> jstring.

(** The result of [searchNodes], with or without keywords. *)
Lemma searchNodes_result (query : jstring) (w : world)
  (graph : KnowledgeGraph) :
  stored_graph w = Returned graph ->
  fst (searchNodes toLowerCase query w)
  = Returned
      {| entities :=
           filter (entity_matches toLowerCase (keywords_of toLowerCase query))
                  (entities graph);
         relations :=
           induced_relations
             (filter (entity_matches toLowerCase
                        (keywords_of toLowerCase query)) (entities graph))
             graph |}.
Proof.
  intros H; rewrite (searchNodes_run _ _ _ _ H); cbn [fst].
  destruct (keywords_of toLowerCase query) as [|k ks]; [|reflexivity].
  rewrite (filter_none _ (entities graph)) by reflexivity.
  unfold induced_relations; cbn [map].
  rewrite (filter_none _ (relations graph)) by reflexivity; reflexivity.
Qed.

Lemma entity_matches_app (ks1 ks2 : list jstring) (e : Entity) :
  entity_matches toLowerCase (ks1 ++ ks2) e
  = entity_matches toLowerCase ks1 e || entity_matches toLowerCase ks2 e.
Proof. unfold entity_matches; rewrite map_app, existsb_app; reflexivity. Qed.

Lemma induced_relations_more (graph : KnowledgeGraph)
  (found more : list Entity) (r : Relation) :
  (forall e, In e found -> In e more) ->
  In r (induced_relations found graph) ->
  In r (induced_relations more graph).
Proof.
  unfold induced_relations; intros Hsub Hr.
  apply filter_In in Hr as [Hr Hends]; apply filter_In; split; [assumption|].
  apply andb_true_iff in Hends as [Hf Ht]; apply andb_true_iff.
  rewrite arr_includes_names in Hf, Ht; rewrite !arr_includes_names.
  destruct Hf as (a & Ha & Hna), Ht as (b & Hb & Hnb).
  split; [exists a | exists b]; auto.
Qed.

(** X25: for every stored graph, when the keywords of a query are those of
    a first query followed by those of a second, [searchNodes] returns for
    it exactly the entities that it returns for the first or for the second
    query, and every relation that it returns for one of them. *)
Theorem searchNodes_union (w : world) (graph : KnowledgeGraph)
  (query query1 query2 : jstring) :
  stored_graph w = Returned graph ->
  keywords_of toLowerCase query
  = keywords_of toLowerCase query1 ++ keywords_of toLowerCase query2 ->
  exists result result1 result2,
    fst (searchNodes toLowerCase query w) = Returned result
    /\ fst (searchNodes toLowerCase query1 w) = Returned result1
    /\ fst (searchNodes toLowerCase query2 w) = Returned result2
    /\ (forall e, In e (entities result)
                  <-> In e (entities result1) \/ In e (entities result2))
    /\ (forall r, In r (relations result1) \/ In r (relations result2) ->
                  In r (relations result)).
Proof.
  intros H Hk; rewrite !(searchNodes_result _ _ _ H), Hk.
  eexists _, _, _; split; [reflexivity|]; split; [reflexivity|].
  split; [reflexivity|]; cbn [entities relations]; split.
  - intros e; rewrite !filter_In, entity_matches_app, orb_true_iff.
    split; [intros [He [Hm|Hm]]; [left | right]; split; assumption|].
    intros [[He Hm]|[He Hm]]; (split; [assumption|]); [left | right];
      assumption.
  - intros r [Hr|Hr]; (eapply induced_relations_more; [|exact Hr]);
      intros e He; apply filter_In in He as [He Hm]; apply filter_In;
      (split; [assumption|]); rewrite entity_matches_app, Hm;
      [reflexivity | apply orb_true_r].
Qed.

End Keywords.

(** X25 at the store of the test suite and the queries of its disjunction
    test. *)
Lemma searchNodes_union_witness :
  stored_graph Examples.small_world = Returned Examples.small_graph
  /\ keywords_of ascii_toLowerCase (lit "comparison budget")
     = keywords_of ascii_toLowerCase (lit "comparison")
       ++ keywords_of ascii_toLowerCase (lit "budget")
  /\ exists result result1 result2,
       fst (searchNodes ascii_toLowerCase (lit "comparison budget")
              Examples.small_world) = Returned result
       /\ fst (searchNodes ascii_toLowerCase (lit "comparison")
                 Examples.small_world) = Returned result1
       /\ fst (searchNodes ascii_toLowerCase (lit "budget")
                 Examples.small_world) = Returned result2
       /\ (forall e, In e (entities result)
                     <-> In e (entities result1) \/ In e (entities result2)).
Proof.
  split; [vm_compute; reflexivity|]; split; [vm_compute; reflexivity|].
  destruct (searchNodes_union ascii_toLowerCase Examples.small_world
              Examples.small_graph (lit "comparison budget")
              (lit "comparison") (lit "budget"))
    as (r & r1 & r2 & H0 & H1 & H2 & He & _);
    [vm_compute; reflexivity | vm_compute; reflexivity|].
  exists r, r1, r2; repeat split; try assumption; apply He.
Defined.
